(** * ember-serviceable-helper: a shallow embedding and its properties

    The package upgrades a plain function into a dependency-injected one:
    - [injection.ts]   the per-owner cache ([Storage]) and the dual-mode
                       constructor ([makeConstructor], [constructorFor]);
    - [manager.ts]     the helper manager ([createHelper], [getValue]);
    - [builder.ts] and [polaris-experimental.ts]
                       the chainable [Builder] that accumulates the rules.

    JavaScript values are modelled by identity, the objects the library
    allocates live in an explicit store, and all code runs in a state and
    exception monad over that store.  Code that the library calls but does
    not define (the host framework and the user's functions) is a parameter
    of the development, see [Host]. *)

From Stdlib Require Import ZArith.
From stdpp Require Import base option countable gmap strings list.

Open Scope string_scope.

(** ** Values *)

Inductive Value : Type :=
| VUndefined
| VNull
| VBool (b : bool)
| VNum (n : Z)
| VStr (s : string)
| VObj (r : nat)     (* an object of the host: owner, receiver, service, ... *)
| VFun (f : nat)     (* a function of the host or of the user *)
| VRef (r : nat)     (* a plain object allocated in the modelled store *)
| VBound (r : nat).  (* a bound function allocated in the modelled store *)

#[global] Instance Value_eq_dec : EqDecision Value.
Proof. solve_decision. Defined.

Definition Value_encode (v : Value) : unit + unit + bool + Z + string + nat + nat + nat + nat :=
  match v with
  | VUndefined => inl (inl (inl (inl (inl (inl (inl (inl tt)))))))
  | VNull => inl (inl (inl (inl (inl (inl (inl (inr tt)))))))
  | VBool b => inl (inl (inl (inl (inl (inl (inr b))))))
  | VNum n => inl (inl (inl (inl (inl (inr n)))))
  | VStr s => inl (inl (inl (inl (inr s))))
  | VObj r => inl (inl (inl (inr r)))
  | VFun f => inl (inl (inr f))
  | VRef r => inl (inr r)
  | VBound r => inr r
  end.

Definition Value_decode (x : unit + unit + bool + Z + string + nat + nat + nat + nat) : Value :=
  match x with
  | inl (inl (inl (inl (inl (inl (inl (inl _))))))) => VUndefined
  | inl (inl (inl (inl (inl (inl (inl (inr _))))))) => VNull
  | inl (inl (inl (inl (inl (inl (inr b)))))) => VBool b
  | inl (inl (inl (inl (inl (inr n))))) => VNum n
  | inl (inl (inl (inl (inr s)))) => VStr s
  | inl (inl (inl (inr r))) => VObj r
  | inl (inl (inr f)) => VFun f
  | inl (inr r) => VRef r
  | inr r => VBound r
  end.

#[global] Instance Value_countable : Countable Value.
Proof.
  apply (inj_countable' Value_encode Value_decode).
  by intros [].
Defined.

(** ToBoolean *)
Definition truthy (v : Value) : bool :=
  match v with
  | VUndefined | VNull => false
  | VBool b => b
  | VNum n => negb (n =? 0)%Z
  | VStr s => negb (String.eqb s "")
  | VObj _ | VFun _ | VRef _ | VBound _ => true
  end.

(** [v !== null && typeof v === 'object'] *)
Definition is_object (v : Value) : bool :=
  match v with
  | VObj _ | VRef _ => true
  | _ => false
  end.

(** [v] is an Object in the sense of the language (objects and functions):
    what a weak map accepts as a key and what [new] lets a constructor
    return. *)
Definition is_reference (v : Value) : bool :=
  match v with
  | VObj _ | VFun _ | VRef _ | VBound _ => true
  | _ => false
  end.

(** ** Exceptions and results *)

Inductive Error : Type :=
| AssertionError (msg : string)   (* thrown by [assert] of @ember/debug *)
| TypeError (msg : string)        (* thrown by the language runtime *)
| Thrown (v : Value)              (* thrown by host or user code *)
| OutOfFuel.                      (* the evaluator ran out of depth *)

Inductive Result (A : Type) : Type :=
| Ok (a : A)
| Throw (e : Error).
Arguments Ok {A} a.
Arguments Throw {A} e.

Definition is_ok {A} (r : Result A) : bool :=
  match r with Ok _ => true | Throw _ => false end.

(** ** Code of the user

    A function of the user is a finite tree of the interactions it has with
    the rest of the world: reading a property of an object (which may run
    one of the library's lazy getters, and so another function of the
    user) and acting on the host's own state.  It has no handle on the
    package: calling a constructor of the package, or a method of the
    storage that a [build] callback has for receiver, from inside a
    callback is outside the model.  What is proved below of the two methods
    of a storage is proved for callbacks that are arbitrary computations
    (see [getInjected_keeps]), or does not depend on what a callback does. *)

Inductive UProg (E : Type) : Type :=
| URet (v : Value)
| UThrow (v : Value)
| UGet (obj : Value) (name : string) (k : Value → UProg E)
| UHost (f : E → Result Value * E) (k : Value → UProg E).
Arguments URet {E} v.
Arguments UThrow {E} v.
Arguments UGet {E} obj name k.
Arguments UHost {E} f k.

(** ** The host: everything imported from outside the package *)

Record Host (E : Type) : Type := {
  (* @ember/destroyable *)
  isDestroying : E → Value → bool;
  isDestroyed : E → Value → bool;
  (* @ember/owner getOwner, and ember-polaris-service getScope *)
  getOwner : E → Value → Result Value;
  getScope : E → Value → Result Value;
  (* owner.lookup(fullName), and ember-polaris-service lookup(scope, factory) *)
  owner_lookup : Value → string → E → Result Value * E;
  lookup : Value → Value → E → Result Value * E;
  (* ember-polaris-service setScope(object, scope) *)
  setScope : Value → Value → E → Result Value * E;
  (* the body and the [name] of function number [f] *)
  function_body : nat → Value → list Value → UProg E;
  function_name : nat → string;
  (* reading a property of a host object, and Object.keys of one *)
  host_get : Value → string → E → Result Value * E;
  Object_keys : E → Value → list string;
  (* reading, on an object of the package, a property that the object does
     not have itself: what its prototype chain (Object.prototype, for an
     object literal) gives for that name and that receiver *)
  inherited : Value → string → E → Result Value * E;
  (* @embroider/macros isDevelopingApp() *)
  isDevelopingApp : bool;
}.
Arguments isDestroying {E} h.
Arguments isDestroyed {E} h.
Arguments getOwner {E} h.
Arguments getScope {E} h.
Arguments owner_lookup {E} h.
Arguments lookup {E} h.
Arguments setScope {E} h.
Arguments function_body {E} h.
Arguments function_name {E} h.
Arguments host_get {E} h.
Arguments Object_keys {E} h.
Arguments inherited {E} h.
Arguments isDevelopingApp {E} h.

(** ** The store *)

(** How a [service] rule names what it looks up: the classic builder by the
    service's name, the polaris builder by a factory. *)
Inductive ServiceKey : Type :=
| ByName (serviceName : string)
| ByFactory (factory : Value).

(** The three [get()] closures the builders hand to
    [Object.defineProperty].  Each closure is a fresh function object:
    [GAlias] carries an identity of its own, the two lazy ones are
    identified by the variable ([service], [value]) they close over. *)
Inductive Getter : Type :=
| GAlias (id : nat) (owner : Value)
| GService (cell : nat) (owner : Value) (key : ServiceKey)
| GProperty (cell : nat) (owner : Value) (callback : Value).

Definition getter_id (g : Getter) : nat :=
  match g with
  | GAlias id _ => id
  | GService cell _ _ => cell
  | GProperty cell _ _ => cell
  end.

Inductive PropKind : Type :=
| Accessor (get : Getter)                 (* { get, set: undefined } *)
| Data (value : Value) (writable : bool).

Record Descriptor : Type := {
  p_kind : PropKind;
  p_configurable : bool;
}.

Record Obj : Type := {
  props : gmap string Descriptor;
  extensible : bool;
}.

(** The type [DefineInjectedProperty] of the builders: a closure
    [(owner, injections) => void].  The builders create exactly three
    closures; since arrays of them are stored, they are kept as data and
    applied by [defineProperty] below. *)
Inductive Rule : Type :=
| RuleAlias (name : string)
| RuleService (propertyName : string) (key : ServiceKey)
| RuleProperty (name : string) (callback : Value).

(** The two private weak maps of one [Storage] *)
Record StorageState : Type := {
  injected : gmap Value Value;
  injections : gmap Value Value;
}.

Definition empty_storage : StorageState :=
  {| injected := ∅; injections := ∅ |}.

(** What the evaluator records of its calls into host and user code *)
Inductive Event : Type :=
| EvLookup (owner : Value) (key : ServiceKey)
| EvCall (f : nat) (this : Value) (args : list Value)
| EvSetScope (object scope : Value).

#[global] Instance ServiceKey_eq_dec : EqDecision ServiceKey.
Proof. solve_decision. Defined.
#[global] Instance Event_eq_dec : EqDecision Event.
Proof. solve_decision. Defined.

Record World (E : Type) : Type := {
  ext : E;                               (* the host's own state *)
  heap : gmap nat Obj;                   (* plain objects, [VRef] *)
  cells : gmap nat (option Value);       (* closure variables; None is UNINITIALIZED *)
  bounds : gmap nat (Value * Value);     (* bound functions, [VBound]: target and this *)
  arrays : gmap nat (list Rule);         (* the [properties] arrays of builders *)
  storages : gmap nat StorageState;      (* the [Storage] instances *)
  next : nat;                            (* next free address *)
  trace : list Event;                    (* most recent first *)
}.
Arguments ext {E} w.
Arguments heap {E} w.
Arguments cells {E} w.
Arguments bounds {E} w.
Arguments arrays {E} w.
Arguments storages {E} w.
Arguments next {E} w.
Arguments trace {E} w.

Section Runtime.
Context {E : Type}.

Definition set_ext (e : E) (w : World E) : World E :=
  {| ext := e; heap := heap w; cells := cells w; bounds := bounds w;
     arrays := arrays w; storages := storages w; next := next w; trace := trace w |}.
Definition set_heap (x : gmap nat Obj) (w : World E) : World E :=
  {| ext := ext w; heap := x; cells := cells w; bounds := bounds w;
     arrays := arrays w; storages := storages w; next := next w; trace := trace w |}.
Definition set_cells (x : gmap nat (option Value)) (w : World E) : World E :=
  {| ext := ext w; heap := heap w; cells := x; bounds := bounds w;
     arrays := arrays w; storages := storages w; next := next w; trace := trace w |}.
Definition set_bounds (x : gmap nat (Value * Value)) (w : World E) : World E :=
  {| ext := ext w; heap := heap w; cells := cells w; bounds := x;
     arrays := arrays w; storages := storages w; next := next w; trace := trace w |}.
Definition set_arrays (x : gmap nat (list Rule)) (w : World E) : World E :=
  {| ext := ext w; heap := heap w; cells := cells w; bounds := bounds w;
     arrays := x; storages := storages w; next := next w; trace := trace w |}.
Definition set_storages (x : gmap nat StorageState) (w : World E) : World E :=
  {| ext := ext w; heap := heap w; cells := cells w; bounds := bounds w;
     arrays := arrays w; storages := x; next := next w; trace := trace w |}.
Definition set_next (n : nat) (w : World E) : World E :=
  {| ext := ext w; heap := heap w; cells := cells w; bounds := bounds w;
     arrays := arrays w; storages := storages w; next := n; trace := trace w |}.
Definition set_trace (t : list Event) (w : World E) : World E :=
  {| ext := ext w; heap := heap w; cells := cells w; bounds := bounds w;
     arrays := arrays w; storages := storages w; next := next w; trace := t |}.

(** *** The monad: state, and exceptions that keep the state reached *)

Definition M (A : Type) : Type := World E → Result A * World E.

Definition ret {A} (a : A) : M A := fun w => (Ok a, w).
Definition throw {A} (e : Error) : M A := fun w => (Throw e, w).
Definition bind {A B} (m : M A) (k : A → M B) : M B :=
  fun w => match m w with
           | (Ok a, w') => k a w'
           | (Throw e, w') => (Throw e, w')
           end.

Definition fresh : M nat :=
  fun w => (Ok (next w), set_next (S (next w)) w).
Definition emit (ev : Event) : M unit :=
  fun w => (Ok tt, set_trace (ev :: trace w) w).
(** an action of the host on its own state *)
Definition host {A} (f : E → Result A * E) : M A :=
  fun w => let '(r, e) := f (ext w) in (r, set_ext e w).
(** a read of the host's state *)
Definition ask {A} (f : E → A) : M A :=
  fun w => (Ok (f (ext w)), w).
Definition lift {A} (f : E → Result A) : M A :=
  fun w => (f (ext w), w).
End Runtime.

Declare Scope js_scope.
Delimit Scope js_scope with js.
Notation "'let*' x ':=' m 'in' k" := (bind m (fun x => k))
  (at level 10, x name, m at level 100, k at level 200) : js_scope.
Notation "m '>>' k" := (bind m (fun _ => k))
  (at level 90, right associativity) : js_scope.
Open Scope js_scope.

(** ** The language runtime: objects, weak maps, bound functions *)

Section Primitives.
Context {E : Type}.
Local Abbreviation M := (@M E).

(** [{}] *)
Definition new_object : M nat :=
  let* r := fresh in
  fun w => (Ok r, set_heap (<[r := {| props := ∅; extensible := true |}]> (heap w)) w).

(** [let x = UNINITIALIZED] in a fresh closure environment *)
Definition new_cell : M nat :=
  let* c := fresh in
  fun w => (Ok c, set_cells (<[c := None]> (cells w)) w).

Definition read_cell (c : nat) : M (option Value) :=
  fun w => (Ok (default None (cells w !! c)), w).

Definition write_cell (c : nat) (v : Value) : M unit :=
  fun w => (Ok tt, set_cells (<[c := Some v]> (cells w)) w).

(** [Object.defineProperty(o, name, { get })].  A new property is
    created non-configurable (and non-enumerable), and only on an
    extensible object; a non-configurable property accepts no other
    getter than the one it has. *)
Definition Object_defineProperty (o : nat) (name : string) (get : Getter) : M unit :=
  fun w =>
    match heap w !! o with
    | None => (Throw (TypeError "Object.defineProperty called on non-object"), w)
    | Some obj =>
      match props obj !! name with
      | None =>
        if extensible obj then
          let d := {| p_kind := Accessor get; p_configurable := false |} in
          (Ok tt, set_heap (<[o := {| props := <[name := d]> (props obj);
                                      extensible := true |}]> (heap w)) w)
        else (Throw (TypeError "Cannot define property, object is not extensible"), w)
      | Some d =>
        if p_configurable d then
          let d' := {| p_kind := Accessor get; p_configurable := true |} in
          (Ok tt, set_heap (<[o := {| props := <[name := d']> (props obj);
                                      extensible := extensible obj |}]> (heap w)) w)
        else
          match p_kind d with
          | Accessor get' =>
            if decide (getter_id get = getter_id get') then (Ok tt, w)
            else (Throw (TypeError "Cannot redefine property"), w)
          | Data _ _ => (Throw (TypeError "Cannot redefine property"), w)
          end
      end
    end.

Definition freeze_descriptor (d : Descriptor) : Descriptor :=
  {| p_kind := match p_kind d with
               | Accessor g => Accessor g
               | Data v _ => Data v false
               end;
     p_configurable := false |}.

(** [Object.freeze(o)] *)
Definition Object_freeze (o : nat) : M unit :=
  fun w =>
    match heap w !! o with
    | None => (Ok tt, w)
    | Some obj =>
      (Ok tt, set_heap (<[o := {| props := freeze_descriptor <$> props obj;
                                  extensible := false |}]> (heap w)) w)
    end.

(** A failed write throws in strict code and is ignored in sloppy code *)
Definition reject (strict : bool) (msg : string) : M unit :=
  if strict then throw (TypeError msg) else ret tt.

(** [o[name] = v] on a plain object of the store (no property of the
    builders has a setter, and [Object.prototype] is left out) *)
Definition set_property (strict : bool) (o : nat) (name : string) (v : Value) : M unit :=
  fun w =>
    match heap w !! o with
    | None => reject strict "Cannot set properties of a missing object" w
    | Some obj =>
      match props obj !! name with
      | None =>
        if extensible obj then
          let d := {| p_kind := Data v true; p_configurable := true |} in
          (Ok tt, set_heap (<[o := {| props := <[name := d]> (props obj);
                                      extensible := true |}]> (heap w)) w)
        else reject strict "Cannot add property, object is not extensible" w
      | Some d =>
        match p_kind d with
        | Accessor _ => reject strict "Cannot set property which has only a getter" w
        | Data _ true =>
          let d' := {| p_kind := Data v true; p_configurable := p_configurable d |} in
          (Ok tt, set_heap (<[o := {| props := <[name := d']> (props obj);
                                      extensible := extensible obj |}]> (heap w)) w)
        | Data _ false => reject strict "Cannot assign to read only property" w
        end
      end
    end.

(** [delete o[name]] *)
Definition delete_property (strict : bool) (o : nat) (name : string) : M unit :=
  fun w =>
    match heap w !! o with
    | None => (Ok tt, w)
    | Some obj =>
      match props obj !! name with
      | None => (Ok tt, w)
      | Some d =>
        if p_configurable d then
          (Ok tt, set_heap (<[o := {| props := delete name (props obj);
                                      extensible := extensible obj |}]> (heap w)) w)
        else reject strict "Cannot delete property" w
      end
    end.

(** [typeof f === 'function'] *)
Definition is_callable (f : Value) : bool :=
  match f with
  | VFun _ | VBound _ => true
  | _ => false
  end.

(** [fn.bind(thisArg)]: a new function object every time *)
Definition Function_bind (fn thisArg : Value) : M Value :=
  if is_callable fn then
    let* r := fresh in
    fun w => (Ok (VBound r), set_bounds (<[r := (fn, thisArg)]> (bounds w)) w)
  else throw (TypeError "Bind must be called on a function").

(** [new WeakMap()] twice, for the two private fields of a [Storage] *)
Definition new_storage : M nat :=
  let* s := fresh in
  fun w => (Ok s, set_storages (<[s := empty_storage]> (storages w)) w).

Definition storage_of (w : World E) (s : nat) : StorageState :=
  default empty_storage (storages w !! s).

(** [map.get(key)]; a key that is no object is never found *)
Definition WeakMap_get (field : StorageState → gmap Value Value) (s : nat) (key : Value)
  : M Value :=
  fun w =>
    if is_reference key then (Ok (default VUndefined (field (storage_of w s) !! key)), w)
    else (Ok VUndefined, w).

(** [map.set(key, value)]; a key that is no object is a TypeError *)
Definition injected_set (s : nat) (key value : Value) : M unit :=
  fun w =>
    if is_reference key then
      let st := storage_of w s in
      (Ok tt, set_storages (<[s := {| injected := <[key := value]> (injected st);
                                      injections := injections st |}]> (storages w)) w)
    else (Throw (TypeError "Invalid value used as weak map key"), w).

Definition injections_set (s : nat) (key value : Value) : M unit :=
  fun w =>
    if is_reference key then
      let st := storage_of w s in
      (Ok tt, set_storages (<[s := {| injected := injected st;
                                      injections := <[key := value]> (injections st) |}]>
                              (storages w)) w)
    else (Throw (TypeError "Invalid value used as weak map key"), w).

(** [assert(message, condition)] of @ember/debug.  A development build
    evaluates it; from a production build the call is removed, and nothing
    is checked there.  A build is one or the other: the builds in which
    [isDevelopingApp()] is true are the builds that keep the assertions. *)
Definition assert (h : Host E) (message : string) (condition : bool) : M unit :=
  if isDevelopingApp h then
    if condition then ret tt else throw (AssertionError message)
  else ret tt.
End Primitives.

(** ** The evaluator: property reads and calls

    Reading a property of a bag runs the getter a rule has installed, which
    may call a callback of the user, which may in turn read properties:
    [fuel] bounds the depth of this nesting, and a computation that needs
    more ends in [OutOfFuel]. *)

Section Evaluator.
Context {E : Type} (h : Host E).
Local Abbreviation M := (@M E).

Fixpoint run (get : Value → string → M Value) (p : UProg E) : M Value :=
  match p with
  | URet v => ret v
  | UThrow v => throw (Thrown v)
  | UGet obj name k => let* v := get obj name in run get (k v)
  | UHost f k => let* v := host f in run get (k v)
  end.

(** The body the two caching getters share:
    [if (x === UNINITIALIZED) { x = compute(); } return x;] *)
Definition cached (cell : nat) (compute : M Value) : M Value :=
  let* x := read_cell cell in
  match x with
  | None => let* v := compute in write_cell cell v >> ret v
  | Some v => ret v
  end.

(** classic: [owner.lookup(`service:${serviceName}`)];
    polaris: [lookup(scope, factory)] *)
Definition resolve (owner : Value) (key : ServiceKey) : M Value :=
  match key with
  | ByName serviceName =>
    match owner with
    | VUndefined | VNull =>
      throw (TypeError "Cannot read properties of undefined (reading 'lookup')")
    | _ => emit (EvLookup owner key) >>
           host (owner_lookup h owner ("service:" ++ serviceName))
    end
  | ByFactory factory =>
    emit (EvLookup owner key) >> host (lookup h owner factory)
  end.

Fixpoint call (fuel : nat) (f this : Value) (args : list Value) {struct fuel} : M Value :=
  match fuel with
  | 0 => throw OutOfFuel
  | S fuel' =>
    match f with
    | VFun id =>
      emit (EvCall id this args) >>
      run (get_property fuel') (function_body h id this args)
    | VBound r =>
      fun w => match bounds w !! r with
               | Some (target, boundThis) => call fuel' target boundThis args w
               | None => (Throw (TypeError "not a function"), w)
               end
    | _ => throw (TypeError "not a function")
    end
  end
with get_property (fuel : nat) (obj : Value) (name : string) {struct fuel} : M Value :=
  match fuel with
  | 0 => throw OutOfFuel
  | S fuel' =>
    match obj with
    | VUndefined | VNull => throw (TypeError "Cannot read properties of undefined")
    | VRef r =>
      fun w =>
        match heap w !! r with
        | None => (Ok VUndefined, w)
        | Some o =>
          match props o !! name with
          | None =>
            (* no own property: the read goes on in the prototype chain *)
            host (inherited h obj name) w
          | Some d =>
            match p_kind d with
            | Data v _ => (Ok v, w)
            | Accessor (GAlias _ owner) =>
              (* get() { return owner; } *)
              (Ok owner, w)
            | Accessor (GService cell owner key) =>
              (* get() { if (service === UNINITIALIZED) {
                           service = owner.lookup(...); }
                         return service; } *)
              cached cell (resolve owner key) w
            | Accessor (GProperty cell owner callback) =>
              (* get() { if (value === UNINITIALIZED) {
                           value = callback.call(this, owner); }
                         return value; } *)
              cached cell (call fuel' callback obj [owner]) w
            end
          end
        end
    | _ => host (host_get h obj name)
    end
  end.
End Evaluator.

(** ** Function objects of the package

    A function the package itself creates ([makeConstructor]) is kept as a
    record: its code, parameterised by [new.target], the receiver and the
    arguments, and the properties and associations the package attaches to
    it afterwards. *)

Record HelperCapabilities : Type := {
  hasValue : bool;
  hasDestroyable : bool;
}.

(** [class InstantiableHelperManager] of manager.ts: its two fields *)
Record InstantiableHelperManager : Type := {
  capabilities : HelperCapabilities;
  owner : Value;
}.

(** [class Storage] of injection.ts: the private fields.  The two weak maps
    are in the store, at address [maps]. *)
Record Storage (E : Type) : Type := {
  _getInjections : Value → M (E := E) Value;
  _getInjected : Value → M (E := E) Value;
  _name : string;
  maps : nat;
}.
Arguments _getInjections {E} s.
Arguments _getInjected {E} s.
Arguments _name {E} s.
Arguments maps {E} s.

Record FunctionObject (E : Type) : Type := {
  fn_name : string;
  fn_code : bool → Value → list Value → M (E := E) Value;
  INJECTABLE : Value;                     (* fn[INJECTABLE] *)
  STORAGE : option (Storage E);           (* STORAGE.get(fn) *)
  helperManager : option (Value → InstantiableHelperManager);
}.
Arguments fn_name {E} f.
Arguments fn_code {E} f.
Arguments INJECTABLE {E} f.
Arguments STORAGE {E} f.
Arguments helperManager {E} f.

Section Functions.
Context {E : Type}.
Local Abbreviation M := (@M E).

(** [fn.call(this, ...args)] *)
Definition apply (fn : FunctionObject E) (this : Value) (args : list Value) : M Value :=
  fn_code fn false this args.

(** [new fn(...args)]: the receiver is a new object, and it is the result
    unless the code returns an object of its own *)
Definition construct (fn : FunctionObject E) (args : list Value) : M Value :=
  let* this := new_object in
  let* result := fn_code fn true (VRef this) args in
  ret (if is_reference result then result else VRef this).
End Functions.

(** ** injection.ts *)

Module Injection.
Section Injection.
Context {E : Type} (h : Host E).
Variable fuel : nat.
Local Abbreviation M := (@M E).

Definition isInjectable (fn : FunctionObject E) : bool :=
  bool_decide (INJECTABLE fn = VBool true).

Definition GetInjections : Type := Value → M Value.
Definition GetInjected : Type := Value → M Value.
Definition GetOwner : Type := E → Value → Result Value.

(** [new Storage(getInjections, getInjected, name = '(unknown function)')] *)
Definition new_Storage (getInjections : GetInjections) (getInjected : GetInjected)
    (name : option string) : M (Storage E) :=
  let* maps := new_storage in
  ret {| _getInjections := getInjections;
         _getInjected := getInjected;
         _name := default "(unknown function)" name;
         maps := maps |}.

Definition getInjections (this : Storage E) (owner : Value) : M Value :=
  let* destroying := ask (fun e => isDestroying h e owner) in
  assert h ("cannot call " ++ _name this ++ " while the owner is being destroyed")
         (negb destroying) >>
  let* destroyed := ask (fun e => isDestroyed h e owner) in
  assert h ("cannot call " ++ _name this ++ " after the owner has already been destroyed")
         (negb destroyed) >>
  let* injections := WeakMap_get injections (maps this) owner in
  if negb (truthy injections) then
    let* injections := _getInjections this owner in
    injections_set (maps this) owner injections >>
    ret injections
  else ret injections.

Definition getInjected (this : Storage E) (owner : Value) : M Value :=
  let* destroying := ask (fun e => isDestroying h e owner) in
  assert h ("cannot call " ++ _name this ++ " while the owner is being destroyed")
         (negb destroying) >>
  let* destroyed := ask (fun e => isDestroyed h e owner) in
  assert h ("cannot call " ++ _name this ++ " after the owner has already been destroyed")
         (negb destroyed) >>
  let* injected := WeakMap_get injected (maps this) owner in
  if negb (truthy injected) then
    let* injections := getInjections this owner in
    let* injected := _getInjected this injections in
    injected_set (maps this) owner injected >>
    ret injected
  else ret injected.

(** [if (name)] on an optional string *)
Definition name_given (name : option string) : bool :=
  match name with
  | Some s => negb (String.eqb s "")
  | None => false
  end.

(** [args[0]] *)
Definition first (args : list Value) : Value := default VUndefined (args !! 0).

Definition makeConstructor (storage : Storage E) (getOwner : GetOwner)
    (name : option string) : FunctionObject E :=
  if isDevelopingApp h && name_given name then
    let name := default "" name in
    {| fn_name := name;
       fn_code := fun new_target this args =>
         if new_target then getInjected storage (first args)
         else
           assert h ("cannot call " ++ name ++ " without a context object; it must be called with a `this` object with an owner")
                  (is_object this) >>
           let* owner := lift (fun e => getOwner e this) in
           assert h ("cannot call " ++ name ++ " with an invalid context object; it must be called with a `this` object with an owner")
                  (truthy owner) >>
           let* injected := getInjected storage owner in
           call h fuel injected VUndefined args;
       INJECTABLE := VUndefined;
       STORAGE := None;
       helperManager := None |}
  else
    {| fn_name := "";
       fn_code := fun new_target this args =>
         if new_target then getInjected storage (first args)
         else
           let* owner := lift (fun e => getOwner e this) in
           let* injected := getInjected storage owner in
           call h fuel injected VUndefined args;
       INJECTABLE := VUndefined;
       STORAGE := None;
       helperManager := None |}.

Definition constructorFor (getInjections : GetInjections) (getInjected : GetInjected)
    (getOwner : GetOwner) (name : option string) : M (FunctionObject E) :=
  let* storage := new_Storage getInjections getInjected None in
  let constructor := makeConstructor storage getOwner name in
  (* STORAGE.set(constructor, storage); constructor[INJECTABLE] = true *)
  ret {| fn_name := fn_name constructor;
         fn_code := fn_code constructor;
         INJECTABLE := VBool true;
         STORAGE := Some storage;
         helperManager := helperManager constructor |}.
End Injection.
End Injection.

(** ** manager.ts *)

Module Manager.
(** [Arguments] of @ember/helper; [named] is an object of the host *)
Record Arguments : Type := {
  positional : list Value;
  named : Value;
}.

Record State : Type := {
  fn : Value;
  args : Arguments;
}.

Section Manager.
Context {E : Type} (h : Host E).
Variable fuel : nat.
Local Abbreviation M := (@M E).

(** [capabilities('3.23', { hasValue: true })] *)
Definition new_InstantiableHelperManager (owner : Value) : InstantiableHelperManager :=
  {| capabilities := {| hasValue := true; hasDestroyable := false |};
     owner := owner |}.

Definition createHelper (this : InstantiableHelperManager)
    (constructor : FunctionObject E) (args : Arguments) : M State :=
  assert h "must be an injectable constructor" (Injection.isInjectable constructor) >>
  let* fn := construct constructor [owner this] in
  ret {| fn := fn; args := args |}.

Definition getValue (state : State) : M Value :=
  let* keys := ask (fun e => Object_keys h e (named (args state))) in
  if (0 <? length keys)%nat then
    call h fuel (fn state) VUndefined (positional (args state) ++ [named (args state)])
  else
    call h fuel (fn state) VUndefined (positional (args state)).

Definition getDebugName (fn : FunctionObject E) : string := fn_name fn.

Definition factory (owner : Value) : InstantiableHelperManager :=
  new_InstantiableHelperManager owner.

(** [setHelperManager(factory, object)] of @ember/helper: associates the
    factory with the object and returns the object *)
Definition setHelperManager (factory : Value → InstantiableHelperManager)
    (object : FunctionObject E) : FunctionObject E :=
  {| fn_name := fn_name object;
     fn_code := fn_code object;
     INJECTABLE := INJECTABLE object;
     STORAGE := STORAGE object;
     helperManager := Some factory |}.

Definition helperFor (fn : FunctionObject E) : M (FunctionObject E) :=
  assert h "must be an injectable constructor" (Injection.isInjectable fn) >>
  ret (setHelperManager factory fn).
End Manager.
End Manager.

(** ** The two builders *)

Section Arrays.
Context {E : Type}.
Local Abbreviation M := (@M E).

(** an array literal *)
Definition new_array (items : list Rule) : M nat :=
  let* a := fresh in
  fun w => (Ok a, set_arrays (<[a := items]> (arrays w)) w).

(** the items of an array, as [...array] and [for (... of array)] read them *)
Definition read_array (a : nat) : M (list Rule) :=
  fun w => match arrays w !! a with
           | Some items => (Ok items, w)
           | None => (Throw (TypeError "object is not iterable"), w)
           end.

(** [for (const x of items) body(x)] *)
Fixpoint for_of (items : list Rule) (body : Rule → M unit) : M unit :=
  match items with
  | [] => ret tt
  | x :: rest => body x >> for_of rest body
  end.

(** Calling a rule, one of the three closures
    [(owner, injections) => { ... Object.defineProperty(injections, ...) }]
    of the builders. *)
Definition defineProperty (rule : Rule) (owner : Value) (injections : nat) : M unit :=
  match rule with
  | RuleAlias name =>
    let* get := fresh in
    Object_defineProperty injections name (GAlias get owner)
  | RuleService propertyName key =>
    let* service := new_cell in
    Object_defineProperty injections propertyName (GService service owner key)
  | RuleProperty name callback =>
    let* value := new_cell in
    Object_defineProperty injections name (GProperty value owner callback)
  end.
End Arrays.

Section Names.
Context {E : Type} (h : Host E).
(** [fn.name] *)
Definition name_of (w : World E) (fn : Value) : option string :=
  match fn with
  | VFun f => Some (function_name h f)
  | VBound r =>
    match bounds w !! r with
    | Some (VFun f, _) => Some ("bound " ++ function_name h f)
    | _ => Some "bound "
    end
  | _ => None
  end.

(** a value as the [name] parameter of [constructorFor], which is typed as
    an optional string *)
Definition to_name (v : Value) : option string :=
  match v with
  | VStr s => Some s
  | _ => None
  end.

(** [fn.name], as [into] and [build] evaluate it on their argument: a
    TypeError on undefined and null, the name of a function, nothing on
    another primitive, and a property read on an object *)
Definition get_name (fuel : nat) (fn : Value) : M (E := E) (option string) :=
  match fn with
  | VUndefined | VNull =>
    throw (TypeError "Cannot read properties of undefined (reading 'name')")
  | VFun _ | VBound _ => fun w => (Ok (name_of w fn), w)
  | VBool _ | VNum _ | VStr _ => ret None
  | VObj _ | VRef _ => let* v := get_property h fuel fn "name" in ret (to_name v)
  end.
End Names.

(** *** builder.ts *)

Module Builder.
Record Builder : Type := { properties : nat }.

Section Builder.
Context {E : Type} (h : Host E).
Variable fuel : nat.
Local Abbreviation M := (@M E).

(** [new Builder(properties = [])] *)
Definition new_Builder (properties : option nat) : M Builder :=
  match properties with
  | Some a => ret {| properties := a |}
  | None => let* a := new_array [] in ret {| properties := a |}
  end.

(** the builder returned by each of the three chaining methods:
    [new Builder([...this.properties, rule])] *)
Definition extend (this : Builder) (rule : Rule) : M Builder :=
  let* items := read_array (properties this) in
  let* a := new_array (items ++ [rule]) in
  new_Builder (Some a).

Definition owner (this : Builder) : M Builder :=
  extend this (RuleAlias "owner").

(** [service(propertyName, serviceName = propertyName)] *)
Definition service (this : Builder) (propertyName : string) (serviceName : option string)
  : M Builder :=
  extend this (RuleService propertyName (ByName (default propertyName serviceName))).

Definition property (this : Builder) (name : string) (callback : Value) : M Builder :=
  extend this (RuleProperty name callback).

Definition getInjections (this : Builder) : Injection.GetInjections (E := E) :=
  let properties := properties this in
  fun owner =>
    let* injections := new_object in
    let* rules := read_array properties in
    for_of rules (fun defineProperty' => defineProperty defineProperty' owner injections) >>
    Object_freeze injections >>
    ret (VRef injections).

Definition into (this : Builder) (fn : Value) : M (FunctionObject E) :=
  let getInjections := getInjections this in
  let getInjected := fun injections => Function_bind fn injections in
  let* name := get_name h fuel fn in
  let* constructor := Injection.constructorFor h fuel getInjections getInjected (getOwner h) name in
  Manager.helperFor h constructor.

(** The storage calls the callback as one of its methods; a function of
    the user can do nothing with the storage in this model (see [UProg]),
    and its receiver is left undefined here. *)
Definition build (this : Builder) (getInjected : Value) : M (FunctionObject E) :=
  let getInjections := getInjections this in
  let* name := get_name h fuel getInjected in
  let* constructor :=
    Injection.constructorFor h fuel getInjections
      (fun injections => call h fuel getInjected VUndefined [injections])
      (getOwner h) name in
  Manager.helperFor h constructor.
End Builder.
End Builder.

(** *** polaris-experimental.ts *)

Module Polaris.
Record Builder : Type := { properties : nat }.

Section Polaris.
Context {E : Type} (h : Host E).
Variable fuel : nat.
Local Abbreviation M := (@M E).

Definition new_Builder (properties : option nat) : M Builder :=
  match properties with
  | Some a => ret {| properties := a |}
  | None => let* a := new_array [] in ret {| properties := a |}
  end.

Definition extend (this : Builder) (rule : Rule) : M Builder :=
  let* items := read_array (properties this) in
  let* a := new_array (items ++ [rule]) in
  new_Builder (Some a).

Definition scope (this : Builder) : M Builder :=
  extend this (RuleAlias "scope").

Definition service (this : Builder) (name : string) (factory : Value) : M Builder :=
  extend this (RuleService name (ByFactory factory)).

Definition property (this : Builder) (name : string) (callback : Value) : M Builder :=
  extend this (RuleProperty name callback).

Definition getInjections (this : Builder) : Injection.GetInjections (E := E) :=
  let properties := properties this in
  fun scope =>
    let* injections := new_object in
    let* rules := read_array properties in
    for_of rules (fun defineProperty' => defineProperty defineProperty' scope injections) >>
    emit (EvSetScope (VRef injections) scope) >>
    host (setScope h (VRef injections) scope) >>
    Object_freeze injections >>
    ret (VRef injections).

Definition into (this : Builder) (fn : Value) : M (FunctionObject E) :=
  let getInjections := getInjections this in
  let getInjected := fun injections => Function_bind fn injections in
  let* name := get_name h fuel fn in
  let* constructor := Injection.constructorFor h fuel getInjections getInjected (getScope h) name in
  Manager.helperFor h constructor.

(** As in the classic builder, the receiver of the callback is left
    undefined. *)
Definition build (this : Builder) (getInjected : Value) : M (FunctionObject E) :=
  let getInjections := getInjections this in
  let* name := get_name h fuel getInjected in
  let* constructor :=
    Injection.constructorFor h fuel getInjections
      (fun injections => call h fuel getInjected VUndefined [injections])
      (getScope h) name in
  Manager.helperFor h constructor.
End Polaris.
End Polaris.

(** ** Initial state *)

Definition init_world {E : Type} (e : E) : World E :=
  {| ext := e; heap := ∅; cells := ∅; bounds := ∅; arrays := ∅; storages := ∅;
     next := 0; trace := [] |}.

(** [export default new Builder()], in both builder modules *)
Definition default_Builder {E : Type} : M (E := E) Builder.Builder :=
  Builder.new_Builder None.
Definition default_Polaris_Builder {E : Type} : M (E := E) Polaris.Builder :=
  Polaris.new_Builder None.

(** ** A concrete host

    The state of this host is the list of the owners it has destroyed.
    Owner 0 has a service [config], an object whose [value] is 10; looking
    up [broken] throws.  Object 7 and function 9 are owned by owner 0. *)

Open Scope string_scope.

Definition plus (a b : Value) : Value :=
  match a, b with
  | VNum x, VNum y => VNum (x + y)
  | _, _ => VUndefined
  end.

Definition demo_body (f : nat) (this : Value) (args : list Value) : UProg (list Value) :=
  match f with
  | 0 => (* o => o.lookupX() *)
    URet (VNum 5)
  | 1 => (* function f(a) { return this.config.value + this.computedX + a; } *)
    UGet this "config" (fun config =>
    UGet config "value" (fun value =>
    UGet this "computedX" (fun computedX =>
    URet (plus (plus value computedX) (default VUndefined (args !! 0))))))
  | 2 => (* () => { throw 'boom'; } *)
    UThrow (VStr "boom")
  | 3 => (* (injections) => g, with g the function number 4 *)
    URet (VFun 4)
  | 4 => (* function id(a) { return a; } *)
    URet (default VUndefined (args !! 0))
  | _ => URet VUndefined
  end.

Definition demo (dev : bool) : Host (list Value) :=
  {| isDestroying := fun _ _ => false;
     isDestroyed := fun e o => bool_decide (o ∈ e);
     getOwner := fun _ v =>
       match v with
       | VObj 7 | VFun 9 => Ok (VObj 0)
       | _ => Ok VUndefined
       end;
     getScope := fun _ v =>
       match v with
       | VObj 7 | VFun 9 => Ok (VObj 0)
       | _ => Ok VUndefined
       end;
     owner_lookup := fun o n e =>
       if String.eqb n "service:config" then (Ok (VObj 1), e)
       else if String.eqb n "service:broken" then (Throw (Thrown (VStr "no such service")), e)
       else (Ok VUndefined, e);
     lookup := fun _ factory e => (Ok factory, e);
     setScope := fun _ _ e => (Ok VUndefined, e);
     function_body := demo_body;
     function_name := fun f => match f with 1 => "f" | 4 => "id" | _ => "" end;
     host_get := fun o n e =>
       match o with
       | VObj 1 => (Ok (VNum 10), e)
       | _ => (Ok VUndefined, e)
       end;
     Object_keys := fun _ o => match o with VObj 21 => ["opt"] | _ => [] end;
     inherited := fun _ n e =>
       if String.eqb n "toString" then (Ok (VFun 8), e) else (Ok VUndefined, e);
     isDevelopingApp := dev |}.

(** The same host, where the owners in its state are being destroyed
    and no owner is destroyed yet *)
Definition demo_destroying : Host (list Value) :=
  {| isDestroying := fun e o => bool_decide (o ∈ e);
     isDestroyed := fun _ _ => false;
     getOwner := getOwner (demo true);
     getScope := getScope (demo true);
     owner_lookup := owner_lookup (demo true);
     lookup := lookup (demo true);
     setScope := setScope (demo true);
     function_body := demo_body;
     function_name := function_name (demo true);
     host_get := host_get (demo true);
     Object_keys := Object_keys (demo true);
     inherited := inherited (demo true);
     isDevelopingApp := true |}.

(** A host with one function of the user, which reads the property it
    computes the first time it is called:
    [let seen = false;
     function again() { if (!seen) { seen = true; return this.again; }
                        return 1; }]
    The state of this host is the variable [seen]. *)
Definition again_body (this : Value) : UProg bool :=
  UHost (fun seen => (Ok (VBool seen), true))
        (fun seen => match seen with
                     | VBool false => UGet this "again" (fun v => URet v)
                     | _ => URet (VNum 1)
                     end).

Definition reentrant : Host bool :=
  {| isDestroying := fun _ _ => false;
     isDestroyed := fun _ _ => false;
     getOwner := fun _ _ => Ok VUndefined;
     getScope := fun _ _ => Ok VUndefined;
     owner_lookup := fun _ _ e => (Ok VUndefined, e);
     lookup := fun _ _ e => (Ok VUndefined, e);
     setScope := fun _ _ e => (Ok VUndefined, e);
     function_body := fun _ this _ => again_body this;
     function_name := fun _ => "again";
     host_get := fun _ _ e => (Ok VUndefined, e);
     Object_keys := fun _ _ => [];
     inherited := fun _ _ e => (Ok VUndefined, e);
     isDevelopingApp := true |}.

(** The world in which the array of the default builder holds [rules] *)
Definition listed (rules : list Rule) : World (list Value) :=
  set_arrays {[ 0 := rules ]} (set_next 1 (init_world [])).

(** The world once both builder modules are loaded:
    [export default new Builder()] has run, the array of the default
    builder is at address 0. *)
Definition loaded : World (list Value) :=
  set_arrays {[ 0 := [] ]} (set_next 1 (init_world [])).

(** The scenario of the specification, on this host: build, instantiate
    for owner 0, call with 3 and then with 4 *)
Definition scenario : M (E := list Value) (Value * Value) :=
  let* b := default_Builder in
  let* b := Builder.service b "config" None in
  let* b := Builder.property b "computedX" (VFun 0) in
  let* c := Builder.into (demo true) 5 b (VFun 1) in
  let* g := construct c [VObj 0] in
  let* x := call (demo true) 5 g VUndefined [VNum 3] in
  let* y := call (demo true) 5 g VUndefined [VNum 4] in
  ret (x, y).

Close Scope string_scope.

(** ** Notions used in the statements *)

Section Notions.
Context {E : Type}.
Local Abbreviation M := (@M E).

(** A computation keeps a relation between the world it starts in and the
    world it ends in, whether it returns or throws. *)
Definition preserves {A} (R : relation (World E)) (m : M A) : Prop :=
  ∀ w r w', m w = (r, w') → R w w'.

(** What the evaluator leaves alone: property reads and calls act on the
    host's state, on closure variables and on the trace; they allocate
    nothing and touch no object, bound function, array or storage. *)
Definition same_store (w w' : World E) : Prop :=
  heap w' = heap w ∧ bounds w' = bounds w ∧ arrays w' = arrays w ∧
  storages w' = storages w ∧ next w' = next w.

Definition extends (w w' : World E) : Prop :=
  same_store w w' ∧ ∃ t, trace w' = t ++ trace w.

(** The calls into host or user code that the claims count: service
    lookups and function calls *)
Definition is_invocation (ev : Event) : bool :=
  match ev with
  | EvLookup _ _ | EvCall _ _ _ => true
  | EvSetScope _ _ => false
  end.

Definition invocations (w : World E) : list Event :=
  filter (λ ev, is_invocation ev = true) (trace w).

(** What building a bag leaves alone: it allocates an object and closure
    variables, and calls nothing but (in the polaris builder) setScope. *)
Definition builds (w w' : World E) : Prop :=
  bounds w' = bounds w ∧ arrays w' = arrays w ∧ storages w' = storages w ∧
  invocations w' = invocations w.

(** What a finalize strategy leaves alone *)
Definition finalizes (w w' : World E) : Prop :=
  heap w' = heap w ∧ arrays w' = arrays w ∧ storages w' = storages w.
(** Every array is below the next free address *)
Definition allocated (w : World E) : Prop :=
  ∀ a, is_Some (arrays w !! a) → a < next w.

(** Between [w] and [w'] a new array [a'] was made, holding the rules of
    array [a] followed by [rule]; every array of [w], [a] included, is in
    [w'] what it was. *)
Definition appends (a : nat) (rule : Rule) (w : World E) (a' : nat) (w' : World E)
  : Prop :=
  ∃ rules,
    arrays w !! a = Some rules ∧
    arrays w' !! a' = Some (rules ++ [rule]) ∧
    arrays w !! a' = None ∧
    (∀ x, x ≠ a' → arrays w' !! x = arrays w !! x) ∧
    allocated w'.

(** The object at [r] has a property [name] with getter [get] *)
Definition has_getter (w : World E) (r : nat) (name : string) (get : Getter) : Prop :=
  ∃ o d, heap w !! r = Some o ∧ props o !! name = Some d ∧ p_kind d = Accessor get.

(** The closure variable of a caching getter *)
Definition lazy_cell (get : Getter) : option nat :=
  match get with
  | GAlias _ _ => None
  | GService cell _ _ | GProperty cell _ _ => Some cell
  end.

(** The variable [cell] is still UNINITIALIZED; it holds the value [v] *)
Definition unresolved (w : World E) (cell : nat) : Prop :=
  default None (cells w !! cell) = None.
Definition resolved (w : World E) (cell : nat) (v : Value) : Prop :=
  cells w !! cell = Some (Some v).

(** Every caching getter of the object at [r] is unresolved *)
Definition untouched (w : World E) (r : nat) : Prop :=
  ∀ name get cell,
    has_getter w r name get → lazy_cell get = Some cell → unresolved w cell.

(** The object at [r] is frozen: not extensible, no property configurable,
    no data property writable *)
Definition frozen (w : World E) (r : nat) : Prop :=
  ∃ o, heap w !! r = Some o ∧ extensible o = false ∧
       ∀ name d, props o !! name = Some d →
                 p_configurable d = false ∧ ∀ v, p_kind d ≠ Data v true.

(** Every attempt to write to the object at [r] fails and leaves the world
    as it is: an assignment throws in strict code and is ignored in sloppy
    code, a deletion too (unless there is nothing to delete), and a
    definition throws (unless it defines the getter that is there). *)
Definition rejects_writes (w : World E) (r : nat) : Prop :=
  (∀ name v, ∃ msg, set_property true r name v w = (Throw (TypeError msg), w)) ∧
  (∀ name v, set_property false r name v w = (Ok (), w)) ∧
  (∀ name get, Object_defineProperty r name get w = (Ok (), w) ∨
               ∃ msg, Object_defineProperty r name get w = (Throw (TypeError msg), w)) ∧
  (∀ strict name, delete_property strict r name w = (Ok (), w) ∨
                  ∃ msg, delete_property strict r name w = (Throw (TypeError msg), w)).

(** The object at [r] stays in the store *)
Definition keeps_object (r : nat) (w w' : World E) : Prop :=
  is_Some (heap w !! r) → is_Some (heap w' !! r).

(** The name of the property a rule defines *)
Definition rule_name (rule : Rule) : string :=
  match rule with
  | RuleAlias name => name
  | RuleService propertyName _ => propertyName
  | RuleProperty name _ => name
  end.

(** The getter a rule installs for an owner: the closure [get()] of the
    rule, [id] being its identity (the address of its variable, for the two
    caching ones) *)
Definition getter_of (rule : Rule) (owner : Value) (id : nat) : Getter :=
  match rule with
  | RuleAlias _ => GAlias id owner
  | RuleService _ key => GService id owner key
  | RuleProperty _ callback => GProperty id owner callback
  end.

(** The object at [r] is a bag under construction: extensible, its
    properties are those of [names], all of them non-configurable getters
    made before now *)
Definition building (w : World E) (r : nat) (names : list string) : Prop :=
  ∃ o, heap w !! r = Some o ∧ extensible o = true ∧
       (∀ n, n ∈ names ↔ is_Some (props o !! n)) ∧
       ∀ n d, props o !! n = Some d →
              p_configurable d = false ∧
              ∃ get, p_kind d = Accessor get ∧ getter_id get < next w.

(** The object at [r] has no property [name] *)
Definition lacks (w : World E) (r : nat) (name : string) : Prop :=
  ∃ o, heap w !! r = Some o ∧ props o !! name = None.

(** What a rule does before it defines its property: it allocates the
    identity of its getter, and its variable if it caches *)
Definition alloc (rule : Rule) (w : World E) : World E :=
  match rule with
  | RuleAlias _ => set_next (S (next w)) w
  | _ => set_cells (<[next w := None]> (cells w)) (set_next (S (next w)) w)
  end.

(** The world in which the rules of a bag run: the bag is new and empty *)
Definition with_bag (w : World E) : World E :=
  set_heap (<[next w := {| props := ∅; extensible := true |}]> (heap w))
           (set_next (S (next w)) w).

(** The bag of an owner under a list of rules, as the classic builder's
    [getInjections] closure builds it *)
Definition build_bag (rules : list Rule) (owner : Value) : M Value :=
  let* injections := new_object in
  for_of rules (fun rule => defineProperty rule owner injections) >>
  Object_freeze injections >>
  ret (VRef injections).

End Notions.

Section HostNotions.
Context {E : Type} (h : Host E).
Variable fuel : nat.

(** The owner is neither being destroyed nor destroyed *)
Definition alive (w : World E) (owner : Value) : Prop :=
  isDestroying h (ext w) owner = false ∧ isDestroyed h (ext w) owner = false.

(** The two guards of a storage let the owner through: the build has no
    assertions, or the owner is alive *)
Definition passes (w : World E) (owner : Value) : Prop :=
  isDevelopingApp h = true → alive w owner.

(** The storage and the constructor that [constructorFor] creates in a
    world [w]: the two weak maps are allocated at the next free address. *)
Definition storage_for (getInjections getInjected : Value → M (E := E) Value)
    (w : World E) : Storage E :=
  {| _getInjections := getInjections;
     _getInjected := getInjected;
     _name := "(unknown function)";
     maps := next w |}.

Definition constructor_for (storage : Storage E) (getOwner : Injection.GetOwner)
    (name : option string) : FunctionObject E :=
  {| fn_name := fn_name (Injection.makeConstructor h fuel storage getOwner name);
     fn_code := fn_code (Injection.makeConstructor h fuel storage getOwner name);
     INJECTABLE := VBool true;
     STORAGE := Some storage;
     helperManager := helperManager (Injection.makeConstructor h fuel storage getOwner name) |}.

Definition with_storage (s : nat) (w : World E) : World E :=
  set_storages (<[s := empty_storage]> (storages w)) (set_next (S (next w)) w).

(** The callbacks the builders give to [constructorFor] *)
Definition builder_injections (getInjections : Value → M (E := E) Value) : Prop :=
  ∃ a, getInjections = Builder.getInjections {| Builder.properties := a |} ∨
       getInjections = Polaris.getInjections h {| Polaris.properties := a |}.

Definition builder_injected (getInjected : Value → M (E := E) Value) : Prop :=
  ∃ fn, getInjected = (λ injections, Function_bind fn injections) ∨
        getInjected = (λ injections, call h fuel fn VUndefined [injections]).

(** The same for the polaris builder *)
Definition polaris_build_bag (rules : list Rule) (scope : Value) : M (E := E) Value :=
  let* injections := new_object in
  for_of rules (fun rule => defineProperty rule scope injections) >>
  emit (EvSetScope (VRef injections) scope) >>
  host (setScope h (VRef injections) scope) >>
  Object_freeze injections >>
  ret (VRef injections).

(** Between [w] and [w'] the storage at [s] has lost nothing: a bag or a
    function that it holds in [w], and that a lookup would find (a truthy
    one), it holds in [w'] *)
Definition keeps (s : nat) (w w' : World E) : Prop :=
  (∀ o bag, injections (storage_of w s) !! o = Some bag → truthy bag = true →
            injections (storage_of w' s) !! o = Some bag) ∧
  (∀ o g, injected (storage_of w s) !! o = Some g → truthy g = true →
          injected (storage_of w' s) !! o = Some g).

(** The invariant of a storage: an owner with an injected function has a
    bag *)
Definition coherent (this : Storage E) (w : World E) : Prop :=
  ∀ owner g,
    injected (storage_of w (maps this)) !! owner = Some g → truthy g = true →
    ∃ bag, injections (storage_of w (maps this)) !! owner = Some bag ∧
           truthy bag = true.

(** The constructors the builders hand out, with the owner-resolution
    function and the finalize strategy each was made with *)
Inductive Finalize : Type :=
| Into (fn : Value)
| Build (callback : Value).

Definition finalizer (k : Finalize) : Value → M (E := E) Value :=
  match k with
  | Into fn => λ injections, Function_bind fn injections
  | Build callback => λ injections, call h fuel callback VUndefined [injections]
  end.

Inductive Produced : Injection.GetOwner → Finalize → FunctionObject E → Prop :=
| classic_into this fn w c w' :
    Builder.into h fuel this fn w = (Ok c, w') → Produced (getOwner h) (Into fn) c
| classic_build this callback w c w' :
    Builder.build h fuel this callback w = (Ok c, w') →
    Produced (getOwner h) (Build callback) c
| polaris_into this fn w c w' :
    Polaris.into h fuel this fn w = (Ok c, w') → Produced (getScope h) (Into fn) c
| polaris_build this callback w c w' :
    Polaris.build h fuel this callback w = (Ok c, w') →
    Produced (getScope h) (Build callback) c.

(** The constructor carries the marker, and [createHelper] goes past its
    assertion to instantiate it *)
Definition accepted (c : FunctionObject E) : Prop :=
  Injection.isInjectable c = true ∧
  ∀ (manager : InstantiableHelperManager) (args : Manager.Arguments) (w : World E),
    Manager.createHelper h manager c args w =
    (let* fn := construct c [owner manager] in
     ret {| Manager.fn := fn; Manager.args := args |}) w.

(** No service was looked up and no function was called between two
    worlds *)
Definition quiet (w w' : World E) : Prop := invocations w' = invocations w.
End HostNotions.

(** * Properties *)

(** ** Reasoning about the monad *)

Section MonadFacts.
Context {E : Type}.
Local Abbreviation M := (@M E).

Lemma bind_ok_inv {A B} (m : M A) (k : A → M B) w b w' :
  bind m k w = (Ok b, w') →
  ∃ a w1, m w = (Ok a, w1) ∧ k a w1 = (Ok b, w').
Proof.
  unfold bind. destruct (m w) as [[a|e] w1]; [eauto | discriminate].
Qed.

Lemma bind_ok {A B} (m : M A) (k : A → M B) w a w1 :
  m w = (Ok a, w1) → bind m k w = k a w1.
Proof. unfold bind. by intros ->. Qed.

Lemma bind_throw {A B} (m : M A) (k : A → M B) w e w1 :
  m w = (Throw e, w1) → bind m k w = (Throw e, w1).
Proof. unfold bind. by intros ->. Qed.

Lemma bind_throw_inv {A B} (m : M A) (k : A → M B) w e w' :
  bind m k w = (Throw e, w') →
  m w = (Throw e, w') ∨ ∃ a w1, m w = (Ok a, w1) ∧ k a w1 = (Throw e, w').
Proof.
  unfold bind. destruct (m w) as [[a|e'] w1]; [eauto | ].
  intros [= -> ->]. by left.
Qed.

#[global] Instance extends_preorder : PreOrder (extends (E := E)).
Proof.
  split.
  - intros w. split; [done | by exists []].
  - intros w1 w2 w3 [(?&?&?&?&?) [t1 Ht1]] [(?&?&?&?&?) [t2 Ht2]].
    split; [unfold same_store; repeat split; congruence |].
    exists (t2 ++ t1). rewrite Ht2, Ht1. by rewrite app_assoc.
Qed.

#[global] Instance builds_preorder : PreOrder (builds (E := E)).
Proof.
  split.
  - by intros w.
  - intros w1 w2 w3 (?&?&?&?) (?&?&?&?). unfold builds. repeat split; congruence.
Qed.

#[global] Instance finalizes_preorder : PreOrder (finalizes (E := E)).
Proof.
  split.
  - by intros w.
  - intros w1 w2 w3 (?&?&?) (?&?&?). unfold finalizes. repeat split; congruence.
Qed.

Section Preserves.
Context (R : relation (World E)) `{!PreOrder R}.

Lemma preserves_ret {A} (a : A) : preserves R (ret a).
Proof. by intros w r w' [= <- <-]. Qed.

Lemma preserves_throw {A} e : preserves R (throw (A := A) e).
Proof. by intros w r w' [= <- <-]. Qed.

Lemma preserves_bind {A B} (m : M A) (k : A → M B) :
  preserves R m → (∀ a, preserves R (k a)) → preserves R (bind m k).
Proof.
  intros Hm Hk w r w'. unfold bind.
  destruct (m w) as [[a|e] w1] eqn:Em.
  - intros Hka. etrans; [by eapply Hm | by eapply Hk].
  - intros [= <- <-]. by eapply Hm.
Qed.

Lemma preserves_assert (h : Host E) msg c : preserves R (assert h msg c).
Proof.
  unfold assert. destruct (isDevelopingApp h); [| apply preserves_ret].
  destruct c; [apply preserves_ret | apply preserves_throw].
Qed.

Lemma assert_true (h : Host E) msg : assert h msg true = ret ().
Proof. unfold assert. by destruct (isDevelopingApp h). Qed.

Lemma assert_false (h : Host E) msg :
  isDevelopingApp h = true → assert h msg false = throw (AssertionError msg).
Proof. unfold assert. by intros ->. Qed.

Lemma assert_off (h : Host E) msg c : isDevelopingApp h = false → assert h msg c = ret ().
Proof. unfold assert. by intros ->. Qed.

Lemma preserves_ask {A} (f : E → A) : preserves R (ask f).
Proof. by intros w r w' [= <- <-]. Qed.

Lemma preserves_lift {A} (f : E → Result A) : preserves R (lift f).
Proof. by intros w r w' [= <- <-]. Qed.

Lemma preserves_read_cell c : preserves R (read_cell c).
Proof. by intros w r w' [= <- <-]. Qed.
End Preserves.

Lemma extends_emit ev : preserves extends (emit (E := E) ev).
Proof. intros w r w' [= <- <-]. split; [done | by exists [ev]]. Qed.

Lemma extends_host {A} (f : E → Result A * E) : preserves extends (host f).
Proof.
  intros w r w'. unfold host. destruct (f (ext w)) as [r0 e].
  intros [= <- <-]. split; [done | by exists []].
Qed.

Lemma extends_write_cell c v : preserves extends (write_cell (E := E) c v).
Proof. intros w r w' [= <- <-]. split; [done | by exists []]. Qed.

Lemma extends_run (get : Value → string → M Value) (p : UProg E) :
  (∀ obj name, preserves extends (get obj name)) → preserves extends (run get p).
Proof.
  intros Hget. induction p as [v|v|obj name k IH|f k IH]; cbn.
  - apply preserves_ret, _.
  - apply preserves_throw, _.
  - apply preserves_bind; [apply _ | apply Hget | done].
  - apply preserves_bind; [apply _ | apply extends_host | done].
Qed.

Lemma extends_cached cell (compute : M Value) :
  preserves extends compute → preserves extends (cached cell compute).
Proof.
  intros Hc. apply preserves_bind; [apply _ | apply preserves_read_cell, _ |].
  intros [v|]; [apply preserves_ret, _ |].
  apply preserves_bind; [apply _ | done |].
  intros v. apply preserves_bind; [apply _ | apply extends_write_cell |].
  intros _. apply preserves_ret, _.
Qed.
End MonadFacts.

Section EvaluatorFacts.
Context {E : Type} (h : Host E).

Lemma extends_resolve owner key : preserves extends (resolve h owner key).
Proof.
  unfold resolve. destruct key.
  - destruct owner; try apply preserves_throw, _;
      (apply preserves_bind; [apply _ | apply extends_emit | intros _; apply extends_host]).
  - apply preserves_bind; [apply _ | apply extends_emit | intros _; apply extends_host].
Qed.

Lemma call_S fuel f this args :
  call h (S fuel) f this args =
  match f with
  | VFun id =>
    emit (EvCall id this args) >>
    run (get_property h fuel) (function_body h id this args)
  | VBound r =>
    fun w => match bounds w !! r with
             | Some (target, boundThis) => call h fuel target boundThis args w
             | None => (Throw (TypeError "not a function"), w)
             end
  | _ => throw (TypeError "not a function")
  end.
Proof. reflexivity. Qed.

Lemma get_property_bag fuel r name w o d :
  heap w !! r = Some o → props o !! name = Some d →
  get_property h (S fuel) (VRef r) name w =
  match p_kind d with
  | Data v _ => (Ok v, w)
  | Accessor (GAlias _ owner) => (Ok owner, w)
  | Accessor (GService cell owner key) => cached cell (resolve h owner key) w
  | Accessor (GProperty cell owner callback) =>
    cached cell (call h fuel callback (VRef r) [owner]) w
  end.
Proof. intros Ho Hd. cbn. rewrite Ho, Hd. by destruct (p_kind d) as [[]|]. Qed.

Lemma extends_eval fuel :
  (∀ f this args, preserves extends (call h fuel f this args)) ∧
  (∀ obj name, preserves extends (get_property h fuel obj name)).
Proof.
  induction fuel as [|fuel [IHc IHg]]; (split; [intros f this args | intros obj name]).
  - apply preserves_throw, _.
  - apply preserves_throw, _.
  - rewrite call_S. destruct f; try apply preserves_throw, _.
    + apply preserves_bind; [apply _ | apply extends_emit | intros _; by apply extends_run].
    + intros w r0 w'. destruct (bounds w !! r) as [[target boundThis]|] eqn:Eb.
      * apply IHc.
      * by intros [= <- <-].
  - destruct obj; try apply preserves_throw, _; try apply (extends_host (host_get h _ name)).
    intros w r0 w'.
    destruct (heap w !! r) as [o|] eqn:Ho;
      [| cbn; rewrite Ho; by intros [= <- <-]].
    destruct (props o !! name) as [d|] eqn:Hd;
      [| cbn; rewrite Ho, Hd; apply (extends_host (inherited h (VRef r) name))].
    rewrite (get_property_bag _ _ _ _ _ _ Ho Hd).
    destruct (p_kind d) as [[id owner|cell owner key|cell owner callback]|v wr];
      try by intros [= <- <-].
    + apply extends_cached, extends_resolve.
    + apply extends_cached, IHc.
Qed.

Lemma extends_call fuel f this args : preserves extends (call h fuel f this args).
Proof. apply extends_eval. Qed.

Lemma extends_get_property fuel obj name :
  preserves extends (get_property h fuel obj name).
Proof. apply extends_eval. Qed.
End EvaluatorFacts.

(** ** The injection cache *)

Section StorageFacts.
Context {E : Type} (h : Host E).
Local Abbreviation M := (@M E).

(** The two guards that open both methods of [Storage] *)
Lemma guards_pass (this : Storage E) (owner : Value) {A} (k : M A) (w : World E) :
  alive h w owner →
  (let* destroying := ask (fun e => isDestroying h e owner) in
   assert h ("cannot call " ++ _name this ++ " while the owner is being destroyed")%string
          (negb destroying) >>
   let* destroyed := ask (fun e => isDestroyed h e owner) in
   assert h ("cannot call " ++ _name this ++ " after the owner has already been destroyed")%string
          (negb destroyed) >> k) w = k w.
Proof.
  intros [H1 H2]. unfold bind, ask, assert.
  destruct (isDevelopingApp h); cbn; [| done].
  rewrite H1. cbn. by rewrite H2.
Qed.

Lemma alive_passes (w : World E) owner : alive h w owner → passes h w owner.
Proof. by intros Ha _. Qed.

Lemma guards_through (this : Storage E) (owner : Value) {A} (k : M A) (w : World E) :
  passes h w owner →
  (let* destroying := ask (fun e => isDestroying h e owner) in
   assert h ("cannot call " ++ _name this ++ " while the owner is being destroyed")%string
          (negb destroying) >>
   let* destroyed := ask (fun e => isDestroyed h e owner) in
   assert h ("cannot call " ++ _name this ++ " after the owner has already been destroyed")%string
          (negb destroyed) >> k) w = k w.
Proof.
  intros Hp. destruct (isDevelopingApp h) eqn:Hdev.
  - by apply guards_pass, Hp.
  - unfold bind, ask, assert. by rewrite Hdev.
Qed.

Lemma guards_fail (this : Storage E) (owner : Value) {A} (k : M A) (w : World E) :
  isDevelopingApp h = true →
  isDestroying h (ext w) owner || isDestroyed h (ext w) owner = true →
  ∃ msg,
  (let* destroying := ask (fun e => isDestroying h e owner) in
   assert h ("cannot call " ++ _name this ++ " while the owner is being destroyed")%string
          (negb destroying) >>
   let* destroyed := ask (fun e => isDestroyed h e owner) in
   assert h ("cannot call " ++ _name this ++ " after the owner has already been destroyed")%string
          (negb destroyed) >> k) w = (Throw (AssertionError msg), w).
Proof.
  intros Hdev H. unfold bind, ask, assert. rewrite Hdev. cbn.
  destruct (isDestroying h (ext w) owner); cbn; [by eexists |].
  cbn in H. rewrite H. cbn. by eexists.
Qed.

(** The two guards together: in a development build an owner in
    destruction or destroyed is refused, with the message of the first
    guard that fails; otherwise the method goes on *)
Lemma guards_eq (this : Storage E) (owner : Value) {A} (k : M A) (w : World E) :
  (let* destroying := ask (fun e => isDestroying h e owner) in
   assert h ("cannot call " ++ _name this ++ " while the owner is being destroyed")%string
          (negb destroying) >>
   let* destroyed := ask (fun e => isDestroyed h e owner) in
   assert h ("cannot call " ++ _name this ++ " after the owner has already been destroyed")%string
          (negb destroyed) >> k) w =
  if isDevelopingApp h && (isDestroying h (ext w) owner || isDestroyed h (ext w) owner)
  then (Throw (AssertionError
          (if isDestroying h (ext w) owner
           then "cannot call " ++ _name this ++ " while the owner is being destroyed"
           else "cannot call " ++ _name this ++
                " after the owner has already been destroyed")%string), w)
  else k w.
Proof.
  unfold bind, ask, assert. destruct (isDevelopingApp h); cbn; [| done].
  destruct (isDestroying h (ext w) owner); cbn; [done |].
  by destruct (isDestroyed h (ext w) owner).
Qed.

(** Either guard failing leaves no result: the guards let the owner
    through *)
Lemma guards_ok_inv (this : Storage E) (owner : Value) {A} (k : M A) (w : World E) a w' :
  (let* destroying := ask (fun e => isDestroying h e owner) in
   assert h ("cannot call " ++ _name this ++ " while the owner is being destroyed")%string
          (negb destroying) >>
   let* destroyed := ask (fun e => isDestroyed h e owner) in
   assert h ("cannot call " ++ _name this ++ " after the owner has already been destroyed")%string
          (negb destroyed) >> k) w = (Ok a, w') →
  passes h w owner ∧ k w = (Ok a, w').
Proof.
  unfold bind, ask, assert, passes, alive. cbn.
  destruct (isDevelopingApp h); [| by intros H].
  destruct (isDestroying h (ext w) owner); cbn; [discriminate |].
  destruct (isDestroyed h (ext w) owner); cbn; [discriminate | done].
Qed.
End StorageFacts.

Section Claims.
Context {E : Type} (h : Host E).
Variable fuel : nat.
Local Abbreviation M := (@M E).

(** C2 as amended, the destruction guard.  When the owner is being
    destroyed or is destroyed:
    in a development build, [getInjections] and [getInjected] of any
    storage fail with an assertion error and leave the world as it was,
    whatever the two weak maps hold for that owner: the guards come before
    the lookup;
    in a production build the assertions are not there: a bag or a
    function that the cache holds for the owner is returned as for any
    other owner. *)
Theorem destruction_guard (this : Storage E) (owner : Value) (w : World E) :
  isDestroying h (ext w) owner || isDestroyed h (ext w) owner = true →
  (isDevelopingApp h = true →
   (∃ msg, Injection.getInjections h this owner w = (Throw (AssertionError msg), w)) ∧
   (∃ msg, Injection.getInjected h this owner w = (Throw (AssertionError msg), w))) ∧
  (isDevelopingApp h = false →
   (∀ bag, injections (storage_of w (maps this)) !! owner = Some bag →
           is_reference owner = true → truthy bag = true →
           Injection.getInjections h this owner w = (Ok bag, w)) ∧
   (∀ g, injected (storage_of w (maps this)) !! owner = Some g →
         is_reference owner = true → truthy g = true →
         Injection.getInjected h this owner w = (Ok g, w))).
Proof.
  intros Hd. split.
  - intros Hdev. split.
    + unfold Injection.getInjections. by apply guards_fail.
    + unfold Injection.getInjected. by apply guards_fail.
  - intros Hprod.
    assert (passes h w owner) as Hp by (intros ?; congruence).
    split.
    + intros bag Hb Hr Ht. unfold Injection.getInjections.
      rewrite guards_through by done.
      unfold bind, WeakMap_get. rewrite Hr, Hb. cbn. by rewrite Ht.
    + intros g Hg Hr Ht. unfold Injection.getInjected.
      rewrite guards_through by done.
      unfold bind at 1, WeakMap_get. rewrite Hr, Hg. cbn. by rewrite Ht.
Qed.

(** C6, named-argument elision.  [getValue] calls the recorded function
    with the positional arguments alone when the named mapping has no
    key, and with the mapping appended as one last argument when it has
    one; what the function returns or throws is the outcome of
    [getValue]. *)
Theorem named_argument_elision (state : Manager.State) (w : World E) :
  Manager.getValue h fuel state w =
  match Object_keys h (ext w) (Manager.named (Manager.args state)) with
  | [] =>
    call h fuel (Manager.fn state) VUndefined
         (Manager.positional (Manager.args state)) w
  | _ :: _ =>
    call h fuel (Manager.fn state) VUndefined
         (Manager.positional (Manager.args state) ++ [Manager.named (Manager.args state)]) w
  end.
Proof.
  unfold Manager.getValue, bind, ask.
  by destruct (Object_keys h (ext w) (Manager.named (Manager.args state))).
Qed.
End Claims.

(** ** What [constructorFor], [into] and [build] return *)

Section ConstructorFacts.
Context {E : Type} (h : Host E).
Variable fuel : nat.
Local Abbreviation M := (@M E).

Lemma isInjectable_constructor_for st go name :
  Injection.isInjectable (constructor_for h fuel st go name) = true.
Proof. unfold Injection.isInjectable. cbn. by apply bool_decide_eq_true_2. Qed.

Lemma constructorFor_eq gi gd go name (w : World E) :
  Injection.constructorFor h fuel gi gd go name w =
  (Ok (constructor_for h fuel (storage_for gi gd w) go name), with_storage (next w) w).
Proof. reflexivity. Qed.

Lemma helperFor_eq (fn : FunctionObject E) (w : World E) :
  Injection.isInjectable fn = true →
  Manager.helperFor h fn w = (Ok (Manager.setHelperManager Manager.factory fn), w).
Proof.
  intros Hi. unfold Manager.helperFor, bind, assert. rewrite Hi.
  by destruct (isDevelopingApp h).
Qed.

Lemma finalize_eq gi gd go name (w : World E) :
  (let* constructor := Injection.constructorFor h fuel gi gd go name in
   Manager.helperFor h constructor) w =
  (Ok (Manager.setHelperManager Manager.factory
         (constructor_for h fuel (storage_for gi gd w) go name)),
   with_storage (next w) w).
Proof.
  rewrite (bind_ok _ _ _ _ _ (constructorFor_eq gi gd go name w)).
  apply helperFor_eq, isInjectable_constructor_for.
Qed.

(** [fn.name]: of a function it is a plain read; of undefined and of null
    it throws; and whatever [fn] is, it allocates nothing and leaves the
    objects, the arrays and the storages as they are *)
Lemma get_name_callable fn (w : World E) :
  is_callable fn = true → get_name h fuel fn w = (Ok (name_of h w fn), w).
Proof. by destruct fn. Qed.

Lemma get_name_nullish fn (w : World E) :
  fn = VUndefined ∨ fn = VNull →
  get_name h fuel fn w =
  (Throw (TypeError "Cannot read properties of undefined (reading 'name')"), w).
Proof. by intros [-> | ->]. Qed.

Lemma extends_get_name fn : preserves extends (get_name h fuel fn).
Proof.
  destruct fn; cbn [get_name];
    first [ apply preserves_throw, _
          | apply preserves_ret, _
          | apply preserves_bind;
            [apply _ | apply extends_get_property | intros v; apply preserves_ret, _]
          | intros w0 res w0' [= <- <-]; reflexivity ].
Qed.

(** What [into] and [build] do once they have the name *)
Lemma finalize_inv gi gd go (m : M (option string)) (w : World E) c w' :
  (let* name := m in
   let* constructor := Injection.constructorFor h fuel gi gd go name in
   Manager.helperFor h constructor) w = (Ok c, w') →
  ∃ name w1, m w = (Ok name, w1) ∧
             c = Manager.setHelperManager Manager.factory
                   (constructor_for h fuel (storage_for gi gd w1) go name) ∧
             w' = with_storage (next w1) w1.
Proof.
  intros H. apply bind_ok_inv in H as (name & w1 & Hm & H).
  rewrite finalize_eq in H. injection H as <- <-. by exists name, w1.
Qed.

Lemma finalize_throw gi gd go (m : M (option string)) (w : World E) e w' :
  (let* name := m in
   let* constructor := Injection.constructorFor h fuel gi gd go name in
   Manager.helperFor h constructor) w = (Throw e, w') →
  m w = (Throw e, w').
Proof.
  intros H. apply bind_throw_inv in H as [H | (name & w1 & Hm & H)]; [done |].
  by rewrite finalize_eq in H.
Qed.

Lemma into_eq this fn (w : World E) :
  is_callable fn = true →
  Builder.into h fuel this fn w =
  (Ok (Manager.setHelperManager Manager.factory
         (constructor_for h fuel
            (storage_for (Builder.getInjections this) (λ i, Function_bind fn i) w)
            (getOwner h) (name_of h w fn))),
   with_storage (next w) w).
Proof.
  intros Hc. unfold Builder.into.
  rewrite (bind_ok _ _ _ _ _ (get_name_callable fn w Hc)). apply finalize_eq.
Qed.

Lemma build_eq this cb (w : World E) :
  is_callable cb = true →
  Builder.build h fuel this cb w =
  (Ok (Manager.setHelperManager Manager.factory
         (constructor_for h fuel
            (storage_for (Builder.getInjections this)
                         (λ i, call h fuel cb VUndefined [i]) w)
            (getOwner h) (name_of h w cb))),
   with_storage (next w) w).
Proof.
  intros Hc. unfold Builder.build.
  rewrite (bind_ok _ _ _ _ _ (get_name_callable cb w Hc)). apply finalize_eq.
Qed.

Lemma polaris_into_eq this fn (w : World E) :
  is_callable fn = true →
  Polaris.into h fuel this fn w =
  (Ok (Manager.setHelperManager Manager.factory
         (constructor_for h fuel
            (storage_for (Polaris.getInjections h this) (λ i, Function_bind fn i) w)
            (getScope h) (name_of h w fn))),
   with_storage (next w) w).
Proof.
  intros Hc. unfold Polaris.into.
  rewrite (bind_ok _ _ _ _ _ (get_name_callable fn w Hc)). apply finalize_eq.
Qed.

Lemma polaris_build_eq this cb (w : World E) :
  is_callable cb = true →
  Polaris.build h fuel this cb w =
  (Ok (Manager.setHelperManager Manager.factory
         (constructor_for h fuel
            (storage_for (Polaris.getInjections h this)
                         (λ i, call h fuel cb VUndefined [i]) w)
            (getScope h) (name_of h w cb))),
   with_storage (next w) w).
Proof.
  intros Hc. unfold Polaris.build.
  rewrite (bind_ok _ _ _ _ _ (get_name_callable cb w Hc)). apply finalize_eq.
Qed.

(** What a builder has returned, whatever it was given *)
Lemma into_inv this fn (w : World E) c w' :
  Builder.into h fuel this fn w = (Ok c, w') →
  ∃ name w1, get_name h fuel fn w = (Ok name, w1) ∧
    c = Manager.setHelperManager Manager.factory
          (constructor_for h fuel
             (storage_for (Builder.getInjections this) (λ i, Function_bind fn i) w1)
             (getOwner h) name) ∧
    w' = with_storage (next w1) w1.
Proof. apply finalize_inv. Qed.

Lemma build_inv this cb (w : World E) c w' :
  Builder.build h fuel this cb w = (Ok c, w') →
  ∃ name w1, get_name h fuel cb w = (Ok name, w1) ∧
    c = Manager.setHelperManager Manager.factory
          (constructor_for h fuel
             (storage_for (Builder.getInjections this)
                          (λ i, call h fuel cb VUndefined [i]) w1)
             (getOwner h) name) ∧
    w' = with_storage (next w1) w1.
Proof. apply finalize_inv. Qed.

Lemma polaris_into_inv this fn (w : World E) c w' :
  Polaris.into h fuel this fn w = (Ok c, w') →
  ∃ name w1, get_name h fuel fn w = (Ok name, w1) ∧
    c = Manager.setHelperManager Manager.factory
          (constructor_for h fuel
             (storage_for (Polaris.getInjections h this) (λ i, Function_bind fn i) w1)
             (getScope h) name) ∧
    w' = with_storage (next w1) w1.
Proof. apply finalize_inv. Qed.

Lemma polaris_build_inv this cb (w : World E) c w' :
  Polaris.build h fuel this cb w = (Ok c, w') →
  ∃ name w1, get_name h fuel cb w = (Ok name, w1) ∧
    c = Manager.setHelperManager Manager.factory
          (constructor_for h fuel
             (storage_for (Polaris.getInjections h this)
                          (λ i, call h fuel cb VUndefined [i]) w1)
             (getScope h) name) ∧
    w' = with_storage (next w1) w1.
Proof. apply finalize_inv. Qed.

(** Every constructor a builder hands out is the tagged, registered
    constructor of a storage whose two callbacks are the builder's. *)
Lemma Produced_inv go k c :
  Produced h fuel go k c →
  ∃ st name,
    c = Manager.setHelperManager Manager.factory (constructor_for h fuel st go name) ∧
    builder_injections h (_getInjections st) ∧
    _getInjected st = finalizer h fuel k.
Proof.
  intros [[a] fn w c0 w' H|[a] cb w c0 w' H|[a] fn w c0 w' H|[a] cb w c0 w' H].
  - apply into_inv in H as (name & w1 & _ & -> & _).
    eexists _, _. split; [done |]. split; [exists a; by left | done].
  - apply build_inv in H as (name & w1 & _ & -> & _).
    eexists _, _. split; [done |]. split; [exists a; by left | done].
  - apply polaris_into_inv in H as (name & w1 & _ & -> & _).
    eexists _, _. split; [done |]. split; [exists a; by right | done].
  - apply polaris_build_inv in H as (name & w1 & _ & -> & _).
    eexists _, _. split; [done |]. split; [exists a; by right | done].
Qed.

Lemma builder_injected_finalizer k : builder_injected h fuel (finalizer h fuel k).
Proof. destruct k as [fn | cb]; [exists fn; by left | exists cb; by right]. Qed.
End ConstructorFacts.

(** ** What building a bag and finalizing leave alone *)

Section BuildFacts.
Context {E : Type} (h : Host E).
Variable fuel : nat.
Local Abbreviation M := (@M E).

Local Ltac primitive :=
  let w := fresh "w" in let r := fresh "r" in let w' := fresh "w'" in
  intros w r w'; cbv beta delta [bind fresh]; cbn beta iota;
  repeat case_match; intros [= <- <-]; done.

Lemma builds_fresh : preserves builds (fresh (E := E)).
Proof. by intros w r w' [= <- <-]. Qed.

Lemma builds_new_object : preserves builds (new_object (E := E)).
Proof. by intros w r w' [= <- <-]. Qed.

Lemma builds_new_cell : preserves builds (new_cell (E := E)).
Proof. by intros w r w' [= <- <-]. Qed.

Lemma builds_Object_defineProperty o name get :
  preserves builds (Object_defineProperty (E := E) o name get).
Proof. unfold Object_defineProperty. primitive. Qed.

Lemma builds_Object_freeze o : preserves builds (Object_freeze (E := E) o).
Proof. unfold Object_freeze. primitive. Qed.

Lemma builds_host {A} (f : E → Result A * E) : preserves builds (host f).
Proof.
  intros w r w'. unfold host. destruct (f (ext w)) as [r0 e]. by intros [= <- <-].
Qed.

Lemma builds_emit_setScope object scope :
  preserves builds (emit (E := E) (EvSetScope object scope)).
Proof. by intros w r w' [= <- <-]. Qed.

Lemma builds_read_array a : preserves builds (read_array (E := E) a).
Proof. unfold read_array. primitive. Qed.

Lemma builds_defineProperty rule owner injections :
  preserves builds (defineProperty (E := E) rule owner injections).
Proof.
  destruct rule; cbn.
  - apply preserves_bind; [apply _ | apply builds_fresh |].
    intros; apply builds_Object_defineProperty.
  - apply preserves_bind; [apply _ | apply builds_new_cell |].
    intros; apply builds_Object_defineProperty.
  - apply preserves_bind; [apply _ | apply builds_new_cell |].
    intros; apply builds_Object_defineProperty.
Qed.

Lemma builds_for_of rules (body : Rule → M unit) :
  (∀ rule, preserves builds (body rule)) → preserves builds (for_of rules body).
Proof.
  intros Hb. induction rules as [|rule rules IH]; cbn.
  - apply preserves_ret, _.
  - apply preserves_bind; [apply _ | apply Hb | done].
Qed.

Lemma builds_getInjections this owner :
  preserves builds (Builder.getInjections (E := E) this owner).
Proof.
  unfold Builder.getInjections.
  apply preserves_bind; [apply _ | apply builds_new_object | intros injections].
  apply preserves_bind; [apply _ | apply builds_read_array | intros rules].
  apply preserves_bind; [apply _ | | intros _].
  { apply builds_for_of. intros; apply builds_defineProperty. }
  apply preserves_bind; [apply _ | apply builds_Object_freeze | intros _].
  apply preserves_ret, _.
Qed.

Lemma builds_polaris_getInjections this scope :
  preserves builds (Polaris.getInjections h this scope).
Proof.
  unfold Polaris.getInjections.
  apply preserves_bind; [apply _ | apply builds_new_object | intros injections].
  apply preserves_bind; [apply _ | apply builds_read_array | intros rules].
  apply preserves_bind; [apply _ | | intros _].
  { apply builds_for_of. intros; apply builds_defineProperty. }
  apply preserves_bind; [apply _ | apply builds_emit_setScope | intros _].
  apply preserves_bind; [apply _ | apply builds_host | intros _].
  apply preserves_bind; [apply _ | apply builds_Object_freeze | intros _].
  apply preserves_ret, _.
Qed.

Lemma builds_builder_injections gi owner :
  builder_injections h gi → preserves builds (gi owner).
Proof.
  intros [a [-> | ->]];
    [apply builds_getInjections | apply builds_polaris_getInjections].
Qed.

(** The builders' [getInjections] closures return an object *)
Lemma builder_injections_ref gi owner (w : World E) v w' :
  builder_injections h gi → gi owner w = (Ok v, w') → ∃ r, v = VRef r.
Proof.
  intros [a [-> | ->]] H.
  - unfold Builder.getInjections in H.
    repeat (apply bind_ok_inv in H as (? & ? & _ & H)).
    injection H as <- _. by eexists.
  - unfold Polaris.getInjections in H.
    repeat (apply bind_ok_inv in H as (? & ? & _ & H)).
    injection H as <- _. by eexists.
Qed.

Lemma finalizes_Function_bind fn thisArg :
  preserves finalizes (Function_bind (E := E) fn thisArg).
Proof.
  unfold Function_bind. destruct (is_callable fn); [| apply preserves_throw, _].
  by intros w r w' [= <- <-].
Qed.

Lemma finalizes_call f this args :
  preserves finalizes (call h fuel f this args).
Proof.
  intros w r w' H. apply extends_call in H as [(?&?&?&?&?) _]. by repeat split.
Qed.

Lemma finalizes_builder_injected gd injections :
  builder_injected h fuel gd → preserves finalizes (gd injections).
Proof.
  intros [fn [-> | ->]]; [apply finalizes_Function_bind | apply finalizes_call].
Qed.
End BuildFacts.

(** ** The two methods of [Storage], case by case *)

Section CacheFacts.
Context {E : Type} (h : Host E).
Local Abbreviation M := (@M E).

Lemma storage_of_insert s st m (w : World E) :
  storage_of (set_storages (<[s := st]> m) w) s = st.
Proof. unfold storage_of. cbn. by rewrite lookup_insert_eq. Qed.

Lemma storage_of_insert_ne s s' st m (w : World E) :
  s ≠ s' → storage_of (set_storages (<[s := st]> m) w) s' = default empty_storage (m !! s').
Proof. intros Hne. unfold storage_of. cbn. by rewrite lookup_insert_ne. Qed.

Lemma WeakMap_get_truthy field s key (w : World E) v w' :
  WeakMap_get field s key w = (Ok v, w') → truthy v = true →
  is_reference key = true ∧ field (storage_of w s) !! key = Some v ∧ w' = w.
Proof.
  unfold WeakMap_get. destruct (is_reference key).
  - intros [= <- <-] Ht. destruct (field (storage_of w s) !! key); [done | discriminate].
  - intros [= <- <-]. discriminate.
Qed.

Lemma WeakMap_get_eq field s key (w : World E) :
  WeakMap_get field s key w =
  (Ok (if is_reference key then default VUndefined (field (storage_of w s) !! key)
       else VUndefined), w).
Proof. unfold WeakMap_get. by destruct (is_reference key). Qed.

Lemma injections_set_ok_inv s key value (w : World E) u w' :
  injections_set s key value w = (Ok u, w') →
  is_reference key = true ∧
  injections (storage_of w' s) !! key = Some value ∧
  injected (storage_of w' s) = injected (storage_of w s) ∧
  ext w' = ext w ∧ trace w' = trace w ∧ heap w' = heap w.
Proof.
  unfold injections_set. destruct (is_reference key); [| discriminate].
  intros [= <- <-]. rewrite !storage_of_insert. cbn.
  by rewrite lookup_insert_eq.
Qed.

Lemma injected_set_ok_inv s key value (w : World E) u w' :
  injected_set s key value w = (Ok u, w') →
  is_reference key = true ∧
  injected (storage_of w' s) !! key = Some value ∧
  injections (storage_of w' s) = injections (storage_of w s) ∧
  ext w' = ext w ∧ trace w' = trace w ∧ heap w' = heap w.
Proof.
  unfold injected_set. destruct (is_reference key); [| discriminate].
  intros [= <- <-]. rewrite !storage_of_insert. cbn.
  by rewrite lookup_insert_eq.
Qed.

(** A hit: the bag is in the cache *)
Lemma getInjections_found (this : Storage E) owner (w : World E) bag :
  passes h w owner → is_reference owner = true →
  injections (storage_of w (maps this)) !! owner = Some bag → truthy bag = true →
  Injection.getInjections h this owner w = (Ok bag, w).
Proof.
  intros Ha Hr Hb Ht. unfold Injection.getInjections.
  rewrite guards_through by done.
  unfold bind. rewrite WeakMap_get_eq, Hr, Hb. cbn. by rewrite Ht.
Qed.

Lemma getInjected_found (this : Storage E) owner (w : World E) g :
  passes h w owner → is_reference owner = true →
  injected (storage_of w (maps this)) !! owner = Some g → truthy g = true →
  Injection.getInjected h this owner w = (Ok g, w).
Proof.
  intros Ha Hr Hb Ht. unfold Injection.getInjected.
  rewrite guards_through by done.
  unfold bind at 1. rewrite WeakMap_get_eq, Hr, Hb. cbn. by rewrite Ht.
Qed.

Lemma getInjections_hit (this : Storage E) owner (w : World E) bag :
  alive h w owner → is_reference owner = true →
  injections (storage_of w (maps this)) !! owner = Some bag → truthy bag = true →
  Injection.getInjections h this owner w = (Ok bag, w).
Proof. intros Ha. by apply getInjections_found, alive_passes. Qed.

Lemma getInjected_hit (this : Storage E) owner (w : World E) g :
  alive h w owner → is_reference owner = true →
  injected (storage_of w (maps this)) !! owner = Some g → truthy g = true →
  Injection.getInjected h this owner w = (Ok g, w).
Proof. intros Ha. by apply getInjected_found, alive_passes. Qed.

(** A miss: the callback is run and what it returns is stored *)
Lemma getInjections_miss (this : Storage E) owner (w : World E) :
  passes h w owner →
  truthy (default VUndefined (injections (storage_of w (maps this)) !! owner)) = false →
  Injection.getInjections h this owner w =
  (let* bag := _getInjections this owner in
   injections_set (maps this) owner bag >> ret bag) w.
Proof.
  intros Hp Hm. unfold Injection.getInjections. rewrite guards_through by done.
  unfold bind at 1. rewrite WeakMap_get_eq.
  destruct (is_reference owner); [by rewrite Hm | done].
Qed.

Lemma getInjected_miss (this : Storage E) owner (w : World E) :
  passes h w owner →
  truthy (default VUndefined (injected (storage_of w (maps this)) !! owner)) = false →
  Injection.getInjected h this owner w =
  (let* bag := Injection.getInjections h this owner in
   let* g := _getInjected this bag in
   injected_set (maps this) owner g >> ret g) w.
Proof.
  intros Hp Hm. unfold Injection.getInjected. rewrite guards_through by done.
  unfold bind at 1. rewrite WeakMap_get_eq.
  destruct (is_reference owner); [by rewrite Hm | done].
Qed.

(** How [getInjections] can have returned: from the cache, or by running
    the rules and storing what they built *)
Lemma getInjections_ok_inv (this : Storage E) owner (w : World E) bag w' :
  Injection.getInjections h this owner w = (Ok bag, w') →
  passes h w owner ∧ is_reference owner = true ∧
  injections (storage_of w' (maps this)) !! owner = Some bag ∧
  ((w' = w ∧ truthy bag = true) ∨
   ∃ w1, _getInjections this owner w = (Ok bag, w1) ∧
         injections_set (maps this) owner bag w1 = (Ok (), w')).
Proof.
  unfold Injection.getInjections. intros H.
  apply guards_ok_inv in H as [Ha H]. split; [done |].
  apply bind_ok_inv in H as (v & w0 & Hget & H).
  destruct (truthy v) eqn:Ht; cbn in H.
  - injection H as <- <-.
    apply WeakMap_get_truthy in Hget as (Hr & Hv & ->); [| done].
    split; [done |]. split; [done |]. by left.
  - rewrite WeakMap_get_eq in Hget. injection Hget as _ <-.
    apply bind_ok_inv in H as (b & w1 & Hb & H).
    apply bind_ok_inv in H as ([] & w2 & Hset & H).
    injection H as <- <-.
    pose proof (injections_set_ok_inv _ _ _ _ _ _ Hset) as (Hr & Hl & _).
    split; [done |]. split; [done |]. right. by exists w1.
Qed.

Lemma getInjected_ok_inv (this : Storage E) owner (w : World E) g w' :
  Injection.getInjected h this owner w = (Ok g, w') →
  passes h w owner ∧ is_reference owner = true ∧
  injected (storage_of w' (maps this)) !! owner = Some g ∧
  ((w' = w ∧ truthy g = true) ∨
   ∃ bag w1 w2,
     Injection.getInjections h this owner w = (Ok bag, w1) ∧
     _getInjected this bag w1 = (Ok g, w2) ∧
     injected_set (maps this) owner g w2 = (Ok (), w')).
Proof.
  unfold Injection.getInjected. intros H.
  apply guards_ok_inv in H as [Ha H]. split; [done |].
  apply bind_ok_inv in H as (v & w0 & Hget & H).
  destruct (truthy v) eqn:Ht; cbn in H.
  - injection H as <- <-.
    apply WeakMap_get_truthy in Hget as (Hr & Hv & ->); [| done].
    split; [done |]. split; [done |]. by left.
  - rewrite WeakMap_get_eq in Hget. injection Hget as _ <-.
    apply bind_ok_inv in H as (b & w1 & Hb & H).
    apply bind_ok_inv in H as (g' & w2 & Hg & H).
    apply bind_ok_inv in H as ([] & w3 & Hset & H).
    injection H as <- <-.
    pose proof (injected_set_ok_inv _ _ _ _ _ _ Hset) as (Hr & Hl & _).
    split; [done |]. split; [done |]. right. by exists b, w1, w2.
Qed.
End CacheFacts.

(** ** The storage of a constructor *)

Section ProducedFacts.
Context {E : Type} (h : Host E).
Variable fuel : nat.
Local Abbreviation M := (@M E).

Lemma Produced_storage go k c this :
  Produced h fuel go k c → STORAGE c = Some this →
  builder_injections h (_getInjections this) ∧
  builder_injected h fuel (_getInjected this).
Proof.
  intros Hp Hs. apply Produced_inv in Hp as (st & name & -> & Hi & Hd).
  cbn in Hs. injection Hs as <-. split; [done |].
  rewrite Hd. apply builder_injected_finalizer.
Qed.

End ProducedFacts.

(** ** Coherence of the two weak maps *)

Section Coherence.
Context {E : Type} (h : Host E).
Variable fuel : nat.
Local Abbreviation M := (@M E).

Lemma storage_of_same (w w' : World E) s :
  storages w' = storages w → storage_of w' s = storage_of w s.
Proof. unfold storage_of. by intros ->. Qed.

(** Whatever its outcome, [getInjections] leaves the injected functions
    alone and never replaces a bag. *)
Lemma getInjections_effect (this : Storage E) owner (w : World E) r w' :
  builder_injections h (_getInjections this) →
  Injection.getInjections h this owner w = (r, w') →
  injected (storage_of w' (maps this)) = injected (storage_of w (maps this)) ∧
  ∀ o bag, injections (storage_of w (maps this)) !! o = Some bag → truthy bag = true →
           injections (storage_of w' (maps this)) !! o = Some bag.
Proof.
  intros Hi. unfold Injection.getInjections. rewrite guards_eq.
  destruct (_ && _); [by intros [= <- <-] |].
  unfold bind at 1. rewrite WeakMap_get_eq.
  destruct (truthy _) eqn:Ht; cbn; [by intros [= <- <-] |].
  unfold bind at 1.
  destruct (_getInjections this owner w) as [[b|e] w1] eqn:Hrun.
  - pose proof (builds_builder_injections h _ owner Hi _ _ _ Hrun) as (_ & _ & Hst & _).
    unfold bind, injections_set.
    destruct (is_reference owner) eqn:Hr; cbn.
    + intros [= <- <-]. rewrite storage_of_insert. cbn.
      rewrite (storage_of_same w w1) by done. split; [done |].
      intros o bag Ho Hb. destruct (decide (owner = o)) as [<- | Hne].
      * rewrite Ho in Ht. cbn in Ht. congruence.
      * by rewrite lookup_insert_ne.
    + intros [= <- <-]. by rewrite (storage_of_same w w1).
  - pose proof (builds_builder_injections h _ owner Hi _ _ _ Hrun) as (_ & _ & Hst & _).
    intros [= <- <-]. by rewrite (storage_of_same w w1).
Qed.

Lemma coherent_getInjections (this : Storage E) owner (w : World E) r w' :
  builder_injections h (_getInjections this) →
  Injection.getInjections h this owner w = (r, w') →
  coherent this w → coherent this w'.
Proof.
  intros Hi Hrun Hc o g Hg Ht.
  destruct (getInjections_effect _ _ _ _ _ Hi Hrun) as [Hinj Hbags].
  rewrite Hinj in Hg. destruct (Hc o g Hg Ht) as (bag & Hb & Hbt).
  exists bag. split; [by apply Hbags | done].
Qed.

(** Whatever its outcome, [getInjected] never replaces an injected function
    or a bag. *)
Lemma getInjected_effect (this : Storage E) owner (w : World E) r w' :
  builder_injections h (_getInjections this) →
  builder_injected h fuel (_getInjected this) →
  Injection.getInjected h this owner w = (r, w') →
  (∀ o g, injected (storage_of w (maps this)) !! o = Some g → truthy g = true →
          injected (storage_of w' (maps this)) !! o = Some g) ∧
  (∀ o bag, injections (storage_of w (maps this)) !! o = Some bag → truthy bag = true →
            injections (storage_of w' (maps this)) !! o = Some bag).
Proof.
  intros Hi Hd. unfold Injection.getInjected. rewrite guards_eq.
  destruct (_ && _); [by intros [= <- <-] |].
  unfold bind at 1. rewrite WeakMap_get_eq.
  destruct (truthy _) eqn:Ht; cbn -[Injection.getInjections]; [by intros [= <- <-] |].
  unfold bind at 1.
  destruct (Injection.getInjections h this owner w) as [[bag|e] w1] eqn:Hb.
  2: { intros [= <- <-]. destruct (getInjections_effect _ _ _ _ _ Hi Hb) as [Hinj Hbags].
       split; [intros o g; by rewrite Hinj | done]. }
  destruct (getInjections_effect _ _ _ _ _ Hi Hb) as [Hinj Hbags].
  unfold bind at 1.
  destruct (_getInjected this bag w1) as [[g|e] w2] eqn:Hfin.
  2: { intros [= <- <-].
       pose proof (finalizes_builder_injected h fuel _ bag Hd _ _ _ Hfin) as (_ & _ & Hst).
       rewrite (storage_of_same w1 w2) by done.
       split; [intros o g; by rewrite Hinj | done]. }
  pose proof (finalizes_builder_injected h fuel _ bag Hd _ _ _ Hfin) as (_ & _ & Hst).
  unfold bind, injected_set. destruct (is_reference owner) eqn:Hr.
  - intros [= <- <-]. rewrite storage_of_insert. cbn.
    rewrite (storage_of_same w1 w2) by done. split; [| done].
    intros o g' Hg' Hgt. destruct (decide (owner = o)) as [<- | Hne].
    + rewrite Hg' in Ht. cbn in Ht. congruence.
    + rewrite lookup_insert_ne by done. by rewrite Hinj.
  - intros [= <- <-]. rewrite (storage_of_same w1 w2) by done.
    split; [intros o g'; by rewrite Hinj | done].
Qed.

(** C9, cache coherence.  In a world where every owner with an injected
    function has a bag (which is so when the storage is created, and is
    kept by both methods), a [getInjected(owner)] that succeeds ends in
    such a world again, where the cache holds a bag for the owner, the very
    bag a following [getInjections(owner)] returns; and either the function
    came from the cache, or the finalize strategy was applied to the bag
    that [getInjections] returned and stored. *)
Theorem cache_coherence go k (c : FunctionObject E) (this : Storage E) (owner : Value)
    (w w' : World E) (g : Value) :
  Produced h fuel go k c → STORAGE c = Some this →
  coherent this w →
  Injection.getInjected h this owner w = (Ok g, w') →
  coherent this w' ∧
  ∃ bag,
    injections (storage_of w' (maps this)) !! owner = Some bag ∧
    (alive h w' owner → Injection.getInjections h this owner w' = (Ok bag, w')) ∧
    ((w' = w ∧ injected (storage_of w (maps this)) !! owner = Some g) ∨
     ∃ w1 w2, Injection.getInjections h this owner w = (Ok bag, w1) ∧
              _getInjected this bag w1 = (Ok g, w2) ∧
              injected_set (maps this) owner g w2 = (Ok (), w')).
Proof.
  intros Hp Hs Hc Hg.
  destruct (Produced_storage _ _ _ _ _ _ Hp Hs) as [Hi Hd].
  destruct (getInjected_ok_inv _ _ _ _ _ _ Hg) as (Ha & Hr & Hl & [[-> Ht] | Hmiss]).
  - split; [done |]. destruct (Hc owner g Hl Ht) as (bag & Hb & Hbt).
    exists bag. split; [done |]. split; [| by left].
    intros Ha'. by apply getInjections_hit.
  - destruct Hmiss as (bag & w1 & w2 & Hb & Hfin & Hset).
    pose proof (coherent_getInjections _ _ _ _ _ Hi Hb Hc) as Hc1.
    destruct (getInjections_ok_inv _ _ _ _ _ _ Hb) as (_ & _ & Hbag & Hcase).
    assert (truthy bag = true) as Hbt.
    { destruct Hcase as [[_ ?] | (w0 & Hrun & _)]; [done |].
      by destruct (builder_injections_ref _ _ _ _ _ _ Hi Hrun) as [r ->]. }
    pose proof (finalizes_builder_injected h fuel _ bag Hd _ _ _ Hfin) as (_ & _ & Hst).
    destruct (injected_set_ok_inv _ _ _ _ _ _ Hset) as (_ & _ & Hsame & Hext & _).
    assert (injections (storage_of w' (maps this)) = injections (storage_of w1 (maps this)))
      as Hkeep by (by rewrite Hsame, (storage_of_same w1 w2)).
    assert (injections (storage_of w' (maps this)) !! owner = Some bag) as Hb'
      by (by rewrite Hkeep).
    split.
    + intros o g' Hg' Ht'. rewrite Hkeep.
      destruct (decide (o = owner)) as [-> | Hne]; [by exists bag |].
      apply (Hc1 o g'); [| done].
      revert Hset Hg'. unfold injected_set. rewrite Hr. intros [= <-].
      rewrite storage_of_insert. cbn. rewrite lookup_insert_ne by done.
      by rewrite (storage_of_same w1 w2).
    + exists bag. split; [done |]. split; [| right; by exists w1, w2].
      intros Ha'. by apply getInjections_hit.
Qed.

(** The invariant is kept by a [getInjected] that throws, too *)
Lemma coherent_getInjected_throw go k (c : FunctionObject E) (this : Storage E)
    (owner : Value) (w w' : World E) e :
  Produced h fuel go k c → STORAGE c = Some this →
  coherent this w →
  Injection.getInjected h this owner w = (Throw e, w') →
  coherent this w'.
Proof.
  intros Hp Hs Hc. destruct (Produced_storage _ _ _ _ _ _ Hp Hs) as [Hi Hd].
  unfold Injection.getInjected. rewrite guards_eq.
  destruct (_ && _); [by intros [= <- <-] |].
  unfold bind at 1. rewrite WeakMap_get_eq.
  destruct (truthy _) eqn:Ht; cbn; [discriminate |].
  intros H. apply bind_throw_inv in H as [H | (bag & w1 & Hb & H)].
  { by eapply coherent_getInjections. }
  pose proof (coherent_getInjections _ _ _ _ _ Hi Hb Hc) as Hc1.
  apply bind_throw_inv in H as [H | (g & w2 & Hfin & H)].
  - pose proof (finalizes_builder_injected h fuel _ bag Hd _ _ _ H) as (_ & _ & Hst).
    intros o g'. rewrite (storage_of_same w1 w') by done. apply Hc1.
  - pose proof (finalizes_builder_injected h fuel _ bag Hd _ _ _ Hfin) as (_ & _ & Hst).
    apply bind_throw_inv in H as [H | (u & w3 & _ & H)]; [| discriminate].
    revert H. unfold injected_set. destruct (is_reference owner); [discriminate |].
    intros [= <- <-]. intros o g'. rewrite (storage_of_same w1 w2) by done. apply Hc1.
Qed.

(** The invariant holds when the storage is created *)
Lemma coherent_created gi gd (w : World E) :
  coherent (storage_for gi gd w) (with_storage (next w) w).
Proof.
  intros o g. unfold with_storage. rewrite storage_of_insert. cbn.
  by rewrite lookup_empty.
Qed.
End Coherence.

(** Witness of [cache_coherence]: the first [getInjected] of a new
    constructor of [builder.into(f)] *)
Lemma cache_coherence_witness :
  let h := demo true in
  let this := storage_for (Builder.getInjections {| Builder.properties := 0 |})
                          (λ i, Function_bind (VFun 1) i) loaded in
  let w0 := with_storage 1 loaded in
  let w1 := snd (Injection.getInjected h this (VObj 0) w0) in
  coherent this w1 ∧
  ∃ bag,
    injections (storage_of w1 (maps this)) !! VObj 0 = Some bag ∧
    (alive h w1 (VObj 0) → Injection.getInjections h this (VObj 0) w1 = (Ok bag, w1)) ∧
    ((w1 = w0 ∧ injected (storage_of w0 (maps this)) !! VObj 0 = Some (VBound 3)) ∨
     ∃ wa wb, Injection.getInjections h this (VObj 0) w0 = (Ok bag, wa) ∧
              _getInjected this bag wa = (Ok (VBound 3), wb) ∧
              injected_set (maps this) (VObj 0) (VBound 3) wb = (Ok (), w1)).
Proof.
  intros h this w0 w1.
  apply (cache_coherence h 5 (getOwner h) (Into (VFun 1))
           (Manager.setHelperManager Manager.factory
              (constructor_for h 5 this (getOwner h) (Some "f"%string)))
           this (VObj 0) w0 w1 (VBound 3)).
  - apply (classic_into h 5 {| Builder.properties := 0 |} (VFun 1) loaded _ w0).
    by apply into_eq.
  - reflexivity.
  - apply (coherent_created (Builder.getInjections {| Builder.properties := 0 |})
             (λ i, Function_bind (VFun 1) i) loaded).
  - vm_compute; reflexivity.
Defined.

(** ** Memoization *)

Section Memoization.
Context {E : Type} (h : Host E).
Variable fuel : nat.
Local Abbreviation M := (@M E).

#[global] Instance keeps_preorder s : PreOrder (keeps (E := E) s).
Proof.
  split; [by intros w |].
  intros w1 w2 w3 [Hb1 Hf1] [Hb2 Hf2]. split.
  - intros o bag Hb Ht. apply Hb2; [by apply Hb1 | done].
  - intros o g Hg Ht. apply Hf2; [by apply Hf1 | done].
Qed.

Lemma keeps_same s (w w' : World E) : storages w' = storages w → keeps s w w'.
Proof. intros Hs. unfold keeps. by rewrite (storage_of_same w w'). Qed.

(** The two methods lose nothing, if the callbacks lose nothing: this is
    so whatever the callbacks are, and in particular for a callback that
    comes back to the methods of its storage. *)
Lemma getInjections_keeps (this : Storage E) owner :
  (∀ o, preserves (keeps (maps this)) (_getInjections this o)) →
  preserves (keeps (maps this)) (Injection.getInjections h this owner).
Proof.
  intros Hgi w r w'. unfold Injection.getInjections. rewrite guards_eq.
  destruct (_ && _); [by intros [= <- <-] |].
  unfold bind at 1. rewrite WeakMap_get_eq.
  destruct (truthy _) eqn:Ht; cbn; [by intros [= <- <-] |].
  unfold bind at 1.
  destruct (_getInjections this owner w) as [[b|e] w1] eqn:Hrun;
    pose proof (Hgi owner w _ _ Hrun) as [Hb Hf]; [| by intros [= <- <-]].
  unfold bind, injections_set. destruct (is_reference owner) eqn:Hr; cbn;
    intros [= <- <-]; [| done].
  split; intros o v Hv Hvt; rewrite storage_of_insert; cbn; [| by apply Hf].
  destruct (decide (owner = o)) as [<- | Hne].
  - rewrite Hv in Ht. cbn in Ht. congruence.
  - rewrite lookup_insert_ne by done. by apply Hb.
Qed.

Lemma getInjected_keeps (this : Storage E) owner :
  (∀ o, preserves (keeps (maps this)) (_getInjections this o)) →
  (∀ bag, preserves (keeps (maps this)) (_getInjected this bag)) →
  preserves (keeps (maps this)) (Injection.getInjected h this owner).
Proof.
  intros Hgi Hgd w r w'. unfold Injection.getInjected. rewrite guards_eq.
  destruct (_ && _); [by intros [= <- <-] |].
  unfold bind at 1. rewrite WeakMap_get_eq.
  destruct (truthy _) eqn:Ht; cbn -[Injection.getInjections]; [by intros [= <- <-] |].
  unfold bind at 1.
  destruct (Injection.getInjections h this owner w) as [[bag|e] w1] eqn:Hb;
    pose proof (getInjections_keeps this owner Hgi w _ _ Hb) as Hk1;
    [| by intros [= <- <-]].
  unfold bind at 1.
  destruct (_getInjected this bag w1) as [[g|e] w2] eqn:Hfin;
    pose proof (Hgd bag w1 _ _ Hfin) as Hk2;
    [| intros [= <- <-]; by etrans].
  assert (keeps (maps this) w w2) as [Hb2 Hf2] by (by etrans).
  unfold bind, injected_set. destruct (is_reference owner) eqn:Hr;
    intros [= <- <-]; [| done].
  split; intros o v Hv Hvt; rewrite storage_of_insert; cbn; [by apply Hb2 |].
  destruct (decide (owner = o)) as [<- | Hne].
  - rewrite Hv in Ht. cbn in Ht. congruence.
  - rewrite lookup_insert_ne by done. by apply Hf2.
Qed.

(** The callbacks of the builders lose nothing *)
Lemma Produced_keeps go k (c : FunctionObject E) (this : Storage E) :
  Produced h fuel go k c → STORAGE c = Some this →
  (∀ o, preserves (keeps (maps this)) (_getInjections this o)) ∧
  (∀ bag, preserves (keeps (maps this)) (_getInjected this bag)).
Proof.
  intros Hp Hs. destruct (Produced_storage _ _ _ _ _ _ Hp Hs) as [Hi Hd]. split.
  - intros o w r w' Hrun. apply keeps_same.
    by pose proof (builds_builder_injections h _ o Hi _ _ _ Hrun) as (_ & _ & Hst & _).
  - intros bag w r w' Hrun. apply keeps_same.
    by pose proof (finalizes_builder_injected h fuel _ bag Hd _ _ _ Hrun) as (_ & _ & Hst).
Qed.

(** C1 as amended, memoization.  For a constructor made by [into] or
    [build] and an owner:
    when [getInjections(owner)] has returned a bag, a call that starts
    where it ended (the owner being neither in destruction nor destroyed)
    returns the same bag and leaves the world untouched: no rule runs;
    when [getInjected(owner)] has returned a function, a call that starts
    where it ended returns the same function and leaves the world
    untouched: neither the rules nor the finalize strategy run;
    what the cache holds, for any owner, when a call of either method
    starts, it still holds when the call ends, whatever the outcome;
    a call that finds no bag runs the rules and stores what they return,
    and when they throw it throws the same, in the world they left, having
    stored nothing;
    a call that finds no function obtains the bag, runs the finalize
    strategy on it and stores what it returns, and when the strategy throws
    it throws the same, in the world the strategy left, having stored
    nothing: a following call that finds no function runs it again. *)
Theorem memoization_after_return go k (c : FunctionObject E) (this : Storage E)
    (owner : Value) :
  Produced h fuel go k c → STORAGE c = Some this →
  (∀ (w : World E) bag w1,
     Injection.getInjections h this owner w = (Ok bag, w1) → alive h w1 owner →
     Injection.getInjections h this owner w1 = (Ok bag, w1)) ∧
  (∀ (w : World E) g w1,
     Injection.getInjected h this owner w = (Ok g, w1) → truthy g = true →
     alive h w1 owner →
     Injection.getInjected h this owner w1 = (Ok g, w1)) ∧
  (∀ owner' (wa : World E) res wb,
     Injection.getInjections h this owner' wa = (res, wb) ∨
     Injection.getInjected h this owner' wa = (res, wb) →
     keeps (maps this) wa wb) ∧
  (∀ w : World E,
     passes h w owner →
     truthy (default VUndefined (injections (storage_of w (maps this)) !! owner)) = false →
     Injection.getInjections h this owner w =
     (let* bag := _getInjections this owner in
      injections_set (maps this) owner bag >> ret bag) w ∧
     ∀ e w1, _getInjections this owner w = (Throw e, w1) →
             Injection.getInjections h this owner w = (Throw e, w1)) ∧
  (∀ w : World E,
     passes h w owner →
     truthy (default VUndefined (injected (storage_of w (maps this)) !! owner)) = false →
     Injection.getInjected h this owner w =
     (let* bag := Injection.getInjections h this owner in
      let* g := _getInjected this bag in
      injected_set (maps this) owner g >> ret g) w ∧
     ∀ bag w1 e w2,
       Injection.getInjections h this owner w = (Ok bag, w1) →
       _getInjected this bag w1 = (Throw e, w2) →
       Injection.getInjected h this owner w = (Throw e, w2)).
Proof.
  intros Hp Hs.
  destruct (Produced_storage _ _ _ _ _ _ Hp Hs) as [Hi Hd].
  destruct (Produced_keeps _ _ _ _ Hp Hs) as [Hgi Hgd].
  split; [| split; [| split; [| split]]].
  - intros w bag w1 Hb Ha.
    destruct (getInjections_ok_inv _ _ _ _ _ _ Hb) as (_ & Hr & Hl & Hcase).
    apply getInjections_hit; [done | done | done |].
    destruct Hcase as [[_ Ht]|(w2 & Hrun & _)]; [done |].
    by destruct (builder_injections_ref _ _ _ _ _ _ Hi Hrun) as [r ->].
  - intros w g w1 Hg Ht Ha.
    destruct (getInjected_ok_inv _ _ _ _ _ _ Hg) as (_ & Hr & Hl & _).
    by apply getInjected_hit.
  - intros owner' wa res wb [Hrun | Hrun].
    + by apply (getInjections_keeps this owner' Hgi wa res wb).
    + by apply (getInjected_keeps this owner' Hgi Hgd wa res wb).
  - intros w Hpass Hmiss.
    pose proof (getInjections_miss h this owner w Hpass Hmiss) as Heq.
    split; [done |]. intros e w1 Hrun. rewrite Heq.
    by rewrite (bind_throw _ _ _ _ _ Hrun).
  - intros w Hpass Hmiss.
    pose proof (getInjected_miss h this owner w Hpass Hmiss) as Heq.
    split; [done |]. intros bag w1 e w2 Hb Hrun. rewrite Heq.
    rewrite (bind_ok _ _ _ _ _ Hb). by rewrite (bind_throw _ _ _ _ _ Hrun).
Qed.
End Memoization.

Lemma loaded_eq : default_Builder (init_world []) = (Ok {| Builder.properties := 0 |}, loaded).
Proof. reflexivity. Qed.

(** Witness of [memoization_after_return]: the constructor of
    [builder.into(f)], instantiated twice for owner 0 *)
Lemma memoization_witness :
  let h := demo true in
  let this := storage_for (Builder.getInjections {| Builder.properties := 0 |})
                          (λ i, Function_bind (VFun 1) i) loaded in
  let w0 := with_storage 1 loaded in
  let w1 := snd (Injection.getInjections h this (VObj 0) w0) in
  let w2 := snd (Injection.getInjected h this (VObj 0) w1) in
  Injection.getInjections h this (VObj 0) w1 = (Ok (VRef 2), w1) ∧
  Injection.getInjected h this (VObj 0) w2 = (Ok (VBound 3), w2) ∧
  keeps (maps this) w0 w2.
Proof.
  intros h this w0 w1 w2.
  destruct (memoization_after_return h 5 (getOwner h) (Into (VFun 1))
              (Manager.setHelperManager Manager.factory
                 (constructor_for h 5 this (getOwner h) (Some "f"%string)))
              this (VObj 0)) as (H1 & H2 & H3 & _).
  - apply (classic_into h 5 {| Builder.properties := 0 |} (VFun 1) loaded _ w0).
    by apply into_eq.
  - reflexivity.
  - split; [| split].
    + apply (H1 w0 (VRef 2) w1); [vm_compute; reflexivity |].
      split; vm_compute; reflexivity.
    + apply (H2 w1 (VBound 3) w2); [vm_compute; reflexivity | reflexivity |].
      split; vm_compute; reflexivity.
    + etrans.
      * apply (H3 (VObj 0) w0 (Ok (VRef 2)) w1). left. vm_compute; reflexivity.
      * apply (H3 (VObj 0) w1 (Ok (VBound 3)) w2). right. vm_compute; reflexivity.
Defined.

(** Counterexample to C1 as stated: with [builder.build(() => { throw
    'boom' })], two calls of [getInjected] for the same live owner both
    throw, and the finalize callback has run twice on the same bag. *)
Lemma memoization_counterexample :
  let h := demo true in
  let this := storage_for (Builder.getInjections {| Builder.properties := 0 |})
                          (λ i, call h 5 (VFun 2) VUndefined [i]) loaded in
  let w0 := with_storage 1 loaded in
  ∃ c w1 w2,
    Builder.build h 5 {| Builder.properties := 0 |} (VFun 2) loaded = (Ok c, w0) ∧
    STORAGE c = Some this ∧
    alive h w0 (VObj 0) ∧
    Injection.getInjected h this (VObj 0) w0 = (Throw (Thrown (VStr "boom")), w1) ∧
    alive h w1 (VObj 0) ∧
    Injection.getInjected h this (VObj 0) w1 = (Throw (Thrown (VStr "boom")), w2) ∧
    ∃ this1 this2, invocations w2 = [EvCall 2 this1 [VRef 2]; EvCall 2 this2 [VRef 2]].
Proof.
  intros h this w0. eexists _, _, _.
  split; [by apply build_eq |]. split; [reflexivity |].
  split; [split; vm_compute; reflexivity |].
  split; [vm_compute; reflexivity |].
  split; [split; vm_compute; reflexivity |].
  split; [vm_compute; reflexivity |].
  eexists _, _. vm_compute; reflexivity.
Qed.

(** ** The constructor *)

Section ConstructorCode.
Context {E : Type} (h : Host E).
Variable fuel : nat.
Local Abbreviation M := (@M E).

#[global] Instance quiet_preorder : PreOrder (quiet (E := E)).
Proof.
  split; [by intros w |]. intros w1 w2 w3 H1 H2. unfold quiet in *. congruence.
Qed.

(** With [new], both variants of the constructor run
    [storage.getInjected(args[0])] *)
Lemma code_new st go name this args :
  fn_code (Injection.makeConstructor h fuel st go name) true this args =
  Injection.getInjected h st (Injection.first args).
Proof. unfold Injection.makeConstructor. by destruct (_ && _). Qed.

(** Without [new]: the checked variant of a development build with a name *)
Lemma code_call_checked st go name this args :
  isDevelopingApp h && Injection.name_given name = true →
  fn_code (Injection.makeConstructor h fuel st go name) false this args =
  (assert h ("cannot call " ++ default "" name ++ " without a context object; it must be called with a `this` object with an owner")%string
          (is_object this) >>
   let* owner := lift (fun e => go e this) in
   assert h ("cannot call " ++ default "" name ++ " with an invalid context object; it must be called with a `this` object with an owner")%string
          (truthy owner) >>
   let* injected := Injection.getInjected h st owner in
   call h fuel injected VUndefined args).
Proof. unfold Injection.makeConstructor. by intros ->. Qed.

(** Without [new]: the unchecked variant of every other case *)
Lemma code_call_unchecked st go name this args :
  isDevelopingApp h && Injection.name_given name = false →
  fn_code (Injection.makeConstructor h fuel st go name) false this args =
  (let* owner := lift (fun e => go e this) in
   let* injected := Injection.getInjected h st owner in
   call h fuel injected VUndefined args).
Proof. unfold Injection.makeConstructor. by intros ->. Qed.

Lemma quiet_builds {A} (m : M A) : preserves builds m → preserves quiet m.
Proof. intros Hm w r w' H. by destruct (Hm w r w' H) as (_ & _ & _ & ?). Qed.

Lemma quiet_silent {A} (m : M A) :
  (∀ w r w', m w = (r, w') → trace w' = trace w) → preserves quiet m.
Proof. intros Hm w r w' H. unfold quiet, invocations. by rewrite (Hm w r w' H). Qed.

Lemma quiet_new_object : preserves quiet (new_object (E := E)).
Proof. apply quiet_silent. by intros w r w' [= <- <-]. Qed.

Lemma quiet_getInjections (this : Storage E) owner :
  builder_injections h (_getInjections this) →
  preserves quiet (Injection.getInjections h this owner).
Proof.
  intros Hi. unfold Injection.getInjections.
  apply preserves_bind; [apply _ | apply preserves_ask, _ | intros ?].
  apply preserves_bind; [apply _ | apply preserves_assert, _ | intros _].
  apply preserves_bind; [apply _ | apply preserves_ask, _ | intros ?].
  apply preserves_bind; [apply _ | apply preserves_assert, _ | intros _].
  apply preserves_bind; [apply _ | | intros v].
  { apply quiet_silent. intros w r w'. rewrite WeakMap_get_eq. by intros [= <- <-]. }
  destruct (negb (truthy v)); [| apply preserves_ret, _].
  apply preserves_bind; [apply _ | | intros b].
  { by apply quiet_builds, (builds_builder_injections h). }
  apply preserves_bind; [apply _ | | intros _; apply preserves_ret, _].
  apply quiet_silent. intros w r w'. unfold injections_set.
  destruct (is_reference owner); by intros [= <- <-].
Qed.

Lemma quiet_getInjected_into (this : Storage E) fn owner :
  builder_injections h (_getInjections this) →
  _getInjected this = finalizer h fuel (Into fn) →
  preserves quiet (Injection.getInjected h this owner).
Proof.
  intros Hi Hd. unfold Injection.getInjected.
  apply preserves_bind; [apply _ | apply preserves_ask, _ | intros ?].
  apply preserves_bind; [apply _ | apply preserves_assert, _ | intros _].
  apply preserves_bind; [apply _ | apply preserves_ask, _ | intros ?].
  apply preserves_bind; [apply _ | apply preserves_assert, _ | intros _].
  apply preserves_bind; [apply _ | | intros v].
  { apply quiet_silent. intros w r w'. rewrite WeakMap_get_eq. by intros [= <- <-]. }
  destruct (negb (truthy v)); [| apply preserves_ret, _].
  apply preserves_bind; [apply _ | by apply quiet_getInjections | intros b].
  apply preserves_bind; [apply _ | | intros g].
  { rewrite Hd. cbn. apply quiet_silent. intros w r w'. unfold Function_bind.
    destruct (is_callable fn); by intros [= <- <-]. }
  apply preserves_bind; [apply _ | | intros _; apply preserves_ret, _].
  apply quiet_silent. intros w r w'. unfold injected_set.
  destruct (is_reference owner); by intros [= <- <-].
Qed.
End ConstructorCode.

Section DualInvocation.
Context {E : Type} (h : Host E).
Variable fuel : nat.
Local Abbreviation M := (@M E).

Lemma is_reference_truthy v : is_reference v = true → truthy v = true.
Proof. by destruct v. Qed.

Lemma is_callable_reference v : is_callable v = true → is_reference v = true.
Proof. by destruct v. Qed.

(** [new c(owner)] for a constructor of storage [st] *)
Lemma construct_inv st go name owner (w : World E) g w1 :
  construct (Manager.setHelperManager Manager.factory (constructor_for h fuel st go name))
            [owner] w = (Ok g, w1) →
  is_callable g = true →
  ∃ w0, new_object w = (Ok (next w), w0) ∧
        Injection.getInjected h st owner w0 = (Ok g, w1).
Proof.
  unfold construct. intros H Hc.
  apply bind_ok_inv in H as (this & w0 & Hnew & H).
  apply bind_ok_inv in H as (r & w2 & Hrun & H).
  cbn in Hrun. rewrite code_new in Hrun. injection H as <- <-.
  exists w0. split; [by injection Hnew as <- <- |].
  destruct (is_reference r); [done | discriminate].
Qed.

(** C3, dual invocation modes.  For a constructor made by [into(fn)]:
    when [new c(owner)] returns a function [g], then [g] is the injected
    function the cache holds for [owner], no service was looked up and no
    function called on the way, and calling the constructor plainly on a
    receiver object from which the owner-resolution function resolves
    [owner] is the same computation as calling [g] with the same
    arguments. *)
Theorem dual_invocation go fn (c : FunctionObject E) (this : Storage E)
    (owner receiver : Value) (args : list Value) (w w1 : World E) (g : Value) :
  Produced h fuel go (Into fn) c → STORAGE c = Some this →
  construct c [owner] w = (Ok g, w1) → is_callable g = true →
  is_object receiver = true → go (ext w1) receiver = Ok owner → alive h w1 owner →
  injected (storage_of w1 (maps this)) !! owner = Some g ∧
  quiet w w1 ∧
  apply c receiver args w1 = call h fuel g VUndefined args w1.
Proof.
  intros Hp Hs Hnew Hc Hobj Hgo Ha.
  apply Produced_inv in Hp as (st & name & -> & Hi & Hd).
  cbn in Hs. injection Hs as <-.
  apply construct_inv in Hnew as (w0 & Hobj0 & Hg); [| done].
  destruct (getInjected_ok_inv _ _ _ _ _ _ Hg) as (_ & Hr & Hl & _).
  assert (Injection.getInjected h st owner w1 = (Ok g, w1)) as Hhit.
  { apply getInjected_hit; try done. by apply is_reference_truthy, is_callable_reference. }
  split; [done |]. split.
  - etrans; [by eapply quiet_new_object |].
    by eapply (quiet_getInjected_into h fuel st fn owner).
  - unfold apply. cbn.
    destruct (isDevelopingApp h && Injection.name_given name) eqn:Hdev.
    + rewrite code_call_checked by done.
      rewrite Hobj, assert_true. unfold bind at 1, ret at 1.
      unfold bind at 1, lift. rewrite Hgo. cbn -[Injection.getInjected call].
      rewrite (is_reference_truthy _ Hr), assert_true. unfold bind at 1, ret at 1.
      unfold bind. by rewrite Hhit.
    + rewrite code_call_unchecked by done.
      unfold bind, lift. rewrite Hgo. cbn -[Injection.getInjected call].
      by rewrite Hhit.
Qed.
End DualInvocation.

(** Witness of [dual_invocation]: [builder.service('config')
    .property('computedX', ...).into(f)], instantiated for owner 0 and
    called on object 7 with the argument 3 *)
Lemma dual_invocation_witness :
  let h := demo true in
  let w := snd ((let* b1 := Builder.service {| Builder.properties := 0 |} "config" None in
                 Builder.property b1 "computedX" (VFun 0)) loaded) in
  let this := storage_for (Builder.getInjections {| Builder.properties := 2 |})
                          (λ i, Function_bind (VFun 1) i) w in
  let c := Manager.setHelperManager Manager.factory
             (constructor_for h 5 this (getOwner h) (Some "f"%string)) in
  let w0 := with_storage 3 w in
  let w1 := snd (construct c [VObj 0] w0) in
  injected (storage_of w1 (maps this)) !! VObj 0 = Some (VBound 8) ∧
  quiet w0 w1 ∧
  apply c (VObj 7) [VNum 3] w1 = call h 5 (VBound 8) VUndefined [VNum 3] w1 ∧
  fst (call h 5 (VBound 8) VUndefined [VNum 3] w1) = Ok (VNum 18).
Proof.
  intros h w this c w0 w1.
  pose proof (dual_invocation h 5 (getOwner h) (VFun 1) c this (VObj 0) (VObj 7)
                [VNum 3] w0 w1 (VBound 8)) as H.
  destruct H as (H1 & H2 & H3).
  - apply (classic_into h 5 {| Builder.properties := 2 |} (VFun 1) w _ w0).
    by apply into_eq.
  - reflexivity.
  - vm_compute; reflexivity.
  - reflexivity.
  - reflexivity.
  - reflexivity.
  - split; vm_compute; reflexivity.
  - split; [exact H1 |]. split; [exact H2 |]. split; [exact H3 |].
    vm_compute; reflexivity.
Defined.

Section DirectCall.
Context {E : Type} (h : Host E).
Variable fuel : nat.
Local Abbreviation M := (@M E).

(** For an owner that is no object, [getInjected] always throws: the
    weak maps refuse the key, if nothing fails before. *)
Lemma getInjected_non_reference (this : Storage E) owner (w : World E) :
  is_reference owner = false →
  ∃ e w', Injection.getInjected h this owner w = (Throw e, w').
Proof.
  intros Hr.
  destruct (Injection.getInjected h this owner w) as [[g|e] w'] eqn:H; [| by eexists _, _].
  apply getInjected_ok_inv in H as (_ & Hr' & _). congruence.
Qed.

(** C5 as amended, the direct call.  For a constructor made by [into] or
    [build] and called without [new]:
    in a development build and when the constructor has a name, the call
    fails with an assertion error, before anything else happens, if the
    receiver is not an object or if the owner-resolution function returns
    no owner for it, and otherwise it is the call of the injected function
    of the resolved owner with all the arguments;
    in a production build neither check is made: the owner-resolution
    function is applied to whatever the receiver is and the injected
    function of its result is called; the call still throws when the
    result is no object. *)
Theorem direct_call go k (c : FunctionObject E) (this : Storage E)
    (receiver : Value) (args : list Value) (w : World E) :
  Produced h fuel go k c → STORAGE c = Some this →
  (isDevelopingApp h = true → fn_name c ≠ ""%string →
   (is_object receiver = false →
    ∃ msg, apply c receiver args w = (Throw (AssertionError msg), w)) ∧
   (∀ owner, is_object receiver = true → go (ext w) receiver = Ok owner →
    (truthy owner = false →
     ∃ msg, apply c receiver args w = (Throw (AssertionError msg), w)) ∧
    (truthy owner = true →
     apply c receiver args w =
     (let* injected := Injection.getInjected h this owner in
      call h fuel injected VUndefined args) w))) ∧
  (isDevelopingApp h = false →
   apply c receiver args w =
   (let* owner := lift (fun e => go e receiver) in
    let* injected := Injection.getInjected h this owner in
    call h fuel injected VUndefined args) w ∧
   (∀ owner, go (ext w) receiver = Ok owner → is_reference owner = false →
    ∃ e w', apply c receiver args w = (Throw e, w'))).
Proof.
  intros Hp Hs.
  apply Produced_inv in Hp as (st & name & -> & Hi & Hd).
  cbn in Hs. injection Hs as <-. unfold apply. cbn [Manager.setHelperManager constructor_for fn_code fn_name].
  split.
  - intros Hdev Hname.
    assert (isDevelopingApp h && Injection.name_given name = true) as Hchecked.
    { rewrite Hdev. cbn. revert Hname. unfold Injection.makeConstructor.
      rewrite Hdev. cbn. destruct (Injection.name_given name); [done | by intros []]. }
    rewrite code_call_checked by done. split.
    + intros Hobj. rewrite Hobj, assert_false by done. by eexists.
    + intros owner Hobj Hgo. rewrite Hobj, assert_true.
      split; intros Ht; unfold bind at 1, ret at 1; unfold bind at 1, lift;
        rewrite Hgo, Ht.
      * rewrite assert_false by done. by eexists.
      * by rewrite assert_true.
  - intros Hprod.
    rewrite code_call_unchecked by (by rewrite Hprod).
    split; [done |]. intros owner Hgo Hr.
    unfold bind at 1, lift. rewrite Hgo. cbn -[Injection.getInjected call].
    destruct (getInjected_non_reference st owner w Hr) as (e & w' & Hthrow).
    rewrite (bind_throw _ _ _ _ _ Hthrow). by eexists _, _.
Qed.
End DirectCall.

(** Witness of [direct_call]: the constructor of [builder.into(id)], in a
    development build (called on function 9, on the ownerless object 8 and
    on object 7) and in a production build (called on object 8) *)
Lemma direct_call_witness :
  let this := storage_for (Builder.getInjections {| Builder.properties := 0 |})
                          (λ i, Function_bind (VFun 4) i) loaded in
  let w0 := with_storage 1 loaded in
  let c dev := Manager.setHelperManager Manager.factory
                 (constructor_for (demo dev) 5 this (getOwner (demo dev)) (Some "id"%string)) in
  (∃ msg, apply (c true) (VFun 9) [VNum 3] w0 = (Throw (AssertionError msg), w0)) ∧
  (∃ msg, apply (c true) (VObj 8) [VNum 3] w0 = (Throw (AssertionError msg), w0)) ∧
  apply (c true) (VObj 7) [VNum 3] w0 =
    (let* injected := Injection.getInjected (demo true) this (VObj 0) in
     call (demo true) 5 injected VUndefined [VNum 3]) w0 ∧
  (∃ e w', apply (c false) (VObj 8) [VNum 3] w0 = (Throw e, w')).
Proof.
  intros this w0 c.
  assert (∀ dev, Produced (demo dev) 5 (getOwner (demo dev)) (Into (VFun 4)) (c dev)) as Hp.
  { intros dev.
    apply (classic_into (demo dev) 5 {| Builder.properties := 0 |} (VFun 4) loaded _ w0).
    by apply into_eq. }
  split; [| split; [| split]].
  - destruct (direct_call (demo true) 5 _ _ (c true) this (VFun 9) [VNum 3] w0
                (Hp true) eq_refl) as [Hdev _].
    destruct (Hdev eq_refl) as [Hno _]; [done |]. by apply Hno.
  - destruct (direct_call (demo true) 5 _ _ (c true) this (VObj 8) [VNum 3] w0
                (Hp true) eq_refl) as [Hdev _].
    destruct (Hdev eq_refl) as [_ Hobj]; [done |].
    by destruct (Hobj VUndefined eq_refl eq_refl) as [Hnone _]; apply Hnone.
  - destruct (direct_call (demo true) 5 _ _ (c true) this (VObj 7) [VNum 3] w0
                (Hp true) eq_refl) as [Hdev _].
    destruct (Hdev eq_refl) as [_ Hobj]; [done |].
    by destruct (Hobj (VObj 0) eq_refl eq_refl) as [_ Hsome]; apply Hsome.
  - destruct (direct_call (demo false) 5 _ _ (c false) this (VObj 8) [VNum 3] w0
                (Hp false) eq_refl) as [_ Hprod].
    destruct (Hprod eq_refl) as [_ Hthrow]. by apply (Hthrow VUndefined).
Defined.

(** Counterexample to C5 as stated.  Function 9 has an owner, and as a
    receiver it is not an object: its [typeof] is ['function'], and the
    constructor of [builder.into(id)] rejects it in a development build.
    In a production build the same constructor does not abort on it, it
    returns what [id] returns; and in a development build the constructor
    of [builder.build((injections) => id)], whose callback has no name,
    does not abort on it either. *)
Lemma direct_call_counterexample :
  let this := storage_for (Builder.getInjections {| Builder.properties := 0 |})
                          (λ i, Function_bind (VFun 4) i) loaded in
  let w0 := with_storage 1 loaded in
  let c dev := Manager.setHelperManager Manager.factory
                 (constructor_for (demo dev) 5 this (getOwner (demo dev)) (Some "id"%string)) in
  let unnamed :=
    Manager.setHelperManager Manager.factory
      (constructor_for (demo true) 5
         (storage_for (Builder.getInjections {| Builder.properties := 0 |})
                      (λ i, call (demo true) 5 (VFun 3) VUndefined [i]) loaded)
         (getOwner (demo true)) (Some ""%string)) in
  Builder.into (demo false) 5 {| Builder.properties := 0 |} (VFun 4) loaded = (Ok (c false), w0) ∧
  Builder.into (demo true) 5 {| Builder.properties := 0 |} (VFun 4) loaded = (Ok (c true), w0) ∧
  Builder.build (demo true) 5 {| Builder.properties := 0 |} (VFun 3) loaded = (Ok unnamed, w0) ∧
  is_object (VFun 9) = false ∧
  fst (apply (c true) (VFun 9) [VNum 3] w0) =
    Throw (AssertionError "cannot call id without a context object; it must be called with a `this` object with an owner") ∧
  fst (apply (c false) (VFun 9) [VNum 3] w0) = Ok (VNum 3) ∧
  fst (apply unnamed (VFun 9) [VNum 3] w0) = Ok (VNum 3).
Proof.
  intros this w0 c unnamed.
  split; [by apply into_eq |]. split; [by apply into_eq |]. split; [by apply build_eq |].
  split; [done |]. split; [vm_compute; reflexivity |].
  split; vm_compute; reflexivity.
Qed.

(** Witness of [destruction_guard]: in a development build, owner 0 is
    destroyed after its bag and its function were cached *)
Lemma destruction_guard_witness :
  let h := demo true in
  let this := storage_for (Builder.getInjections {| Builder.properties := 0 |})
                          (λ i, Function_bind (VFun 1) i) loaded in
  let w1 := snd (Injection.getInjected h this (VObj 0) (with_storage 1 loaded)) in
  let w2 := set_ext [VObj 0] w1 in
  (injections (storage_of w2 1) !! VObj 0 = Some (VRef 2) ∧
   injected (storage_of w2 1) !! VObj 0 = Some (VBound 3)) ∧
  (∃ msg, Injection.getInjections h this (VObj 0) w2 = (Throw (AssertionError msg), w2)) ∧
  (∃ msg, Injection.getInjected h this (VObj 0) w2 = (Throw (AssertionError msg), w2)).
Proof.
  intros h this w1 w2. split; [split; vm_compute; reflexivity |].
  apply (destruction_guard h this (VObj 0) w2); [vm_compute; reflexivity | reflexivity].
Defined.

(** Counterexample to C2 as stated: in a production build, owner 0 is
    destroyed after its bag and its function were cached, and both methods
    return them *)
Lemma destruction_guard_counterexample :
  let h := demo false in
  let this := storage_for (Builder.getInjections {| Builder.properties := 0 |})
                          (λ i, Function_bind (VFun 1) i) loaded in
  let w1 := snd (Injection.getInjected h this (VObj 0) (with_storage 1 loaded)) in
  let w2 := set_ext [VObj 0] w1 in
  isDestroyed h (ext w2) (VObj 0) = true ∧
  Injection.getInjections h this (VObj 0) w2 = (Ok (VRef 2), w2) ∧
  Injection.getInjected h this (VObj 0) w2 = (Ok (VBound 3), w2).
Proof.
  intros h this w1 w2. split; [| split]; vm_compute; reflexivity.
Qed.

Section Tagging.
Context {E : Type} (h : Host E).
Variable fuel : nat.
Local Abbreviation M := (@M E).

Lemma accepted_constructor st go name :
  accepted h (Manager.setHelperManager Manager.factory (constructor_for h fuel st go name)).
Proof.
  split; [by apply bool_decide_eq_true_2 |].
  intros manager args w. unfold Manager.createHelper.
  erewrite (bind_ok _ _ w () w); [done |].
  unfold Injection.isInjectable. cbn [INJECTABLE Manager.setHelperManager constructor_for].
  by rewrite (bool_decide_eq_true_2 (VBool true = VBool true)), assert_true.
Qed.

(** C10, injectable tagging.  [constructorFor] always returns, and what it
    returns carries the marker.  Whatever [into] and [build] of the two
    builders return carries the marker, and [createHelper] goes past its
    assertion for it; given a function they do return; and when they throw,
    the read of the name of their argument has thrown (it does on
    undefined and on null), not the assertion of [helperFor]. *)
Theorem injectable_tagging :
  (∀ gi gd go name (w : World E),
     ∃ c w', Injection.constructorFor h fuel gi gd go name w = (Ok c, w') ∧
             Injection.isInjectable c = true) ∧
  (∀ fn (w : World E) c w',
     (∃ this, Builder.into h fuel this fn w = (Ok c, w')) ∨
     (∃ this, Builder.build h fuel this fn w = (Ok c, w')) ∨
     (∃ this, Polaris.into h fuel this fn w = (Ok c, w')) ∨
     (∃ this, Polaris.build h fuel this fn w = (Ok c, w')) →
     accepted h c) ∧
  (∀ fn (w : World E),
     is_callable fn = true →
     (∀ this, ∃ c w', Builder.into h fuel this fn w = (Ok c, w')) ∧
     (∀ this, ∃ c w', Builder.build h fuel this fn w = (Ok c, w')) ∧
     (∀ this, ∃ c w', Polaris.into h fuel this fn w = (Ok c, w')) ∧
     (∀ this, ∃ c w', Polaris.build h fuel this fn w = (Ok c, w'))) ∧
  (∀ fn (w : World E) e w',
     (∃ this, Builder.into h fuel this fn w = (Throw e, w')) ∨
     (∃ this, Builder.build h fuel this fn w = (Throw e, w')) ∨
     (∃ this, Polaris.into h fuel this fn w = (Throw e, w')) ∨
     (∃ this, Polaris.build h fuel this fn w = (Throw e, w')) →
     get_name h fuel fn w = (Throw e, w')).
Proof.
  split; [| split; [| split]].
  - intros. eexists _, _. split; [apply constructorFor_eq |].
    apply isInjectable_constructor_for.
  - intros fn w c w' [[this H] | [[this H] | [[this H] | [this H]]]].
    + apply into_inv in H as (name & w1 & _ & -> & _). apply accepted_constructor.
    + apply build_inv in H as (name & w1 & _ & -> & _). apply accepted_constructor.
    + apply polaris_into_inv in H as (name & w1 & _ & -> & _). apply accepted_constructor.
    + apply polaris_build_inv in H as (name & w1 & _ & -> & _). apply accepted_constructor.
  - intros fn w Hc. split; [| split; [| split]]; intros this; eexists _, _.
    + by apply into_eq.
    + by apply build_eq.
    + by apply polaris_into_eq.
    + by apply polaris_build_eq.
  - intros fn w e w' H.
    destruct H as [[this H] | [[this H] | [[this H] | [this H]]]];
      by apply finalize_throw in H.
Qed.
End Tagging.

(** Witness of [injectable_tagging]: [builder.into(f)] *)
Lemma injectable_tagging_witness :
  ∃ c w', Builder.into (demo true) 5 {| Builder.properties := 0 |} (VFun 1) loaded = (Ok c, w') ∧
          accepted (demo true) c.
Proof.
  destruct (injectable_tagging (demo true) 5) as (_ & Hacc & Hret & _).
  destruct (Hret (VFun 1) loaded eq_refl) as (Hinto & _).
  destruct (Hinto {| Builder.properties := 0 |}) as (c & w' & H).
  exists c, w'. split; [exact H |].
  apply (Hacc (VFun 1) loaded c w'). left. by exists {| Builder.properties := 0 |}.
Defined.

(** ** The builders *)

Section BuilderFacts.
Context {E : Type} (h : Host E).
Variable fuel : nat.
Local Abbreviation M := (@M E).

Lemma new_array_appends a rule rules (w : World E) :
  allocated w → arrays w !! a = Some rules →
  ∃ w', new_array (rules ++ [rule]) w = (Ok (next w), w') ∧
        appends a rule w (next w) w'.
Proof.
  intros Hall Ha. eexists. split; [reflexivity |].
  assert (arrays w !! next w = None) as Hfresh.
  { destruct (arrays w !! next w) eqn:Hn; [| done].
    assert (next w < next w) by (apply Hall; by rewrite Hn). lia. }
  exists rules. cbn. split; [done |]. split; [by rewrite lookup_insert_eq |].
  split; [done |]. split.
  - intros x Hx. by rewrite lookup_insert_ne.
  - intros x. cbn. destruct (decide (x = next w)) as [-> | Hne]; [lia |].
    rewrite lookup_insert_ne by done. intros Hx. apply Hall in Hx. lia.
Qed.

Lemma extend_appends a rule rules (w : World E) :
  allocated w → arrays w !! a = Some rules →
  ∃ a' w', Builder.extend {| Builder.properties := a |} rule w =
             (Ok {| Builder.properties := a' |}, w') ∧
           appends a rule w a' w'.
Proof.
  intros Hall Ha.
  destruct (new_array_appends a rule rules w Hall Ha) as (w' & Hnew & Happ).
  exists (next w), w'. split; [| done].
  unfold Builder.extend, bind, read_array. cbn. rewrite Ha.
  unfold bind in Hnew. cbn in Hnew. injection Hnew as <-. done.
Qed.

Lemma polaris_extend_appends a rule rules (w : World E) :
  allocated w → arrays w !! a = Some rules →
  ∃ a' w', Polaris.extend {| Polaris.properties := a |} rule w =
             (Ok {| Polaris.properties := a' |}, w') ∧
           appends a rule w a' w'.
Proof.
  intros Hall Ha.
  destruct (new_array_appends a rule rules w Hall Ha) as (w' & Hnew & Happ).
  exists (next w), w'. split; [| done].
  unfold Polaris.extend, bind, read_array. cbn. rewrite Ha.
  unfold bind in Hnew. cbn in Hnew. injection Hnew as <-. done.
Qed.

(** The closure of [getInjections] reads the array when it is called *)
Lemma getInjections_rules a rules owner (w : World E) :
  arrays w !! a = Some rules →
  Builder.getInjections {| Builder.properties := a |} owner w = build_bag rules owner w.
Proof.
  intros Ha. unfold Builder.getInjections, build_bag, bind at 1 3, new_object.
  cbn. unfold bind at 1, read_array. cbn. by rewrite Ha.
Qed.

Lemma polaris_getInjections_rules a rules scope (w : World E) :
  arrays w !! a = Some rules →
  Polaris.getInjections h {| Polaris.properties := a |} scope w =
  polaris_build_bag h rules scope w.
Proof.
  intros Ha. unfold Polaris.getInjections, polaris_build_bag, bind at 1 3, new_object.
  cbn. unfold bind at 1, read_array. cbn. by rewrite Ha.
Qed.
End BuilderFacts.

Section NonMutation.
Context {E : Type} (h : Host E).
Variable fuel : nat.
Local Abbreviation M := (@M E).

Lemma appends_twice a r1 r2 a1 a2 (w w1 w2 : World E) rules :
  arrays w !! a = Some rules →
  appends a r1 w a1 w1 → appends a r2 w1 a2 w2 →
  arrays w2 !! a = Some rules ∧
  arrays w2 !! a1 = Some (rules ++ [r1]) ∧
  arrays w2 !! a2 = Some (rules ++ [r2]).
Proof.
  intros Ha (rs1 & Ha1 & Hn1 & Hf1 & Hk1 & _) (rs2 & Ha2 & Hn2 & Hf2 & Hk2 & _).
  assert (rs1 = rules) as -> by congruence.
  assert (a ≠ a1) as Hne1 by (intros ->; congruence).
  assert (arrays w1 !! a = Some rules) as Ha' by (by rewrite Hk1).
  assert (rs2 = rules) as -> by congruence.
  assert (a ≠ a2) as Hne2 by (intros ->; congruence).
  assert (a1 ≠ a2) as Hne12 by (intros ->; congruence).
  split; [by rewrite Hk2 |]. split; [by rewrite Hk2 | done].
Qed.

(** What [into] and [build] make has the rules of its builder, and making
    it changes no array *)
Lemma classic_made this fn (w : World E) c w' st :
  Builder.into h fuel this fn w = (Ok c, w') ∨
  Builder.build h fuel this fn w = (Ok c, w') →
  STORAGE c = Some st →
  arrays w' = arrays w ∧ _getInjections st = Builder.getInjections this.
Proof.
  intros [H | H] Hs;
    [apply into_inv in H as (name & w1 & Hn & -> & ->)
    |apply build_inv in H as (name & w1 & Hn & -> & ->)];
    cbn in Hs; injection Hs as <-;
    (split; [| done]); cbn;
    by destruct (extends_get_name h fuel fn w _ _ Hn) as [(_ & _ & ? & _) _].
Qed.

Lemma polaris_made this fn (w : World E) c w' st :
  Polaris.into h fuel this fn w = (Ok c, w') ∨
  Polaris.build h fuel this fn w = (Ok c, w') →
  STORAGE c = Some st →
  arrays w' = arrays w ∧ _getInjections st = Polaris.getInjections h this.
Proof.
  intros [H | H] Hs;
    [apply polaris_into_inv in H as (name & w1 & Hn & -> & ->)
    |apply polaris_build_inv in H as (name & w1 & Hn & -> & ->)];
    cbn in Hs; injection Hs as <-;
    (split; [| done]); cbn;
    by destruct (extends_get_name h fuel fn w _ _ Hn) as [(_ & _ & ? & _) _].
Qed.

(** C7, builder non-mutation.  On a builder whose array holds [rules],
    each of [owner], [service] and [property] (and of [scope], [service]
    and [property] of the polaris builder) returns a builder with a new
    array holding [rules] followed by the one new rule, and leaves every
    array there was, the builder's own included, as it was.  Hence when two
    builders are derived from one base, the base still holds [rules]; and
    when constructors are made from the two, by [into] or by [build] of
    either builder (which return when given functions), the bag that each
    builds for an owner is the bag of [rules] followed by the rule of its
    own chain only. *)
Theorem builder_non_mutation (w : World E) (a : nat) (rules : list Rule) :
  allocated w → arrays w !! a = Some rules →
  (∃ a' w', Builder.owner {| Builder.properties := a |} w =
              (Ok {| Builder.properties := a' |}, w') ∧
            appends a (RuleAlias "owner") w a' w') ∧
  (∀ propertyName serviceName,
     ∃ a' w', Builder.service {| Builder.properties := a |} propertyName serviceName w =
                (Ok {| Builder.properties := a' |}, w') ∧
              appends a (RuleService propertyName
                           (ByName (default propertyName serviceName))) w a' w') ∧
  (∀ name callback,
     ∃ a' w', Builder.property {| Builder.properties := a |} name callback w =
                (Ok {| Builder.properties := a' |}, w') ∧
              appends a (RuleProperty name callback) w a' w') ∧
  (∃ a' w', Polaris.scope {| Polaris.properties := a |} w =
              (Ok {| Polaris.properties := a' |}, w') ∧
            appends a (RuleAlias "scope") w a' w') ∧
  (∀ name factory,
     ∃ a' w', Polaris.service {| Polaris.properties := a |} name factory w =
                (Ok {| Polaris.properties := a' |}, w') ∧
              appends a (RuleService name (ByFactory factory)) w a' w') ∧
  (∀ name callback,
     ∃ a' w', Polaris.property {| Polaris.properties := a |} name callback w =
                (Ok {| Polaris.properties := a' |}, w') ∧
              appends a (RuleProperty name callback) w a' w') ∧
  (∀ r1 r2 a1 a2 w1 w2,
     appends a r1 w a1 w1 → appends a r2 w1 a2 w2 →
     arrays w2 !! a = Some rules ∧
     (∀ fn1 fn2, is_callable fn1 = true → is_callable fn2 = true →
        (∃ c1 c2 w3 w4,
           Builder.into h fuel {| Builder.properties := a1 |} fn1 w2 = (Ok c1, w3) ∧
           Builder.build h fuel {| Builder.properties := a2 |} fn2 w3 = (Ok c2, w4)) ∧
        (∃ c1 c2 w3 w4,
           Polaris.into h fuel {| Polaris.properties := a1 |} fn1 w2 = (Ok c1, w3) ∧
           Polaris.build h fuel {| Polaris.properties := a2 |} fn2 w3 = (Ok c2, w4))) ∧
     (∀ fn1 fn2 c1 c2 st1 st2 w3 w4 owner,
        Builder.into h fuel {| Builder.properties := a1 |} fn1 w2 = (Ok c1, w3) ∨
        Builder.build h fuel {| Builder.properties := a1 |} fn1 w2 = (Ok c1, w3) →
        Builder.into h fuel {| Builder.properties := a2 |} fn2 w3 = (Ok c2, w4) ∨
        Builder.build h fuel {| Builder.properties := a2 |} fn2 w3 = (Ok c2, w4) →
        STORAGE c1 = Some st1 → STORAGE c2 = Some st2 →
        _getInjections st1 owner w4 = build_bag (rules ++ [r1]) owner w4 ∧
        _getInjections st2 owner w4 = build_bag (rules ++ [r2]) owner w4) ∧
     (∀ fn1 fn2 c1 c2 st1 st2 w3 w4 scope,
        Polaris.into h fuel {| Polaris.properties := a1 |} fn1 w2 = (Ok c1, w3) ∨
        Polaris.build h fuel {| Polaris.properties := a1 |} fn1 w2 = (Ok c1, w3) →
        Polaris.into h fuel {| Polaris.properties := a2 |} fn2 w3 = (Ok c2, w4) ∨
        Polaris.build h fuel {| Polaris.properties := a2 |} fn2 w3 = (Ok c2, w4) →
        STORAGE c1 = Some st1 → STORAGE c2 = Some st2 →
        _getInjections st1 scope w4 = polaris_build_bag h (rules ++ [r1]) scope w4 ∧
        _getInjections st2 scope w4 = polaris_build_bag h (rules ++ [r2]) scope w4)).
Proof.
  intros Hall Ha.
  split; [by apply extend_appends with rules |].
  split; [intros; by apply extend_appends with rules |].
  split; [intros; by apply extend_appends with rules |].
  split; [by apply polaris_extend_appends with rules |].
  split; [intros; by apply polaris_extend_appends with rules |].
  split; [intros; by apply polaris_extend_appends with rules |].
  intros r1 r2 a1 a2 w1 w2 H1 H2.
  destruct (appends_twice _ _ _ _ _ _ _ _ _ Ha H1 H2) as (Hb & Hb1 & Hb2).
  split; [done |]. split; [| split].
  - intros fn1 fn2 Hc1 Hc2. split; eexists _, _, _, _.
    + split; [by apply into_eq | by apply build_eq].
    + split; [by apply polaris_into_eq | by apply polaris_build_eq].
  - intros fn1 fn2 c1 c2 st1 st2 w3 w4 owner Hm1 Hm2 Hs1 Hs2.
    destruct (classic_made _ _ _ _ _ _ Hm1 Hs1) as [Ha3 ->].
    destruct (classic_made _ _ _ _ _ _ Hm2 Hs2) as [Ha4 ->].
    split; apply getInjections_rules; by rewrite Ha4, Ha3.
  - intros fn1 fn2 c1 c2 st1 st2 w3 w4 scope Hm1 Hm2 Hs1 Hs2.
    destruct (polaris_made _ _ _ _ _ _ Hm1 Hs1) as [Ha3 ->].
    destruct (polaris_made _ _ _ _ _ _ Hm2 Hs2) as [Ha4 ->].
    split; apply polaris_getInjections_rules; by rewrite Ha4, Ha3.
Qed.
End NonMutation.

Lemma allocated_loaded : allocated loaded.
Proof.
  intros a [rs Ha]. cbn in *.
  destruct (decide (a = 0)) as [-> | Hne]; [lia |].
  by rewrite lookup_singleton_ne in Ha.
Qed.

(** Witness of [builder_non_mutation]: the default builder, once the
    modules are loaded; two chains from it, [service('config')] and
    [property('computedX', ...)], and the constructors of [into(f)] and
    [build(...)] on them *)
Lemma builder_non_mutation_witness :
  let h := demo true in
  let w1 := snd (Builder.service {| Builder.properties := 0 |} "config" None loaded) in
  let w2 := snd (Builder.property {| Builder.properties := 0 |} "computedX" (VFun 0) w1) in
  (∃ a' w', Polaris.scope {| Polaris.properties := 0 |} loaded =
              (Ok {| Polaris.properties := a' |}, w') ∧
            appends 0 (RuleAlias "scope") loaded a' w') ∧
  arrays w2 !! 0 = Some [] ∧
  ∃ c1 c2 st1 st2 w3 w4,
    Builder.into h 5 {| Builder.properties := 1 |} (VFun 1) w2 = (Ok c1, w3) ∧
    Builder.build h 5 {| Builder.properties := 2 |} (VFun 3) w3 = (Ok c2, w4) ∧
    STORAGE c1 = Some st1 ∧ STORAGE c2 = Some st2 ∧
    _getInjections st1 (VObj 0) w4 =
      build_bag [RuleService "config" (ByName "config")] (VObj 0) w4 ∧
    _getInjections st2 (VObj 0) w4 =
      build_bag [RuleProperty "computedX" (VFun 0)] (VObj 0) w4.
Proof.
  intros h w1 w2.
  destruct (builder_non_mutation h 5 loaded 0 [] allocated_loaded eq_refl)
    as (_ & Hs & Hp & Hsc & _ & _ & Hchains).
  split; [apply Hsc |].
  assert (appends 0 (RuleService "config" (ByName "config")) loaded 1 w1) as Happ1.
  { destruct (Hs "config"%string None) as (a' & w' & Heq & Happ).
    assert (Builder.service {| Builder.properties := 0 |} "config" None loaded =
            (Ok {| Builder.properties := 1 |}, w1)) as Heq1 by reflexivity.
    rewrite Heq1 in Heq. injection Heq as <- <-. exact Happ. }
  assert (appends 0 (RuleProperty "computedX" (VFun 0)) w1 2 w2) as Happ2.
  { destruct Happ1 as (rs & _ & _ & _ & _ & Hall1).
    destruct (new_array_appends 0 (RuleProperty "computedX" (VFun 0)) [] w1 Hall1 eq_refl)
      as (w' & Heq & Happ).
    assert (new_array ([] ++ [RuleProperty "computedX" (VFun 0)]) w1 = (Ok 2, w2))
      as Heq1 by reflexivity.
    rewrite Heq1 in Heq. injection Heq as <-. exact Happ. }
  destruct (Hchains (RuleService "config" (ByName "config")) (RuleProperty "computedX" (VFun 0))
              1 2 w1 w2 Happ1 Happ2) as (Hbase & Hret & Hbags & _).
  - split; [exact Hbase |].
    destruct (Hret (VFun 1) (VFun 3) eq_refl eq_refl) as [(c1 & c2 & w3 & w4 & Hi & Hb) _].
    exists c1, c2.
    pose proof Hi as Hi'. rewrite into_eq in Hi' by done. injection Hi' as <- <-.
    pose proof Hb as Hb'. rewrite build_eq in Hb' by done. injection Hb' as <- <-.
    eexists _, _, _, _.
    split; [exact Hi |]. split; [exact Hb |].
    split; [reflexivity |]. split; [reflexivity |].
    apply (Hbags (VFun 1) (VFun 3) _ _ _ _ _ _ (VObj 0) (or_introl Hi) (or_intror Hb));
      reflexivity.
Defined.

(** ** The bag is frozen *)

Section Frozen.
Context {E : Type} (h : Host E).
Local Abbreviation M := (@M E).

#[global] Instance keeps_object_preorder r : PreOrder (keeps_object (E := E) r).
Proof. split; [by intros w H | intros w1 w2 w3 H1 H2 H; by apply H2, H1]. Qed.

Lemma frozen_rejects_writes (w : World E) r : frozen w r → rejects_writes w r.
Proof.
  intros (o & Ho & Hext & Hprops). repeat split.
  - intros name v. unfold set_property. rewrite Ho.
    destruct (props o !! name) as [d|] eqn:Hd.
    + destruct (Hprops name d Hd) as [_ Hk].
      destruct (p_kind d) as [g | v' [|]]; cbn; try by eexists.
      by destruct (Hk v').
    + rewrite Hext. by eexists.
  - intros name v. unfold set_property. rewrite Ho.
    destruct (props o !! name) as [d|] eqn:Hd.
    + destruct (Hprops name d Hd) as [_ Hk].
      destruct (p_kind d) as [g | v' [|]]; cbn; try done.
      by destruct (Hk v').
    + by rewrite Hext.
  - intros name get. unfold Object_defineProperty. rewrite Ho.
    destruct (props o !! name) as [d|] eqn:Hd.
    + destruct (Hprops name d Hd) as [-> _].
      destruct (p_kind d) as [g | v' wr]; [| right; by eexists].
      case_decide; [by left | right; by eexists].
    + rewrite Hext. right. by eexists.
  - intros strict name. unfold delete_property. rewrite Ho.
    destruct (props o !! name) as [d|] eqn:Hd; [| by left].
    destruct (Hprops name d Hd) as [-> _].
    destruct strict; cbn; [right; by eexists | by left].
Qed.

Lemma keeps_defineProperty r rule owner injections :
  preserves (keeps_object r) (defineProperty (E := E) rule owner injections).
Proof.
  assert (∀ name get, preserves (keeps_object r)
                        (Object_defineProperty (E := E) injections name get)) as Hdef.
  { intros name get w res w'. unfold Object_defineProperty.
    repeat case_match; intros [= <- <-]; try done;
      intros Hr; cbn; (destruct (decide (injections = r)) as [-> | Hne];
        [by rewrite lookup_insert_eq | by rewrite lookup_insert_ne]). }
  destruct rule; cbn.
  - apply preserves_bind; [apply _ | by intros w res w' [= <- <-] ? | intros; apply Hdef].
  - apply preserves_bind; [apply _ | by intros w res w' [= <- <-] ? | intros; apply Hdef].
  - apply preserves_bind; [apply _ | by intros w res w' [= <- <-] ? | intros; apply Hdef].
Qed.

Lemma keeps_for_of r rules owner injections :
  preserves (keeps_object r)
    (for_of (E := E) rules (fun rule => defineProperty rule owner injections)).
Proof.
  induction rules as [|rule rules IH]; cbn.
  - apply preserves_ret, _.
  - apply preserves_bind; [apply _ | apply keeps_defineProperty | done].
Qed.

Lemma Object_freeze_frozen r (w : World E) u w' :
  is_Some (heap w !! r) → Object_freeze r w = (Ok u, w') → frozen w' r.
Proof.
  intros [o Ho]. unfold Object_freeze. rewrite Ho. intros [= <- <-].
  exists {| props := freeze_descriptor <$> props o; extensible := false |}.
  split; [unfold set_heap; cbn [heap]; by rewrite lookup_insert_eq |]. split; [done |].
  intros name d. cbn. rewrite lookup_fmap.
  destruct (props o !! name) as [d0|]; [| done]. cbn. intros [= <-].
  split; [done |]. intros v. cbn. by destruct (p_kind d0).
Qed.

Lemma build_bag_frozen rules owner (w : World E) bag w' :
  build_bag rules owner w = (Ok bag, w') → ∃ r, bag = VRef r ∧ frozen w' r.
Proof.
  unfold build_bag. intros H.
  apply bind_ok_inv in H as (r & w1 & Hnew & H).
  apply bind_ok_inv in H as (u1 & w2 & Hfor & H).
  apply bind_ok_inv in H as (u2 & w3 & Hfr & H).
  injection H as <- <-. exists r. split; [done |].
  apply (Object_freeze_frozen r w2 u2); [| done].
  apply (keeps_for_of r _ _ _ _ _ _ Hfor).
  injection Hnew as <- <-. cbn. by rewrite lookup_insert_eq.
Qed.

Lemma polaris_build_bag_frozen rules scope (w : World E) bag w' :
  polaris_build_bag h rules scope w = (Ok bag, w') → ∃ r, bag = VRef r ∧ frozen w' r.
Proof.
  unfold polaris_build_bag. intros H.
  apply bind_ok_inv in H as (r & w1 & Hnew & H).
  apply bind_ok_inv in H as (u1 & w2 & Hfor & H).
  apply bind_ok_inv in H as (u2 & w3 & Hemit & H).
  apply bind_ok_inv in H as (u3 & w4 & Hhost & H).
  apply bind_ok_inv in H as (u4 & w5 & Hfr & H).
  injection H as <- <-. exists r. split; [done |].
  apply (Object_freeze_frozen r w4 u4); [| done].
  assert (heap w4 = heap w2) as ->.
  { assert (heap w3 = heap w2) as <-
      by (revert Hemit; unfold emit; intros H; by injection H as _ <-).
    revert Hhost. unfold host.
    destruct (setScope h _ _ _) as [res e]. intros H. by injection H as _ <-. }
  apply (keeps_for_of r _ _ _ _ _ _ Hfor).
  injection Hnew as <- <-. cbn. by rewrite lookup_insert_eq.
Qed.
End Frozen.

Section Immutability.
Context {E : Type} (h : Host E).
Local Abbreviation M := (@M E).

Lemma builder_injections_frozen gi owner (w : World E) bag w' :
  builder_injections h gi → gi owner w = (Ok bag, w') →
  ∃ r, bag = VRef r ∧ frozen w' r.
Proof.
  intros [a [-> | ->]] H.
  - destruct (arrays w !! a) as [rules|] eqn:Ha.
    + rewrite (getInjections_rules a rules) in H by done. by eapply build_bag_frozen.
    + exfalso. revert H. unfold Builder.getInjections, bind at 1, new_object.
      cbn. unfold bind at 1, read_array. cbn. by rewrite Ha.
  - destruct (arrays w !! a) as [rules|] eqn:Ha.
    + rewrite (polaris_getInjections_rules h a rules) in H by done.
      by eapply polaris_build_bag_frozen.
    + exfalso. revert H. unfold Polaris.getInjections, bind at 1, new_object.
      cbn. unfold bind at 1, read_array. cbn. by rewrite Ha.
Qed.

(** C8, immutability of the bag.  The bag that the [getInjections] closure
    of either builder returns is frozen, after all the rules have defined
    their properties.  In that world, and in every world where the object
    is what it is then, an assignment to any of its properties, old or new,
    throws in strict code and does nothing in sloppy code, and so does a
    deletion; a property definition throws; and each time the world, so
    the getters of the bag too, is left as it was. *)
Theorem bag_immutable gi (owner : Value) (w w' : World E) (bag : Value) :
  builder_injections h gi → gi owner w = (Ok bag, w') →
  ∃ r, bag = VRef r ∧ frozen w' r ∧
       ∀ w2 : World E, heap w2 !! r = heap w' !! r → rejects_writes w2 r.
Proof.
  intros Hi H.
  destruct (builder_injections_frozen _ _ _ _ _ Hi H) as (r & -> & Hfr).
  exists r. split; [done |]. split; [done |].
  intros w2 Hsame. apply frozen_rejects_writes.
  destruct Hfr as (o & Ho & Hrest). exists o. by rewrite Hsame.
Qed.
End Immutability.

(** Witness of [bag_immutable]: the bag of owner 0 under
    [builder.service('config')] *)
Lemma bag_immutable_witness :
  let w := snd (Builder.service {| Builder.properties := 0 |} "config" None loaded) in
  let w' := snd (Builder.getInjections {| Builder.properties := 1 |} (VObj 0) w) in
  frozen w' 2 ∧
  (∃ msg, set_property true 2 "config" (VNum 1) w' = (Throw (TypeError msg), w')) ∧
  set_property false 2 "extra" (VNum 1) w' = (Ok (), w') ∧
  fst ((let* o := new_object in set_property true o "extra" (VNum 1)) w') = Ok ().
Proof.
  intros w w'.
  destruct (bag_immutable (demo true)
              (Builder.getInjections {| Builder.properties := 1 |}) (VObj 0) w w' (VRef 2))
    as (r & Hr & Hfr & Hrej).
  - exists 1. by left.
  - vm_compute; reflexivity.
  - injection Hr as <-. split; [done |].
    destruct (Hrej w' eq_refl) as (Hstrict & Hsloppy & _).
    split; [apply Hstrict |]. split; [apply Hsloppy |].
    vm_compute; reflexivity.
Defined.

(** ** Laziness *)

Section LazyFacts.
Context {E : Type} (h : Host E).
Local Abbreviation M := (@M E).

Lemma cached_resolved cell (compute : M Value) (w : World E) v :
  resolved w cell v → cached cell compute w = (Ok v, w).
Proof. intros Hr. unfold cached, bind, read_cell. by rewrite Hr. Qed.

Lemma cached_unresolved cell (compute : M Value) (w : World E) :
  unresolved w cell →
  cached cell compute w = (let* v := compute in write_cell cell v >> ret v) w.
Proof. intros Hu. unfold cached, bind at 1, read_cell. by rewrite Hu. Qed.

(** What a run of [cached] on an unresolved variable ends in *)
Lemma cached_outcome cell (compute : M Value) (w : World E) res w' :
  unresolved w cell →
  cached cell compute w = (res, w') →
  ∃ w1, compute w = (res, w1) ∧
        match res with
        | Ok v => w' = set_cells (<[cell := Some v]> (cells w1)) w1
        | Throw _ => w' = w1
        end.
Proof.
  intros Hu. rewrite cached_unresolved by done. unfold bind at 1.
  destruct (compute w) as [[v|e] w1]; [| intros [= <- <-]; by exists w1].
  intros [= <- <-]. by exists w1.
Qed.

Lemma resolve_outcome owner key (w : World E) res w' :
  is_reference owner = true →
  resolve h owner key w = (res, w') →
  trace w' = EvLookup owner key :: trace w ∧ cells w' = cells w.
Proof.
  intros Hr. unfold resolve.
  assert (∀ f : E → Result Value * E,
            (emit (EvLookup owner key) >> host f) w = (res, w') →
            trace w' = EvLookup owner key :: trace w ∧ cells w' = cells w) as Hgo.
  { intros f. unfold bind, emit, host. cbn. destruct (f (ext w)) as [r0 e].
    by intros [= <- <-]. }
  destruct key; [destruct owner; try discriminate |]; apply Hgo.
Qed.

Lemma call_outcome fuel f this args (w : World E) res w' :
  call h (S fuel) (VFun f) this args w = (res, w') →
  ∃ t, trace w' = t ++ EvCall f this args :: trace w.
Proof.
  rewrite call_S. unfold bind at 1, emit. intros H.
  apply (extends_run (get_property h fuel)) in H as [_ [t Ht]];
    [| apply extends_get_property].
  exists t. by rewrite Ht.
Qed.
End LazyFacts.

Section Untouched.
Context {E : Type} (h : Host E).
Local Abbreviation M := (@M E).

Lemma untouched_same (w w' : World E) r :
  heap w' = heap w → cells w' = cells w → untouched w r → untouched w' r.
Proof.
  intros Hh Hc Hu name get cell (o & d & Ho & Hd & Hk) Hl.
  unfold unresolved. rewrite Hc. apply (Hu name get cell); [| done].
  exists o, d. by rewrite <- Hh.
Qed.

Lemma untouched_define r name get (w : World E) res w' :
  Object_defineProperty r name get w = (res, w') →
  (∀ cell, lazy_cell get = Some cell → unresolved w cell) →
  untouched w r → untouched w' r.
Proof.
  unfold Object_defineProperty. intros H Hget Hu.
  destruct (heap w !! r) as [o|] eqn:Ho; [| by injection H as _ <-].
  assert (∀ d' ext',
            p_kind d' = Accessor get →
            untouched (set_heap (<[r := {| props := <[name := d']> (props o);
                                           extensible := ext' |}]> (heap w)) w) r) as Hins.
  { intros d' ext' Hk.
    intros name' get' cell (o' & d0 & Ho' & Hd0 & Hk0) Hl. unfold unresolved. cbn.
    revert Ho'. unfold set_heap. cbn [heap]. rewrite lookup_insert_eq. intros [= <-].
    cbn in Hd0. destruct (decide (name = name')) as [<- | Hne].
    - rewrite lookup_insert_eq in Hd0. injection Hd0 as <-.
      rewrite Hk in Hk0. injection Hk0 as <-. by apply Hget.
    - rewrite lookup_insert_ne in Hd0 by done.
      apply (Hu name' get' cell); [| done]. by exists o, d0. }
  destruct (props o !! name) as [d|] eqn:Hd.
  - destruct (p_configurable d).
    + injection H as _ <-. by apply Hins.
    + destruct (p_kind d); [case_decide |]; by injection H as _ <-.
  - destruct (extensible o); [| by injection H as _ <-].
    injection H as _ <-. by apply Hins.
Qed.

Lemma untouched_new_cell r (w : World E) c w' :
  new_cell w = (Ok c, w') → untouched w r → untouched w' r ∧ unresolved w' c.
Proof.
  intros [= <- <-] Hu. split.
  - intros name get cell (o & d & Ho & Hd & Hk) Hl. unfold unresolved. cbn.
    destruct (decide (next w = cell)) as [<- | Hne]; [by rewrite lookup_insert_eq |].
    rewrite lookup_insert_ne by done. apply (Hu name get cell); [| done]. by exists o, d.
  - unfold unresolved. cbn. by rewrite lookup_insert_eq.
Qed.

Lemma untouched_defineProperty rule owner r (w : World E) res w' :
  defineProperty rule owner r w = (res, w') → untouched w r → untouched w' r.
Proof.
  destruct rule as [name | propertyName key | name callback];
    unfold defineProperty, bind at 1.
  - unfold fresh. intros H Hu. eapply untouched_define; [done | done |].
    by apply (untouched_same w).
  - destruct (new_cell w) as [[c|e] w1] eqn:Hc; [| discriminate].
    intros H Hu. destruct (untouched_new_cell r _ _ _ Hc Hu) as [Hu1 Hc1].
    eapply untouched_define; [done | | done]. by intros cell [= <-].
  - destruct (new_cell w) as [[c|e] w1] eqn:Hc; [| discriminate].
    intros H Hu. destruct (untouched_new_cell r _ _ _ Hc Hu) as [Hu1 Hc1].
    eapply untouched_define; [done | | done]. by intros cell [= <-].
Qed.

Lemma untouched_for_of rules owner r (w : World E) res w' :
  for_of rules (fun rule => defineProperty rule owner r) w = (res, w') →
  untouched w r → untouched w' r.
Proof.
  revert w. induction rules as [|rule rules IH]; intros w; cbn.
  - by intros [= _ <-].
  - unfold bind.
    destruct (defineProperty rule owner r w) as [[u|e] w1] eqn:Hd.
    + intros H Hu. apply (IH w1 H). by eapply untouched_defineProperty.
    + intros [= _ <-] Hu. by eapply untouched_defineProperty.
Qed.

Lemma untouched_freeze r (w : World E) res w' :
  Object_freeze r w = (res, w') → untouched w r → untouched w' r.
Proof.
  unfold Object_freeze. destruct (heap w !! r) as [o|] eqn:Ho; [| by intros [= _ <-]].
  intros [= _ <-] Hu name get cell (o' & d & Ho' & Hd & Hk) Hl. unfold unresolved. cbn.
  revert Ho'. unfold set_heap. cbn [heap]. rewrite lookup_insert_eq. intros [= <-].
  cbn in Hd. rewrite lookup_fmap in Hd.
  destruct (props o !! name) as [d0|] eqn:Hd0; [| discriminate]. injection Hd as <-.
  apply (Hu name get cell); [| done]. exists o, d0. split; [done |]. split; [done |].
  cbn in Hk. by destruct (p_kind d0).
Qed.

Lemma untouched_new_object (w : World E) r w' :
  new_object w = (Ok r, w') → untouched w' r.
Proof.
  intros [= <- <-] name get cell (o & d & Ho & Hd & _). revert Ho.
  unfold set_heap. cbn [heap set_next]. rewrite lookup_insert_eq. intros [= <-].
  cbn [props] in Hd. by rewrite lookup_empty in Hd.
Qed.

Lemma build_bag_untouched rules owner (w : World E) r w' :
  build_bag rules owner w = (Ok (VRef r), w') → untouched w' r.
Proof.
  unfold build_bag. intros H.
  apply bind_ok_inv in H as (r0 & w1 & Hnew & H).
  apply bind_ok_inv in H as (u1 & w2 & Hfor & H).
  apply bind_ok_inv in H as (u2 & w3 & Hfr & H).
  injection H as <- <-.
  eapply untouched_freeze; [done |]. eapply untouched_for_of; [done |].
  by apply untouched_new_object with w.
Qed.

Lemma polaris_build_bag_untouched rules scope (w : World E) r w' :
  polaris_build_bag h rules scope w = (Ok (VRef r), w') → untouched w' r.
Proof.
  unfold polaris_build_bag. intros H.
  apply bind_ok_inv in H as (r0 & w1 & Hnew & H).
  apply bind_ok_inv in H as (u1 & w2 & Hfor & H).
  apply bind_ok_inv in H as (u2 & w3 & Hemit & H).
  apply bind_ok_inv in H as (u3 & w4 & Hhost & H).
  apply bind_ok_inv in H as (u4 & w5 & Hfr & H).
  injection H as <- <-.
  eapply untouched_freeze; [done |].
  apply (untouched_same w2).
  - transitivity (heap w3).
    + revert Hhost. unfold host. destruct (setScope h _ _ _) as [res e].
      intros H. by injection H as _ <-.
    + by injection Hemit as _ <-.
  - transitivity (cells w3).
    + revert Hhost. unfold host. destruct (setScope h _ _ _) as [res e].
      intros H. by injection H as _ <-.
    + by injection Hemit as _ <-.
  - eapply untouched_for_of; [done |]. by apply untouched_new_object with w.
Qed.

Lemma builder_injections_untouched gi owner (w : World E) r w' :
  builder_injections h gi → gi owner w = (Ok (VRef r), w') → untouched w' r.
Proof.
  intros [a [-> | ->]] H.
  - destruct (arrays w !! a) as [rules|] eqn:Ha.
    + rewrite (getInjections_rules a rules) in H by done. by eapply build_bag_untouched.
    + exfalso. revert H. unfold Builder.getInjections, bind at 1, new_object.
      cbn. unfold bind at 1, read_array. cbn. by rewrite Ha.
  - destruct (arrays w !! a) as [rules|] eqn:Ha.
    + rewrite (polaris_getInjections_rules h a rules) in H by done.
      by eapply polaris_build_bag_untouched.
    + exfalso. revert H. unfold Polaris.getInjections, bind at 1, new_object.
      cbn. unfold bind at 1, read_array. cbn. by rewrite Ha.
Qed.
End Untouched.

Section Laziness.
Context {E : Type} (h : Host E).
Local Abbreviation M := (@M E).

Lemma invocations_cons (w w' : World E) ev :
  is_invocation ev = true → trace w' = ev :: trace w →
  invocations w' = ev :: invocations w.
Proof. intros Hev Ht. unfold invocations. rewrite Ht. by rewrite filter_cons_True. Qed.

(** C4 as amended, laziness.
    Building a bag, with either builder, looks up no service and calls no
    function, and leaves every caching property of the bag unresolved.
    Reading a property that is resolved returns its value and leaves the
    world as it is: nothing is invoked.
    Reading an unresolved [service] property invokes the lookup once; when
    it returns a value the property is resolved with that value, and when
    it throws the property stays unresolved, so that the next read invokes
    the lookup again.
    Reading an unresolved [property] property is one call of the callback,
    with the bag as receiver and the owner as argument, followed, when the
    call returns, by resolving the property with the value: the read calls
    the callback once, and what else is invoked during the read is invoked
    by the body of the callback, which is all that follows the one event of
    its call. *)
Theorem laziness_after_return :
  (∀ gi owner (w : World E) res w',
     builder_injections h gi → gi owner w = (res, w') →
     quiet w w' ∧ ∀ r, res = Ok (VRef r) → untouched w' r) ∧
  (∀ fuel (w : World E) r name get cell v,
     has_getter w r name get → lazy_cell get = Some cell → resolved w cell v →
     get_property h (S fuel) (VRef r) name w = (Ok v, w)) ∧
  (∀ fuel (w : World E) r name cell owner key res w',
     has_getter w r name (GService cell owner key) →
     is_reference owner = true → unresolved w cell →
     get_property h (S fuel) (VRef r) name w = (res, w') →
     invocations w' = EvLookup owner key :: invocations w ∧
     match res with
     | Ok v => resolved w' cell v
     | Throw _ => unresolved w' cell
     end) ∧
  (∀ fuel (w : World E) r name cell owner callback,
     has_getter w r name (GProperty cell owner callback) → unresolved w cell →
     get_property h (S fuel) (VRef r) name w =
     (let* v := call h fuel callback (VRef r) [owner] in
      write_cell cell v >> ret v) w ∧
     ∀ res w', get_property h (S fuel) (VRef r) name w = (res, w') →
               ∀ v, res = Ok v → resolved w' cell v) ∧
  (∀ fuel f this args (w : World E),
     call h (S fuel) (VFun f) this args w =
     run (get_property h fuel) (function_body h f this args)
         (set_trace (EvCall f this args :: trace w) w)).
Proof.
  split; [| split; [| split; [| split]]].
  - intros gi owner w res w' Hi H. split.
    + by apply (quiet_builds _ (builds_builder_injections h gi owner Hi) w res w').
    + intros r ->. by eapply builder_injections_untouched.
  - intros fuel w r name get cell v (o & d & Ho & Hd & Hk) Hl Hr.
    rewrite (get_property_bag h fuel r name w o d Ho Hd), Hk.
    destruct get as [id owner | c owner key | c owner callback]; [done | |];
      injection Hl as ->; by apply cached_resolved.
  - intros fuel w r name cell owner key res w' (o & d & Ho & Hd & Hk) Href Hu.
    rewrite (get_property_bag h fuel r name w o d Ho Hd), Hk. intros H.
    apply cached_outcome in H as (w1 & Hrun & Hw'); [| done].
    destruct (resolve_outcome h owner key w res w1 Href Hrun) as [Ht Hc].
    destruct res as [v|e]; subst w'.
    + split; [by apply invocations_cons |].
      unfold resolved. cbn. by rewrite lookup_insert_eq.
    + split; [by apply invocations_cons |]. unfold unresolved. by rewrite Hc.
  - intros fuel w r name cell owner callback (o & d & Ho & Hd & Hk) Hu.
    rewrite (get_property_bag h fuel r name w o d Ho Hd), Hk. split.
    + unfold cached, bind at 1, read_cell. cbn. unfold unresolved in Hu. by rewrite Hu.
    + intros res w' H v ->.
      apply cached_outcome in H as (w1 & Hrun & Hw'); [| done].
      subst w'. unfold resolved. cbn. by rewrite lookup_insert_eq.
  - intros fuel f this args w. by rewrite call_S.
Qed.
End Laziness.

(** Witness of [laziness_after_return]: the bag of owner 0 under
    [builder.service('config')]; the first read of [config] looks the
    service up, the second does not *)
Lemma laziness_witness :
  let h := demo true in
  let w := snd (Builder.service {| Builder.properties := 0 |} "config" None loaded) in
  let w0 := snd (Builder.getInjections {| Builder.properties := 1 |} (VObj 0) w) in
  let w1 := snd (get_property h 3 (VRef 2) "config" w0) in
  (quiet w w0 ∧ untouched w0 2) ∧
  (invocations w1 = EvLookup (VObj 0) (ByName "config") :: invocations w0 ∧
   resolved w1 3 (VObj 1)) ∧
  get_property h 3 (VRef 2) "config" w1 = (Ok (VObj 1), w1).
Proof.
  intros h w w0 w1.
  destruct (laziness_after_return h) as (Hbuild & Hcached & Hservice & _).
  assert (has_getter w0 2 "config" (GService 3 (VObj 0) (ByName "config"))) as Hget0.
  { eexists _, _. split; [vm_compute; reflexivity |]. split; vm_compute; reflexivity. }
  assert (has_getter w1 2 "config" (GService 3 (VObj 0) (ByName "config"))) as Hget1.
  { eexists _, _. split; [vm_compute; reflexivity |]. split; vm_compute; reflexivity. }
  split; [| split].
  - destruct (Hbuild (Builder.getInjections {| Builder.properties := 1 |}) (VObj 0) w
                (Ok (VRef 2)) w0) as [Hq Hu].
    + exists 1. by left.
    + vm_compute; reflexivity.
    + split; [done | by apply Hu].
  - apply (Hservice 2 w0 2 "config"%string 3 (VObj 0) (ByName "config") (Ok (VObj 1)) w1);
      [done | done | vm_compute; reflexivity | vm_compute; reflexivity].
  - apply (Hcached 2 w1 2 "config"%string (GService 3 (VObj 0) (ByName "config")) 3 (VObj 1));
      [done | done | vm_compute; reflexivity].
Defined.

(** Counterexample to C4 as stated: under [builder.service('broken')] the
    lookup throws; two reads of the property of the one bag of owner 0 both
    throw, and the lookup has been invoked twice.  And under
    [builder.property('again', again)], where [again] reads the property
    itself the first time it is called, one read of the property of the
    bag of owner 0 returns and the callback has been called twice. *)
Lemma laziness_counterexample :
  (let h := demo true in
   let w := snd (Builder.service {| Builder.properties := 0 |} "broken" None loaded) in
   let w0 := snd (Builder.getInjections {| Builder.properties := 1 |} (VObj 0) w) in
   ∃ w1 w2,
     Builder.getInjections {| Builder.properties := 1 |} (VObj 0) w = (Ok (VRef 2), w0) ∧
     invocations w0 = [] ∧
     get_property h 3 (VRef 2) "broken" w0 = (Throw (Thrown (VStr "no such service")), w1) ∧
     get_property h 3 (VRef 2) "broken" w1 = (Throw (Thrown (VStr "no such service")), w2) ∧
     invocations w2 =
       [EvLookup (VObj 0) (ByName "broken"); EvLookup (VObj 0) (ByName "broken")]) ∧
  (let h := reentrant in
   let w := set_arrays {[ 0 := [RuleProperty "again" (VFun 0)] ]}
                       (set_next 1 (init_world false)) in
   ∃ w0 w1,
     Builder.getInjections {| Builder.properties := 0 |} (VObj 0) w = (Ok (VRef 1), w0) ∧
     invocations w0 = [] ∧
     get_property h 5 (VRef 1) "again" w0 = (Ok (VNum 1), w1) ∧
     invocations w1 = [EvCall 0 (VRef 1) [VObj 0]; EvCall 0 (VRef 1) [VObj 0]]).
Proof.
  split.
  - intros h w w0. eexists _, _.
    split; [vm_compute; reflexivity |]. split; [vm_compute; reflexivity |].
    split; [vm_compute; reflexivity |]. split; vm_compute; reflexivity.
  - intros h w. eexists _, _.
    split; [vm_compute; reflexivity |]. split; [vm_compute; reflexivity |].
    split; vm_compute; reflexivity.
Qed.

(** ** The package at work on the concrete host *)

(** [getValue] with the positional arguments [3] and no named argument
    calls [id(3)]; with the named arguments of object 21, which has the key
    [opt], it calls function 6 with [3] and object 21. *)
Example getValue_positional_only :
  fst (Manager.getValue (demo true) 5
         {| Manager.fn := VFun 4;
            Manager.args := {| Manager.positional := [VNum 3]; Manager.named := VObj 20 |} |}
         loaded) = Ok (VNum 3) ∧
  trace (snd (Manager.getValue (demo true) 5
         {| Manager.fn := VFun 4;
            Manager.args := {| Manager.positional := [VNum 3]; Manager.named := VObj 20 |} |}
         loaded)) = [EvCall 4 VUndefined [VNum 3]].
Proof. split; vm_compute; reflexivity. Qed.

Example getValue_with_named :
  trace (snd (Manager.getValue (demo true) 5
         {| Manager.fn := VFun 6;
            Manager.args := {| Manager.positional := [VNum 3]; Manager.named := VObj 21 |} |}
         loaded)) = [EvCall 6 VUndefined [VNum 3; VObj 21]].
Proof. vm_compute; reflexivity. Qed.

(** The scenario of the specification:
    [builder.service('config').property('computedX', o => o.lookupX())
            .into(function f(a) { return this.config.value + this.computedX + a; })],
    instantiated for owner 0 and called with 3 and then with 4, returns 18
    and 19, and the callback of [computedX] has been called once. *)
Example scenario_result :
  fst (scenario (init_world [])) = Ok (VNum 18, VNum 19) ∧
  filter (λ ev, ev = EvCall 0 (VRef 5) [VObj 0]) (trace (snd (scenario (init_world [])))) =
    [EvCall 0 (VRef 5) [VObj 0]] ∧
  invocations (snd (scenario (init_world []))) =
    [EvCall 1 (VRef 5) [VNum 4];
     EvCall 0 (VRef 5) [VObj 0];
     EvLookup (VObj 0) (ByName "config");
     EvCall 1 (VRef 5) [VNum 3]].
Proof. repeat split; vm_compute; reflexivity. Qed.

(** ** When the bag gets built

    Rules that define distinct properties build a bag; two rules for one
    property do not: the second definition is refused, since the first
    made the property non-configurable. *)

Section Totality.
Context {E : Type} (h : Host E).
Variable fuel : nat.
Local Abbreviation M := (@M E).

Lemma defineProperty_fresh_name rule owner r (w : World E) o :
  heap w !! r = Some o → extensible o = true → props o !! rule_name rule = None →
  ∃ d w', defineProperty rule owner r w = (Ok (), w') ∧
          heap w' !! r = Some {| props := <[rule_name rule := d]> (props o);
                                 extensible := true |}.
Proof.
  intros Ho Hext Hnone.
  assert (∀ get (w0 : World E), heap w0 = heap w →
            ∃ d w', Object_defineProperty r (rule_name rule) get w0 = (Ok (), w') ∧
                    heap w' !! r = Some {| props := <[rule_name rule := d]> (props o);
                                           extensible := true |}) as Hdef.
  { intros get w0 Hh. unfold Object_defineProperty. rewrite Hh, Ho, Hnone, Hext.
    eexists _, _. split; [done |]. unfold set_heap. cbn [heap]. by rewrite lookup_insert_eq. }
  destruct rule as [name | propertyName key | name callback];
    unfold defineProperty, bind, fresh, new_cell; cbn -[Object_defineProperty];
    by apply Hdef.
Qed.

Lemma for_of_distinct rules owner r (w : World E) o :
  heap w !! r = Some o → extensible o = true →
  NoDup (rule_name <$> rules) →
  (∀ rule, rule ∈ rules → props o !! rule_name rule = None) →
  ∃ w' o', for_of rules (fun rule => defineProperty rule owner r) w = (Ok (), w') ∧
           heap w' !! r = Some o'.
Proof.
  revert w o. induction rules as [|rule rules IH]; intros w o Ho Hext Hnd Hnew.
  - exists w, o. by split.
  - apply NoDup_cons in Hnd as [Hnotin Hnd].
    destruct (defineProperty_fresh_name rule owner r w o Ho Hext) as (d & w1 & Hd & Ho1).
    { apply Hnew. by left. }
    destruct (IH w1 _ Ho1 eq_refl Hnd) as (w' & o' & Hrest & Ho').
    { intros rule' Hin. cbn. rewrite lookup_insert_ne.
      - apply Hnew. by right.
      - intros Heq. apply Hnotin. rewrite Heq. by apply list_elem_of_fmap_2. }
    exists w', o'. split; [| done]. cbn. by rewrite (bind_ok _ _ _ _ _ Hd).
Qed.

(** The classic builder builds a bag whenever its rules define distinct
    properties. *)
Lemma build_bag_total rules owner (w : World E) :
  NoDup (rule_name <$> rules) →
  ∃ w', build_bag rules owner w = (Ok (VRef (next w)), w').
Proof.
  intros Hnd. unfold build_bag.
  set (wa := set_heap (<[next w := {| props := ∅; extensible := true |}]> (heap w))
                      (set_next (S (next w)) w)).
  assert (new_object w = (Ok (next w), wa)) as Hnew by reflexivity.
  destruct (for_of_distinct rules owner (next w) wa
              {| props := ∅; extensible := true |}) as (w1 & o1 & Hfor & Ho1);
    [by (unfold wa, set_heap; cbn [heap]; rewrite lookup_insert_eq) | done | done | done |].
  rewrite (bind_ok _ _ _ _ _ Hnew), (bind_ok _ _ _ _ _ Hfor).
  unfold bind, Object_freeze. rewrite Ho1. by eexists.
Qed.

Lemma getInjections_returns (this : Storage E) owner (w : World E) :
  alive h w owner → is_reference owner = true →
  (∃ bag w1, _getInjections this owner w = (Ok bag, w1)) →
  ∃ bag w', Injection.getInjections h this owner w = (Ok bag, w').
Proof.
  intros Hal Hr (bag & w1 & Hrun). unfold Injection.getInjections.
  rewrite guards_pass by done. unfold bind at 1. rewrite WeakMap_get_eq.
  destruct (truthy _); cbn [negb]; [by eexists _, _ |].
  rewrite (bind_ok _ _ _ _ _ Hrun). unfold bind, injections_set. rewrite Hr.
  by eexists _, _.
Qed.

Lemma getInjected_returns (this : Storage E) owner (w : World E) :
  alive h w owner → is_reference owner = true →
  (∃ bag w1, Injection.getInjections h this owner w = (Ok bag, w1) ∧
             ∃ g w2, _getInjected this bag w1 = (Ok g, w2)) →
  ∃ g w', Injection.getInjected h this owner w = (Ok g, w').
Proof.
  intros Hal Hr (bag & w1 & Hb & g & w2 & Hfin). unfold Injection.getInjected.
  rewrite guards_pass by done. unfold bind at 1. rewrite WeakMap_get_eq.
  destruct (truthy _); cbn [negb]; [by eexists _, _ |].
  rewrite (bind_ok _ _ _ _ _ Hb), (bind_ok _ _ _ _ _ Hfin).
  unfold bind, injected_set. rewrite Hr. by eexists _, _.
Qed.

(** So a constructor of [into(fn)], for a function [fn] and rules that
    define distinct properties, instantiates in every world: [new c(owner)]
    returns, for every owner that is an object and is neither being
    destroyed nor destroyed. *)
Lemma construct_total a rules fn name (st : Storage E) owner (w : World E) :
  _getInjections st = Builder.getInjections {| Builder.properties := a |} →
  _getInjected st = (λ i, Function_bind fn i) →
  arrays w !! a = Some rules → NoDup (rule_name <$> rules) →
  is_callable fn = true → is_reference owner = true → alive h w owner →
  ∃ g w1,
    construct (Manager.setHelperManager Manager.factory
                 (constructor_for h fuel st (getOwner h) name)) [owner] w = (Ok g, w1).
Proof.
  intros Hgi Hgd Ha Hnd Hfn Hr Hal.
  unfold construct. unfold bind at 1.
  destruct (new_object w) as [[this|e] wn] eqn:Hnew; [| discriminate].
  assert (ext wn = ext w ∧ arrays wn = arrays w) as [Hext Harr]
    by (by injection Hnew as _ <-).
  cbn [Manager.setHelperManager constructor_for fn_code]. rewrite code_new.
  change (Injection.first [owner]) with owner.
  assert (alive h wn owner) as Hal' by (unfold alive; by rewrite Hext).
  destruct (getInjected_returns st owner wn Hal' Hr) as (g & w1 & Hg).
  { destruct (getInjections_returns st owner wn Hal' Hr) as (bag & w2 & Hb).
    { rewrite Hgi, (getInjections_rules a rules) by (by rewrite Harr).
      destruct (build_bag_total rules owner wn Hnd) as (w2 & Hbag). by eexists _, _. }
    exists bag, w2. split; [done |].
    rewrite Hgd. unfold Function_bind. rewrite Hfn. by eexists _, _. }
  rewrite (bind_ok _ _ _ _ _ Hg). by eexists _, _.
Qed.
End Totality.

(** Two rules for one property: [builder.service('x').property('x', ...)]
    makes a constructor, but no bag; each instantiation throws. *)
Example redefinition_throws :
  let w := snd ((let* b := Builder.service {| Builder.properties := 0 |} "x" None in
                 Builder.property b "x" (VFun 0)) loaded) in
  fst (Builder.getInjections {| Builder.properties := 2 |} (VObj 0) w) =
  Throw (TypeError "Cannot redefine property").
Proof. vm_compute; reflexivity. Qed.

(** * Further properties of the package *)

(** ** Tagging and names *)

Section TaggingAndNames.
Context {E : Type} (h : Host E).
Variable fuel : nat.
Local Abbreviation M := (@M E).

Lemma Produced_name go k c this :
  Produced h fuel go k c → STORAGE c = Some this → _name this = "(unknown function)"%string.
Proof.
  intros [[a] fn w c0 w' H|[a] cb w c0 w' H|[a] fn w c0 w' H|[a] cb w c0 w' H] Hs.
  - apply into_inv in H as (name & w1 & _ & -> & _). cbn in Hs. by injection Hs as <-.
  - apply build_inv in H as (name & w1 & _ & -> & _). cbn in Hs. by injection Hs as <-.
  - apply polaris_into_inv in H as (name & w1 & _ & -> & _). cbn in Hs.
    by injection Hs as <-.
  - apply polaris_build_inv in H as (name & w1 & _ & -> & _). cbn in Hs.
    by injection Hs as <-.
Qed.

(** X1: a function that does not carry the marker.  In a development
    build [helperFor] and [createHelper] refuse it, with the assertion
    error and before anything else is done; in a production build the
    assertion is not there: [helperFor] registers the function and returns
    it, and [createHelper] instantiates it. *)
Theorem untagged_rejected (fn : FunctionObject E) (manager : InstantiableHelperManager)
    (args : Manager.Arguments) (w : World E) :
  Injection.isInjectable fn = false →
  (isDevelopingApp h = true →
   Manager.helperFor h fn w =
     (Throw (AssertionError "must be an injectable constructor"), w) ∧
   Manager.createHelper h manager fn args w =
     (Throw (AssertionError "must be an injectable constructor"), w)) ∧
  (isDevelopingApp h = false →
   Manager.helperFor h fn w = (Ok (Manager.setHelperManager Manager.factory fn), w) ∧
   Manager.createHelper h manager fn args w =
     (let* g := construct fn [owner manager] in
      ret {| Manager.fn := g; Manager.args := args |}) w).
Proof.
  intros Hno. split; intros Hdev.
  - split.
    + unfold Manager.helperFor. by rewrite Hno, assert_false.
    + unfold Manager.createHelper. by rewrite Hno, assert_false.
  - split.
    + unfold Manager.helperFor. by rewrite assert_off.
    + unfold Manager.createHelper. by rewrite assert_off.
Qed.

Lemma fn_name_constructor_for st go name :
  Manager.getDebugName (Manager.setHelperManager Manager.factory
                          (constructor_for h fuel st go name)) =
  if isDevelopingApp h && Injection.name_given name then default ""%string name
  else ""%string.
Proof.
  unfold Manager.getDebugName. cbn. unfold Injection.makeConstructor.
  by destruct (_ && _).
Qed.

(** X2: the debug name of a constructor is the name of the function it was
    made from in a development build, and the empty string in a production
    build: [into] and [build] of both builders pass [fn.name] on, and
    [makeConstructor] uses it only under [isDevelopingApp()]. *)
Theorem debug_name (f : nat) :
  (∀ this (w : World E) c w',
     Builder.into h fuel this (VFun f) w = (Ok c, w') ∨
     Builder.build h fuel this (VFun f) w = (Ok c, w') →
     Manager.getDebugName c =
     if isDevelopingApp h then function_name h f else ""%string) ∧
  (∀ this (w : World E) c w',
     Polaris.into h fuel this (VFun f) w = (Ok c, w') ∨
     Polaris.build h fuel this (VFun f) w = (Ok c, w') →
     Manager.getDebugName c =
     if isDevelopingApp h then function_name h f else ""%string).
Proof.
  assert (∀ st go, Manager.getDebugName
                     (Manager.setHelperManager Manager.factory
                        (constructor_for h fuel st go (Some (function_name h f)))) =
                   if isDevelopingApp h then function_name h f else ""%string) as Hname.
  { intros st go. rewrite fn_name_constructor_for. cbn.
    destruct (isDevelopingApp h); [| done]. cbn.
    destruct (String.eqb (function_name h f) "") eqn:Hempty; [| done].
    cbn. by apply String.eqb_eq in Hempty. }
  split; intros this w c w' [H | H].
  - rewrite into_eq in H by done. injection H as <- _. apply Hname.
  - rewrite build_eq in H by done. injection H as <- _. apply Hname.
  - rewrite polaris_into_eq in H by done. injection H as <- _. apply Hname.
  - rewrite polaris_build_eq in H by done. injection H as <- _. apply Hname.
Qed.

(** X3: the messages of the two guards, in a development build, never
    name the function: the constructors of [into] and [build] have a
    storage created without a name.  An owner in destruction gets the first
    message, whether it is also destroyed or not, and a destroyed owner the
    second; [new c(owner)] fails with the same error. *)
Theorem guard_messages go k (c : FunctionObject E) (this : Storage E)
    (owner : Value) (w : World E) :
  isDevelopingApp h = true →
  Produced h fuel go k c → STORAGE c = Some this →
  (isDestroying h (ext w) owner = true →
   Injection.getInjections h this owner w =
     (Throw (AssertionError
        "cannot call (unknown function) while the owner is being destroyed"), w) ∧
   Injection.getInjected h this owner w =
     (Throw (AssertionError
        "cannot call (unknown function) while the owner is being destroyed"), w) ∧
   fst (construct c [owner] w) =
     Throw (AssertionError
        "cannot call (unknown function) while the owner is being destroyed")) ∧
  (isDestroying h (ext w) owner = false → isDestroyed h (ext w) owner = true →
   Injection.getInjections h this owner w =
     (Throw (AssertionError
        "cannot call (unknown function) after the owner has already been destroyed"), w) ∧
   Injection.getInjected h this owner w =
     (Throw (AssertionError
        "cannot call (unknown function) after the owner has already been destroyed"), w) ∧
   fst (construct c [owner] w) =
     Throw (AssertionError
        "cannot call (unknown function) after the owner has already been destroyed")).
Proof.
  intros Hdev Hp Hs. pose proof (Produced_name _ _ _ _ Hp Hs) as Hn.
  apply Produced_inv in Hp as (st & name & -> & _ & _).
  cbn in Hs. injection Hs as <-.
  split.
  - intros Hd.
    assert (∀ w0 : World E, ext w0 = ext w →
              Injection.getInjected h st owner w0 =
              (Throw (AssertionError
                 "cannot call (unknown function) while the owner is being destroyed"), w0))
      as Hg.
    { intros w0 He. unfold Injection.getInjected. rewrite guards_eq.
      rewrite He, Hd, Hdev, Hn. done. }
    split; [| split; [by apply Hg |]].
    + unfold Injection.getInjections. rewrite guards_eq. rewrite Hd, Hdev, Hn. done.
    + unfold construct, bind at 1, new_object, bind at 1, fresh.
      cbn [Manager.setHelperManager constructor_for fn_code]. rewrite code_new.
      unfold bind. by rewrite Hg.
  - intros Hd1 Hd2.
    assert (∀ w0 : World E, ext w0 = ext w →
              Injection.getInjected h st owner w0 =
              (Throw (AssertionError
                 "cannot call (unknown function) after the owner has already been destroyed"),
               w0)) as Hg.
    { intros w0 He. unfold Injection.getInjected. rewrite guards_eq.
      rewrite He, Hd1, Hd2, Hdev, Hn. done. }
    split; [| split; [by apply Hg |]].
    + unfold Injection.getInjections. rewrite guards_eq. rewrite Hd1, Hd2, Hdev, Hn. done.
    + unfold construct, bind at 1, new_object, bind at 1, fresh.
      cbn [Manager.setHelperManager constructor_for fn_code]. rewrite code_new.
      unfold bind. by rewrite Hg.
Qed.
End TaggingAndNames.

(** ** The shape of a bag *)

Section Shape.
Context {E : Type} (h : Host E).
Local Abbreviation M := (@M E).

Lemma defineProperty_eq rule owner r (w : World E) :
  defineProperty rule owner r w =
  Object_defineProperty r (rule_name rule) (getter_of rule owner (next w)) (alloc rule w).
Proof. by destruct rule. Qed.

Lemma alloc_heap rule (w : World E) : heap (alloc rule w) = heap w.
Proof. by destruct rule. Qed.

Lemma alloc_next rule (w : World E) : next (alloc rule w) = S (next w).
Proof. by destruct rule. Qed.

Lemma getter_id_getter_of rule owner id : getter_id (getter_of rule owner id) = id.
Proof. by destruct rule. Qed.

Lemma step_fresh rule owner r (w : World E) names :
  building w r names → rule_name rule ∉ names →
  ∃ w', defineProperty rule owner r w = (Ok (), w') ∧
        building w' r (rule_name rule :: names) ∧
        has_getter w' r (rule_name rule) (getter_of rule owner (next w)) ∧
        (∀ n get, has_getter w r n get → has_getter w' r n get) ∧
        (∀ n, n ≠ rule_name rule → lacks w r n → lacks w' r n) ∧
        ext w' = ext w ∧ trace w' = trace w.
Proof.
  intros (o & Ho & Hext & Hdom & Hprops) Hnew.
  assert (props o !! rule_name rule = None) as Hnone.
  { destruct (props o !! rule_name rule) eqn:Hl; [| done].
    exfalso. apply Hnew, Hdom. by rewrite Hl. }
  rewrite defineProperty_eq. unfold Object_defineProperty.
  rewrite alloc_heap, Ho, Hnone, Hext.
  eexists. split; [done |].
  set (d := {| p_kind := Accessor (getter_of rule owner (next w)); p_configurable := false |}).
  set (o' := {| props := <[rule_name rule := d]> (props o); extensible := true |}).
  assert (∀ m (w0 : World E), heap (set_heap (<[r := o']> m) w0) !! r = Some o')
    as Ho' by (intros; unfold set_heap; cbn [heap]; by rewrite lookup_insert_eq).
  split; [| split; [| split; [| split]]].
  - exists o'. split; [done |]. split; [done |]. split.
    + intros n. cbn. rewrite elem_of_cons.
      destruct (decide (n = rule_name rule)) as [-> | Hne].
      * rewrite lookup_insert_eq. split; [by eexists | by left].
      * rewrite lookup_insert_ne by done. rewrite <- Hdom. split; [by intros [? | ?] | by right].
    + intros n d0. cbn [props o']. unfold set_heap. cbn [next]. rewrite alloc_next.
      destruct (decide (n = rule_name rule)) as [-> | Hne].
      * rewrite lookup_insert_eq. intros [= <-]. split; [done |].
        eexists. split; [done |]. rewrite getter_id_getter_of. lia.
      * rewrite lookup_insert_ne by done. intros Hd0.
        destruct (Hprops n d0 Hd0) as (Hc & get & Hk & Hid).
        split; [done |]. exists get. split; [done | lia].
  - exists o', d. split; [done |]. split; [| done]. cbn. by rewrite lookup_insert_eq.
  - intros n get (o0 & d0 & Ho0 & Hd0 & Hk). rewrite Ho in Ho0. injection Ho0 as <-.
    exists o', d0. split; [done |]. split; [| done]. cbn.
    rewrite lookup_insert_ne; [done |]. intros <-. congruence.
  - intros n Hne (o0 & Ho0 & Hl). rewrite Ho in Ho0. injection Ho0 as <-.
    exists o'. split; [done |]. cbn. by rewrite lookup_insert_ne.
  - by destruct rule.
Qed.

Lemma step_duplicate rule owner r (w : World E) names :
  building w r names → rule_name rule ∈ names →
  defineProperty rule owner r w =
  (Throw (TypeError "Cannot redefine property"), alloc rule w).
Proof.
  intros (o & Ho & Hext & Hdom & Hprops) Hin.
  apply Hdom in Hin as [d Hd].
  destruct (Hprops _ _ Hd) as (Hc & get & Hk & Hid).
  rewrite defineProperty_eq. unfold Object_defineProperty.
  rewrite alloc_heap, Ho, Hd, Hc, Hk. rewrite getter_id_getter_of.
  case_decide; [lia | done].
Qed.

(** The loop over the rules, when their names are distinct and new *)
Lemma loop_distinct rules owner r (w : World E) names :
  building w r names →
  NoDup (rule_name <$> rules) → (∀ rule, rule ∈ rules → rule_name rule ∉ names) →
  ∃ w', for_of rules (fun rule => defineProperty rule owner r) w = (Ok (), w') ∧
        building w' r ((rule_name <$> reverse rules) ++ names) ∧
        (∀ rule, rule ∈ rules →
           ∃ id, has_getter w' r (rule_name rule) (getter_of rule owner id)) ∧
        (∀ n get, has_getter w r n get → has_getter w' r n get) ∧
        (∀ n, n ∉ rule_name <$> rules → lacks w r n → lacks w' r n) ∧
        ext w' = ext w ∧ trace w' = trace w.
Proof.
  revert w names. induction rules as [|rule rules IH]; intros w names Hb Hnd Hnew.
  - exists w. split; [done |]. split; [done |]. split; [by intros ? ?%elem_of_nil |]. done.
  - apply NoDup_cons in Hnd as [Hnotin Hnd].
    destruct (step_fresh rule owner r w names Hb) as (w1 & Hstep & Hb1 & Hg1 & Hk1 & Hl1 & He1 & Ht1).
    { apply Hnew. by left. }
    destruct (IH w1 (rule_name rule :: names) Hb1 Hnd) as (w' & Hrest & Hb' & Hg' & Hk' & Hl' & He' & Ht').
    { intros rule' Hin [Heq | Hold]%elem_of_cons.
      - apply Hnotin. rewrite <- Heq. by apply list_elem_of_fmap_2.
      - by apply (Hnew rule'); [right |]. }
    exists w'. split; [cbn; by rewrite (bind_ok _ _ _ _ _ Hstep) |].
    split; [| split; [| split; [| split]]].
    + rewrite reverse_cons, fmap_app, <- app_assoc. done.
    + intros rule' [-> | Hin]%elem_of_cons; [| by apply Hg'].
      exists (next w). by apply Hk'.
    + intros n get Hget. by apply Hk', Hk1.
    + intros n Hn Hl. rewrite fmap_cons, not_elem_of_cons in Hn. destruct Hn as [Hne Hn].
      apply Hl'; [done |]. by apply Hl1.
    + split; congruence.
Qed.

(** The loop over the rules, when one of them defines a property that is
    there already *)
Lemma loop_duplicate rules owner r (w : World E) names :
  building w r names →
  ¬ (NoDup (rule_name <$> rules) ∧ ∀ rule, rule ∈ rules → rule_name rule ∉ names) →
  ∃ w', for_of rules (fun rule => defineProperty rule owner r) w =
          (Throw (TypeError "Cannot redefine property"), w').
Proof.
  revert w names. induction rules as [|rule rules IH]; intros w names Hb Hbad.
  - exfalso. apply Hbad. split; [constructor | by intros ? ?%elem_of_nil].
  - destruct (decide (rule_name rule ∈ names)) as [Hin | Hnotin].
    + exists (alloc rule w). cbn.
      by rewrite (bind_throw _ _ _ _ _ (step_duplicate rule owner r w names Hb Hin)).
    + destruct (step_fresh rule owner r w names Hb Hnotin) as (w1 & Hstep & Hb1 & _).
      destruct (IH w1 (rule_name rule :: names) Hb1) as (w' & Hrest).
      { intros [Hnd Hnew]. apply Hbad. split.
        - rewrite fmap_cons. apply NoDup_cons. split; [| done].
          intros (rule' & Heq & Hin)%list_elem_of_fmap.
          apply (Hnew rule' Hin). rewrite <- Heq. by left.
        - intros rule' [-> | Hin]%elem_of_cons; [done |].
          intros Hold. apply (Hnew rule' Hin). by right. }
      exists w'. cbn. by rewrite (bind_ok _ _ _ _ _ Hstep).
Qed.

Lemma building_new_object (w : World E) :
  building (set_heap (<[next w := {| props := ∅; extensible := true |}]> (heap w))
                     (set_next (S (next w)) w)) (next w) [].
Proof.
  eexists. split; [unfold set_heap; cbn [heap]; by rewrite lookup_insert_eq |].
  split; [done |]. split.
  - intros n. cbn. rewrite lookup_empty. split; [by intros ?%elem_of_nil | by intros [? ?]].
  - intros n d. cbn. by rewrite lookup_empty.
Qed.
End Shape.

Section Bags.
Context {E : Type} (h : Host E).
Local Abbreviation M := (@M E).

Lemma new_object_eq (w : World E) : new_object w = (Ok (next w), with_bag w).
Proof. done. Qed.

Lemma freeze_has_getter r (w : World E) n get :
  has_getter w r n get → has_getter (snd (Object_freeze r w)) r n get.
Proof.
  intros (o & d & Ho & Hd & Hk). unfold has_getter, Object_freeze. rewrite Ho.
  unfold set_heap. cbn [snd heap].
  eexists _, (freeze_descriptor d). split; [by rewrite lookup_insert_eq |].
  split; [cbn; by rewrite lookup_fmap, Hd |]. cbn. by rewrite Hk.
Qed.

Lemma freeze_lacks r (w : World E) n :
  lacks w r n → lacks (snd (Object_freeze r w)) r n.
Proof.
  intros (o & Ho & Hl). unfold lacks, Object_freeze. rewrite Ho.
  unfold set_heap. cbn [snd heap].
  eexists. split; [by rewrite lookup_insert_eq |]. cbn. by rewrite lookup_fmap, Hl.
Qed.

Lemma freeze_eq r (w : World E) :
  Object_freeze r w = (Ok (), snd (Object_freeze r w)) ∧
  ext (snd (Object_freeze r w)) = ext w ∧ trace (snd (Object_freeze r w)) = trace w.
Proof. unfold Object_freeze. by destruct (heap w !! r). Qed.

(** The rules of a builder, run on a new bag: with distinct names each of
    them installs its getter *)
Lemma rules_distinct rules owner (w : World E) :
  NoDup (rule_name <$> rules) →
  ∃ w', for_of rules (fun rule => defineProperty rule owner (next w)) (with_bag w) =
          (Ok (), w') ∧
        (∀ rule, rule ∈ rules →
           ∃ id, has_getter w' (next w) (rule_name rule) (getter_of rule owner id)) ∧
        (∀ n, n ∉ rule_name <$> rules → lacks w' (next w) n) ∧
        ext w' = ext w ∧ trace w' = trace w.
Proof.
  intros Hnd.
  destruct (loop_distinct rules owner (next w) (with_bag w) [] (building_new_object w) Hnd)
    as (w' & Hfor & _ & Hg & _ & Hl & He & Ht); [by intros ? _ ?%elem_of_nil |].
  exists w'. split; [done |]. split; [done |]. split; [| done].
  intros n Hn. apply Hl; [done |]. eexists. split; [apply lookup_insert_eq | done].
Qed.

Lemma rules_duplicate rules owner (w : World E) :
  ¬ NoDup (rule_name <$> rules) →
  ∃ w', for_of rules (fun rule => defineProperty rule owner (next w)) (with_bag w) =
          (Throw (TypeError "Cannot redefine property"), w').
Proof.
  intros Hdup.
  apply (loop_duplicate rules owner (next w) (with_bag w) [] (building_new_object w)).
  by intros [Hnd _].
Qed.

Lemma build_bag_distinct rules owner (w : World E) :
  NoDup (rule_name <$> rules) →
  ∃ w', build_bag rules owner w = (Ok (VRef (next w)), w') ∧
        (∀ rule, rule ∈ rules →
           ∃ id, has_getter w' (next w) (rule_name rule) (getter_of rule owner id)) ∧
        (∀ n, n ∉ rule_name <$> rules → lacks w' (next w) n) ∧
        ext w' = ext w ∧ trace w' = trace w.
Proof.
  intros Hnd.
  destruct (rules_distinct rules owner w Hnd) as (w1 & Hfor & Hg & Hl & He & Ht).
  destruct (freeze_eq (next w) w1) as (Hfr & He' & Ht').
  exists (snd (Object_freeze (next w) w1)). split.
  { unfold build_bag. rewrite (bind_ok _ _ _ _ _ (new_object_eq w)).
    rewrite (bind_ok _ _ _ _ _ Hfor). by rewrite (bind_ok _ _ _ _ _ Hfr). }
  split; [| split; [| split; congruence]].
  - intros rule Hin. destruct (Hg rule Hin) as [id Hid]. exists id. by apply freeze_has_getter.
  - intros n Hn. by apply freeze_lacks, Hl.
Qed.

Lemma build_bag_duplicate rules owner (w : World E) :
  ¬ NoDup (rule_name <$> rules) →
  ∃ w', build_bag rules owner w = (Throw (TypeError "Cannot redefine property"), w').
Proof.
  intros Hdup. destruct (rules_duplicate rules owner w Hdup) as (w1 & Hfor).
  exists w1. unfold build_bag. rewrite (bind_ok _ _ _ _ _ (new_object_eq w)).
  by rewrite (bind_throw _ _ _ _ _ Hfor).
Qed.

Lemma polaris_build_bag_duplicate rules scope (w : World E) :
  ¬ NoDup (rule_name <$> rules) →
  ∃ w', polaris_build_bag h rules scope w =
          (Throw (TypeError "Cannot redefine property"), w').
Proof.
  intros Hdup. destruct (rules_duplicate rules scope w Hdup) as (w1 & Hfor).
  exists w1. unfold polaris_build_bag. rewrite (bind_ok _ _ _ _ _ (new_object_eq w)).
  by rewrite (bind_throw _ _ _ _ _ Hfor).
Qed.

(** What a read of a property with a getter does *)
Lemma get_property_getter fuel r name get (w : World E) :
  has_getter w r name get →
  get_property h (S fuel) (VRef r) name w =
  match get with
  | GAlias _ owner => (Ok owner, w)
  | GService cell owner key => cached cell (resolve h owner key) w
  | GProperty cell owner callback => cached cell (call h fuel callback (VRef r) [owner]) w
  end.
Proof. intros (o & d & Ho & Hd & Hk). cbn. by rewrite Ho, Hd, Hk. Qed.

Lemma get_property_lacks fuel r name (w : World E) :
  lacks w r name →
  get_property h (S fuel) (VRef r) name w = host (inherited h (VRef r) name) w.
Proof. intros (o & Ho & Hl). cbn. by rewrite Ho, Hl. Qed.

Lemma cached_first cell (compute : M Value) (w : World E) :
  unresolved w cell →
  cached cell compute w = (let* v := compute in write_cell cell v >> ret v) w.
Proof. unfold cached, bind at 1, read_cell, unresolved. cbn. by intros ->. Qed.
End Bags.

Section BagReads.
Context {E : Type} (h : Host E).
Variable fuel : nat.
Local Abbreviation M := (@M E).

(** The reads of a bag that was just built from rules with distinct names *)
Lemma reads_of_build_bag rules owner (w : World E) :
  NoDup (rule_name <$> rules) →
  ∃ w', build_bag rules owner w = (Ok (VRef (next w)), w') ∧
        ext w' = ext w ∧ trace w' = trace w ∧
        (∀ name, RuleAlias name ∈ rules →
           get_property h (S fuel) (VRef (next w)) name w' = (Ok owner, w')) ∧
        (∀ name key, RuleService name key ∈ rules →
           ∃ cell, get_property h (S fuel) (VRef (next w)) name w' =
                   (let* v := resolve h owner key in write_cell cell v >> ret v) w') ∧
        (∀ name callback, RuleProperty name callback ∈ rules →
           ∃ cell, get_property h (S fuel) (VRef (next w)) name w' =
                   (let* v := call h fuel callback (VRef (next w)) [owner] in
                    write_cell cell v >> ret v) w') ∧
        (∀ name, name ∉ rule_name <$> rules →
           get_property h (S fuel) (VRef (next w)) name w' =
           host (inherited h (VRef (next w)) name) w').
Proof.
  intros Hnd.
  destruct (build_bag_distinct rules owner w Hnd) as (w' & Hb & Hg & Hl & He & Ht).
  pose proof (build_bag_untouched _ _ _ _ _ Hb) as Hu.
  exists w'. split; [done |]. split; [done |]. split; [done |].
  split; [| split; [| split]].
  - intros name Hin. destruct (Hg _ Hin) as [id Hget]. cbn [rule_name getter_of] in Hget.
    by rewrite (get_property_getter h fuel _ _ _ _ Hget).
  - intros name key Hin. destruct (Hg _ Hin) as [id Hget]. cbn [rule_name getter_of] in Hget. exists id.
    rewrite (get_property_getter h fuel _ _ _ _ Hget). cbn.
    apply cached_first. by apply (Hu _ _ _ Hget).
  - intros name callback Hin. destruct (Hg _ Hin) as [id Hget]. cbn [rule_name getter_of] in Hget. exists id.
    rewrite (get_property_getter h fuel _ _ _ _ Hget). cbn.
    apply cached_first. by apply (Hu _ _ _ Hget).
  - intros name Hn. by apply get_property_lacks, Hl.
Qed.

(** X4: a builder whose rules define a property twice makes no bag: the
    second definition of the name throws a TypeError, in the classic
    builder and in the polaris one; with distinct names the classic
    builder returns a new bag. *)
Theorem distinct_names a rules owner (w : World E) :
  arrays w !! a = Some rules →
  (NoDup (rule_name <$> rules) →
   ∃ w', Builder.getInjections {| Builder.properties := a |} owner w =
           (Ok (VRef (next w)), w')) ∧
  (¬ NoDup (rule_name <$> rules) →
   (∃ w', Builder.getInjections {| Builder.properties := a |} owner w =
            (Throw (TypeError "Cannot redefine property"), w')) ∧
   (∃ w', Polaris.getInjections h {| Polaris.properties := a |} owner w =
            (Throw (TypeError "Cannot redefine property"), w'))).
Proof.
  intros Ha. rewrite (getInjections_rules _ _ _ _ Ha).
  rewrite (polaris_getInjections_rules h _ _ _ _ Ha). split.
  - intros Hnd. destruct (build_bag_distinct rules owner w Hnd) as (w' & Hb & _).
    by exists w'.
  - intros Hdup. split;
      [by apply build_bag_duplicate | by apply polaris_build_bag_duplicate].
Qed.

(** X5: the properties of a bag of the classic builder, read for the
    first time: an alias is the owner and its read changes nothing; a
    service is what the lookup of its key on the owner returns; a computed
    property is what its callback returns, called with the bag as [this]
    and the owner as its argument; any other name is no property of the
    bag itself, and is read from its prototype chain.  Building the bag
    looks nothing up and calls nothing. *)
Theorem classic_bag_reads a rules owner (w : World E) :
  arrays w !! a = Some rules → NoDup (rule_name <$> rules) →
  ∃ w', Builder.getInjections {| Builder.properties := a |} owner w =
          (Ok (VRef (next w)), w') ∧
        ext w' = ext w ∧ trace w' = trace w ∧
        (∀ name, RuleAlias name ∈ rules →
           get_property h (S fuel) (VRef (next w)) name w' = (Ok owner, w')) ∧
        (∀ name key, RuleService name key ∈ rules →
           ∃ cell, get_property h (S fuel) (VRef (next w)) name w' =
                   (let* v := resolve h owner key in write_cell cell v >> ret v) w') ∧
        (∀ name callback, RuleProperty name callback ∈ rules →
           ∃ cell, get_property h (S fuel) (VRef (next w)) name w' =
                   (let* v := call h fuel callback (VRef (next w)) [owner] in
                    write_cell cell v >> ret v) w') ∧
        (∀ name, name ∉ rule_name <$> rules →
           get_property h (S fuel) (VRef (next w)) name w' =
           host (inherited h (VRef (next w)) name) w').
Proof.
  intros Ha Hnd. rewrite (getInjections_rules _ _ _ _ Ha).
  by apply reads_of_build_bag.
Qed.
End BagReads.

Section PolarisBags.
Context {E : Type} (h : Host E).
Local Abbreviation M := (@M E).

(** X6: the polaris builder sets the scope of a bag once, on the bag and
    the scope it was asked for, when the rules have run: if that returns
    the bag is returned frozen, and if it throws there is no bag. *)
Theorem polaris_scope_set a rules scope (w : World E) :
  arrays w !! a = Some rules → NoDup (rule_name <$> rules) →
  ∃ w', trace w' = EvSetScope (VRef (next w)) scope :: trace w ∧
        ext w' = snd (setScope h (VRef (next w)) scope (ext w)) ∧
        match fst (setScope h (VRef (next w)) scope (ext w)) with
        | Ok _ => Polaris.getInjections h {| Polaris.properties := a |} scope w =
                    (Ok (VRef (next w)), w') ∧ frozen w' (next w)
        | Throw e => Polaris.getInjections h {| Polaris.properties := a |} scope w =
                       (Throw e, w')
        end.
Proof.
  intros Ha Hnd. rewrite (polaris_getInjections_rules h _ _ _ _ Ha).
  destruct (rules_distinct rules scope w Hnd) as (w1 & Hfor & Hg & Hl & He & Ht).
  pose proof (polaris_build_bag_frozen h rules scope w) as Hfrozen.
  revert Hfrozen. unfold polaris_build_bag.
  rewrite (bind_ok _ _ _ _ _ (new_object_eq w)), (bind_ok _ _ _ _ _ Hfor).
  unfold bind, emit, host. cbn [ext set_trace]. rewrite He.
  destruct (setScope h (VRef (next w)) scope (ext w)) as [[v|e] x]; cbn [fst snd].
  - set (w2 := set_ext x _).
    destruct (freeze_eq (next w) w2) as (Hfr & He' & Ht'). rewrite Hfr.
    intros Hfrozen. exists (snd (Object_freeze (next w) w2)).
    split; [by rewrite Ht'; cbn; rewrite Ht |]. split; [by rewrite He' |].
    split; [done |]. by destruct (Hfrozen _ _ eq_refl) as (r & [= <-] & Hf).
  - intros _. eexists. split; [| split; [| done]]; [cbn; by rewrite Ht | done].
Qed.
End PolarisBags.

Section Binding.
Context {E : Type} (h : Host E).
Variable fuel : nat.
Local Abbreviation M := (@M E).

Lemma call_bound fuel' r target boundThis this args (w : World E) :
  bounds w !! r = Some (target, boundThis) →
  call h (S fuel') (VBound r) this args w = call h fuel' target boundThis args w.
Proof. intros Hb. rewrite call_S. by rewrite Hb. Qed.

(** The first resolution of the function of an owner, under [into(fn)] *)
Lemma getInjected_bind (this : Storage E) fn owner (w : World E) g w' :
  _getInjected this = (λ injections, Function_bind fn injections) →
  injected (storage_of w (maps this)) !! owner = None →
  Injection.getInjected h this owner w = (Ok g, w') →
  ∃ r bag, g = VBound r ∧ bounds w' !! r = Some (fn, bag) ∧ is_callable fn = true ∧
           injections (storage_of w' (maps this)) !! owner = Some bag.
Proof.
  intros Hd Hnone Hg.
  destruct (getInjected_ok_inv _ _ _ _ _ _ Hg)
    as (Ha & Hr & Hl & [[-> Ht] | (bag & w1 & w2 & Hgi & Hgd & Hset)]); [congruence |].
  destruct (getInjections_ok_inv _ _ _ _ _ _ Hgi) as (_ & _ & Hbag & _).
  rewrite Hd in Hgd. unfold Function_bind in Hgd.
  destruct (is_callable fn) eqn:Hc; [| discriminate].
  unfold bind, fresh in Hgd. injection Hgd as <- <-.
  unfold injected_set in Hset. rewrite Hr in Hset. injection Hset as <-.
  exists (next w1), bag. split; [done |].
  split; [cbn; by rewrite lookup_insert_eq |]. split; [done |].
  by rewrite storage_of_insert.
Qed.

(** X7: what [into(fn)] hands out.  The function a constructor of
    [into(fn)] returns for an owner it has no function for yet is [fn]
    bound to the bag the cache holds for that owner: whatever receiver it
    is called with, the call is a call of [fn] with that bag as [this] and
    the same arguments. *)
Theorem into_binds_bag go fn (c : FunctionObject E) (this : Storage E)
    (owner : Value) (w w1 : World E) (g : Value) :
  Produced h fuel go (Into fn) c → STORAGE c = Some this →
  injected (storage_of w (maps this)) !! owner = None →
  construct c [owner] w = (Ok g, w1) →
  ∃ r bag, g = VBound r ∧ bounds w1 !! r = Some (fn, bag) ∧
           injections (storage_of w1 (maps this)) !! owner = Some bag ∧
           ∀ fuel' receiver args,
             call h (S fuel') g receiver args w1 = call h fuel' fn bag args w1.
Proof.
  intros Hp Hs Hnone Hnew.
  apply Produced_inv in Hp as (st & name & -> & Hi & Hd).
  cbn in Hs. injection Hs as <-.
  unfold construct in Hnew.
  apply bind_ok_inv in Hnew as (r0 & w0 & Hobj & Hnew).
  apply bind_ok_inv in Hnew as (res & w2 & Hrun & Hnew).
  cbn in Hrun. rewrite code_new in Hrun. injection Hnew as <- <-.
  injection Hobj as <- <-.
  change (Injection.first [owner]) with owner in Hrun.
  destruct (getInjected_bind st fn owner (with_bag w) _ _ Hd Hnone Hrun)
    as (r & bag & -> & Hb & Hc & Hbag).
  exists r, bag. split; [done |]. split; [done |]. split; [done |].
  intros fuel' receiver args. by apply call_bound.
Qed.
End Binding.

Section Separation.
Context {E : Type} (h : Host E).
Variable fuel : nat.
Local Abbreviation M := (@M E).

Lemma storages_insert_ne s s' st (w : World E) :
  s' ≠ s → storages (set_storages (<[s := st]> (storages w)) w) !! s' = storages w !! s'.
Proof. intros Hne. cbn. by rewrite lookup_insert_ne. Qed.

(** [getInjections] and [getInjected] write to the weak maps of their own
    storage only *)
Lemma getInjections_elsewhere (this : Storage E) owner (w : World E) r w' s :
  builder_injections h (_getInjections this) → s ≠ maps this →
  Injection.getInjections h this owner w = (r, w') →
  storages w' !! s = storages w !! s.
Proof.
  intros Hi Hne. unfold Injection.getInjections. rewrite guards_eq.
  destruct (_ && _); [by intros [= <- <-] |].
  unfold bind at 1. rewrite WeakMap_get_eq.
  destruct (truthy _) eqn:Ht; cbn; [by intros [= <- <-] |].
  unfold bind at 1.
  destruct (_getInjections this owner w) as [[b|e] w1] eqn:Hrun;
    pose proof (builds_builder_injections h _ owner Hi _ _ _ Hrun) as (_ & _ & Hst & _).
  - unfold bind, injections_set. destruct (is_reference owner); cbn.
    + intros [= <- <-]. cbn. rewrite lookup_insert_ne by done. by rewrite Hst.
    + intros [= <- <-]. by rewrite Hst.
  - intros [= <- <-]. by rewrite Hst.
Qed.

Lemma getInjected_elsewhere (this : Storage E) owner (w : World E) r w' s :
  builder_injections h (_getInjections this) →
  builder_injected h fuel (_getInjected this) → s ≠ maps this →
  Injection.getInjected h this owner w = (r, w') →
  storages w' !! s = storages w !! s.
Proof.
  intros Hi Hd Hne. unfold Injection.getInjected. rewrite guards_eq.
  destruct (_ && _); [by intros [= <- <-] |].
  unfold bind at 1. rewrite WeakMap_get_eq.
  destruct (truthy _) eqn:Ht; cbn -[Injection.getInjections]; [by intros [= <- <-] |].
  unfold bind at 1.
  destruct (Injection.getInjections h this owner w) as [[bag|e] w1] eqn:Hb;
    pose proof (getInjections_elsewhere _ _ _ _ _ _ Hi Hne Hb) as H1.
  2: { by intros [= <- <-]. }
  unfold bind at 1.
  destruct (_getInjected this bag w1) as [[g|e] w2] eqn:Hfin;
    pose proof (finalizes_builder_injected h fuel _ bag Hd _ _ _ Hfin) as (_ & _ & Hst).
  2: { intros [= <- <-]. by rewrite Hst. }
  unfold bind, injected_set. destruct (is_reference owner).
  - intros [= <- <-]. cbn. rewrite lookup_insert_ne by done. by rewrite Hst.
  - intros [= <- <-]. by rewrite Hst.
Qed.

(** X8: every constructor has a cache of its own.  Two constructors
    made by [constructorFor], one after the other, have different
    storages, also when they are made from the same callbacks.  When the
    second is a constructor of a builder, building the bag of an owner
    leaves the bags and functions that the first one holds as they are; and
    when it is a constructor of [into], so does resolving the function of
    an owner, through its storage or as [new c(owner)]. *)
Theorem separate_caches gi1 gd1 go1 name1 gi2 gd2 go2 name2
    (c1 c2 : FunctionObject E) (s1 s2 : Storage E) (w w1 w2 w3 : World E) :
  Injection.constructorFor h fuel gi1 gd1 go1 name1 w = (Ok c1, w1) →
  next w1 ≤ next w2 →
  Injection.constructorFor h fuel gi2 gd2 go2 name2 w2 = (Ok c2, w3) →
  STORAGE c1 = Some s1 → STORAGE c2 = Some s2 →
  builder_injections h gi2 →
  maps s1 ≠ maps s2 ∧
  (∀ owner (w4 : World E) r w5,
     Injection.getInjections h s2 owner w4 = (r, w5) →
     storage_of w5 (maps s1) = storage_of w4 (maps s1)) ∧
  (∀ fn, gd2 = (λ injections, Function_bind fn injections) →
     ∀ owner (w4 : World E) r w5,
       Injection.getInjected h s2 owner w4 = (r, w5) ∨
       construct c2 [owner] w4 = (r, w5) →
       storage_of w5 (maps s1) = storage_of w4 (maps s1)).
Proof.
  rewrite !constructorFor_eq. intros [= <- <-] Hle [= <- <-] [= <-] [= <-] Hi.
  cbn [maps storage_for with_storage next set_storages set_next] in *.
  assert (next w ≠ next w2) as Hne by lia. split; [done |]. split.
  - intros owner w4 r w5 Hrun. unfold storage_of.
    by rewrite (getInjections_elsewhere (storage_for gi2 gd2 w2) owner w4 r w5 (next w)
                  Hi Hne Hrun).
  - intros fn -> owner w4 r w5.
    assert (builder_injected h fuel (λ injections, Function_bind (E := E) fn injections))
      as Hd by (exists fn; by left).
    intros [Hrun | Hrun].
    + unfold storage_of.
      by rewrite (getInjected_elsewhere (storage_for gi2 _ w2) owner w4 r w5 (next w)
                    Hi Hd Hne Hrun).
    + revert Hrun. unfold construct. rewrite (bind_ok _ _ _ _ _ (new_object_eq w4)).
      unfold bind at 1. cbn [fn_code constructor_for]. rewrite code_new.
      destruct (Injection.getInjected h _ _ _) as [[res|e] w6] eqn:Hrun; intros [= <- <-];
        unfold storage_of;
        by rewrite (getInjected_elsewhere (storage_for gi2 _ w2) _ _ _ _ (next w)
                      Hi Hd Hne Hrun).
Qed.
End Separation.

Section HelperValue.
Context {E : Type} (h : Host E).
Variable fuel : nat.
Local Abbreviation M := (@M E).

(** X9: the value of a helper.  When the manager of an owner creates the
    helper of a constructor of [into(fn)] that has no function for the
    owner yet, the value of the helper is what [fn] returns, called with
    the owner's bag as [this] and with the positional arguments, followed
    by the named ones if there are any. *)
Theorem helper_value go fn (c : FunctionObject E) (this : Storage E) (owner : Value)
    (args : Manager.Arguments) (w w1 : World E) (state : Manager.State) :
  Produced h fuel go (Into fn) c → STORAGE c = Some this →
  injected (storage_of w (maps this)) !! owner = None →
  Manager.createHelper h (Manager.factory owner) c args w = (Ok state, w1) →
  ∃ bag, injections (storage_of w1 (maps this)) !! owner = Some bag ∧
         Manager.getValue h (S fuel) state w1 =
         call h fuel fn bag
              (Manager.positional args ++
               if (0 <? length (Object_keys h (ext w1) (Manager.named args)))%nat
               then [Manager.named args] else []) w1.
Proof.
  intros Hp Hs Hnone Hcreate.
  apply Produced_inv in Hp as (st & name & -> & Hi & Hd).
  cbn in Hs. injection Hs as <-.
  rewrite (proj2 (accepted_constructor h fuel st go name)) in Hcreate.
  apply bind_ok_inv in Hcreate as (g & w2 & Hnew & [= <- <-]).
  unfold construct in Hnew. rewrite (bind_ok _ _ _ _ _ (new_object_eq w)) in Hnew.
  apply bind_ok_inv in Hnew as (res & w3 & Hrun & [= <- <-]).
  cbn [fn_code Manager.setHelperManager constructor_for] in Hrun.
  rewrite code_new in Hrun.
  change (Injection.first _) with owner in Hrun.
  destruct (getInjected_bind h st fn owner (with_bag w) _ _ Hd Hnone Hrun)
    as (r & bag & -> & Hb & Hc & Hbag).
  exists bag. split; [done |].
  unfold Manager.getValue, bind at 1, ask. cbn [Manager.fn Manager.args is_reference].
  destruct (0 <? _)%nat.
  - by apply call_bound.
  - rewrite app_nil_r. by apply call_bound.
Qed.
End HelperValue.

Section PrimitiveOwner.
Context {E : Type} (h : Host E).
Variable fuel : nat.
Local Abbreviation M := (@M E).

(** X10: an owner that is no object.  The weak maps find nothing for it
    and refuse it as a key: its bag is built and then dropped with a
    TypeError, by [getInjections], by [getInjected] and, when the world
    is the one in which [new c(owner)] has made its receiver, by
    [new c(owner)]; the maps of the storage stay as they are. *)
Theorem primitive_owner go k (c : FunctionObject E) (this : Storage E) (owner bag : Value)
    (w w1 : World E) :
  Produced h fuel go k c → STORAGE c = Some this →
  is_reference owner = false → alive h w owner →
  _getInjections this owner w = (Ok bag, w1) →
  Injection.getInjections h this owner w =
    (Throw (TypeError "Invalid value used as weak map key"), w1) ∧
  Injection.getInjected h this owner w =
    (Throw (TypeError "Invalid value used as weak map key"), w1) ∧
  storages w1 = storages w ∧
  ∀ w0, w = with_bag w0 →
        construct c [owner] w0 = (Throw (TypeError "Invalid value used as weak map key"), w1).
Proof.
  intros Hp Hs Hr Ha Hrun.
  destruct (Produced_storage h fuel go k c this Hp Hs) as [Hi Hd].
  assert (∀ w0 w2 : World E, alive h w0 owner → _getInjections this owner w0 = (Ok bag, w2) →
            Injection.getInjections h this owner w0 =
            (Throw (TypeError "Invalid value used as weak map key"), w2)) as Hgi.
  { intros w0 w2 Ha0 Hrun0. unfold Injection.getInjections. rewrite guards_pass by done.
    unfold bind at 1. rewrite WeakMap_get_eq, Hr. cbn [truthy negb].
    rewrite (bind_ok _ _ _ _ _ Hrun0). unfold bind, injections_set. by rewrite Hr. }
  assert (∀ w0 w2 : World E, alive h w0 owner → _getInjections this owner w0 = (Ok bag, w2) →
            Injection.getInjected h this owner w0 =
            (Throw (TypeError "Invalid value used as weak map key"), w2)) as Hgd.
  { intros w0 w2 Ha0 Hrun0. unfold Injection.getInjected. rewrite guards_pass by done.
    unfold bind at 1. rewrite WeakMap_get_eq, Hr. cbn [truthy negb].
    by rewrite (bind_throw _ _ _ _ _ (Hgi w0 w2 Ha0 Hrun0)). }
  split; [by apply Hgi |]. split; [by apply Hgd |]. split.
  { by pose proof (builds_builder_injections h _ owner Hi _ _ _ Hrun) as (_ & _ & Hst & _). }
  intros w0 ->.
  apply Produced_inv in Hp as (st & name & -> & _ & _).
  cbn in Hs. injection Hs as <-.
  unfold construct. rewrite (bind_ok _ _ _ _ _ (new_object_eq w0)).
  cbn [fn_code Manager.setHelperManager constructor_for]. rewrite code_new.
  change (Injection.first _) with owner.
  by rewrite (bind_throw _ _ _ _ _ (Hgd (with_bag w0) w1 Ha Hrun)).
Qed.
End PrimitiveOwner.

Section PolarisReads.
Context {E : Type} (h : Host E).
Variable fuel : nat.
Local Abbreviation M := (@M E).

Lemma polaris_build_bag_distinct rules scope (w : World E) v :
  NoDup (rule_name <$> rules) →
  fst (setScope h (VRef (next w)) scope (ext w)) = Ok v →
  ∃ w', polaris_build_bag h rules scope w = (Ok (VRef (next w)), w') ∧
        (∀ rule, rule ∈ rules →
           ∃ id, has_getter w' (next w) (rule_name rule) (getter_of rule scope id)) ∧
        (∀ n, n ∉ rule_name <$> rules → lacks w' (next w) n).
Proof.
  intros Hnd Hok.
  destruct (rules_distinct rules scope w Hnd) as (w1 & Hfor & Hg & Hl & He & Ht).
  unfold polaris_build_bag.
  rewrite (bind_ok _ _ _ _ _ (new_object_eq w)), (bind_ok _ _ _ _ _ Hfor).
  unfold bind, emit, host. cbn [ext set_trace]. rewrite He.
  destruct (setScope h (VRef (next w)) scope (ext w)) as [[v'|e] x]; [| discriminate].
  set (w2 := set_ext x _).
  destruct (freeze_eq (next w) w2) as (Hfr & _). rewrite Hfr.
  exists (snd (Object_freeze (next w) w2)). split; [done |]. split.
  - intros rule Hin. destruct (Hg rule Hin) as [id Hid]. exists id.
    by apply freeze_has_getter.
  - intros n Hn. by apply freeze_lacks, Hl.
Qed.

(** X11: the properties of a bag of the polaris builder, when setting its
    scope has returned, read for the first time: an alias is the scope; a
    service is what the lookup of its factory in the scope returns; a
    computed property is what its callback returns, called with the bag as
    [this] and the scope as its argument; any other name is no property of
    the bag itself, and is read from its prototype chain. *)
Theorem polaris_bag_reads a rules scope (w : World E) v :
  arrays w !! a = Some rules → NoDup (rule_name <$> rules) →
  fst (setScope h (VRef (next w)) scope (ext w)) = Ok v →
  ∃ w', Polaris.getInjections h {| Polaris.properties := a |} scope w =
          (Ok (VRef (next w)), w') ∧
        (∀ name, RuleAlias name ∈ rules →
           get_property h (S fuel) (VRef (next w)) name w' = (Ok scope, w')) ∧
        (∀ name factory, RuleService name (ByFactory factory) ∈ rules →
           ∃ cell, get_property h (S fuel) (VRef (next w)) name w' =
                   (let* v := emit (EvLookup scope (ByFactory factory)) >>
                              host (lookup h scope factory) in
                    write_cell cell v >> ret v) w') ∧
        (∀ name callback, RuleProperty name callback ∈ rules →
           ∃ cell, get_property h (S fuel) (VRef (next w)) name w' =
                   (let* v := call h fuel callback (VRef (next w)) [scope] in
                    write_cell cell v >> ret v) w') ∧
        (∀ name, name ∉ rule_name <$> rules →
           get_property h (S fuel) (VRef (next w)) name w' =
           host (inherited h (VRef (next w)) name) w').
Proof.
  intros Ha Hnd Hok. rewrite (polaris_getInjections_rules h _ _ _ _ Ha).
  destruct (polaris_build_bag_distinct rules scope w v Hnd Hok) as (w' & Hb & Hg & Hl).
  pose proof (polaris_build_bag_untouched _ _ _ _ _ _ Hb) as Hu.
  exists w'. split; [done |]. split; [| split; [| split]].
  - intros name Hin. destruct (Hg _ Hin) as [id Hget]. cbn [rule_name getter_of] in Hget.
    by rewrite (get_property_getter h fuel _ _ _ _ Hget).
  - intros name factory Hin. destruct (Hg _ Hin) as [id Hget].
    cbn [rule_name getter_of] in Hget. exists id.
    rewrite (get_property_getter h fuel _ _ _ _ Hget).
    change (resolve h scope (ByFactory factory))
      with (emit (EvLookup scope (ByFactory factory)) >> host (lookup h scope factory)).
    apply cached_first. by apply (Hu _ _ _ Hget).
  - intros name callback Hin. destruct (Hg _ Hin) as [id Hget].
    cbn [rule_name getter_of] in Hget. exists id.
    rewrite (get_property_getter h fuel _ _ _ _ Hget).
    apply cached_first. by apply (Hu _ _ _ Hget).
  - intros name Hn. by apply get_property_lacks, Hl.
Qed.
End PolarisReads.

Section Chaining.
Context {E : Type} (h : Host E).
Variable fuel : nat.
Local Abbreviation M := (@M E).

Lemma extend_eq a rule rules (w : World E) :
  arrays w !! a = Some rules →
  Builder.extend {| Builder.properties := a |} rule w =
  (Ok {| Builder.properties := next w |},
   set_arrays (<[next w := rules ++ [rule]]> (arrays w)) (set_next (S (next w)) w)).
Proof. intros Ha. unfold Builder.extend, bind, read_array. cbn. by rewrite Ha. Qed.

(** X12: the key of a service.  After [.service(propertyName)] or
    [.service(propertyName, serviceName)] on a builder that does not
    define [propertyName], the bag of an owner has the property, and its
    first read looks up [service:serviceName] on the owner, with
    [propertyName] for the name when none was given. *)
Theorem service_lookup_key a rules propertyName serviceName owner (w : World E) :
  arrays w !! a = Some rules →
  NoDup (rule_name <$> rules) → propertyName ∉ rule_name <$> rules →
  owner ≠ VUndefined → owner ≠ VNull →
  ∃ b w1 w2 cell,
    Builder.service {| Builder.properties := a |} propertyName serviceName w = (Ok b, w1) ∧
    Builder.getInjections b owner w1 = (Ok (VRef (next w1)), w2) ∧
    get_property h (S fuel) (VRef (next w1)) propertyName w2 =
    (let* v := emit (EvLookup owner (ByName (default propertyName serviceName))) >>
               host (owner_lookup h owner
                       ("service:" ++ default propertyName serviceName)%string) in
     write_cell cell v >> ret v) w2.
Proof.
  intros Ha Hnd Hnew Hu Hn.
  set (rule := RuleService propertyName (ByName (default propertyName serviceName))).
  set (w1 := set_arrays (<[next w := rules ++ [rule]]> (arrays w)) (set_next (S (next w)) w)).
  assert (NoDup (rule_name <$> rules ++ [rule])) as Hnd'.
  { rewrite fmap_app. apply NoDup_app. split; [done |]. split; [| apply NoDup_singleton].
    intros n Hin [-> | []%elem_of_nil]%elem_of_cons. by apply Hnew. }
  destruct (reads_of_build_bag h fuel (rules ++ [rule]) owner w1 Hnd')
    as (w2 & Hb & _ & _ & _ & Hs & _).
  destruct (Hs propertyName (ByName (default propertyName serviceName))) as [cell Hread].
  { apply elem_of_app. right. by left. }
  exists {| Builder.properties := next w |}, w1, w2, cell.
  split; [by apply extend_eq |]. split.
  - rewrite (getInjections_rules (next w) (rules ++ [rule])); [done |].
    cbn. by rewrite lookup_insert_eq.
  - rewrite Hread. by destruct owner.
Qed.
End Chaining.

Section Failure.
Context {E : Type} (h : Host E).
Variable fuel : nat.
Local Abbreviation M := (@M E).

(** X13: a bag outlives the failure of the finalize strategy.  When, for
    an owner without a function, the bag is obtained and the finalize
    strategy then throws, [getInjected] throws what it threw, in the world
    the strategy left; the bag is in the cache all the same, and the next
    [getInjections] of the owner returns it and changes nothing. *)
Theorem bag_survives_failure go k (c : FunctionObject E) (this : Storage E)
    (owner : Value) (w w1 w2 : World E) (r : nat) (e : Error) :
  Produced h fuel go k c → STORAGE c = Some this →
  alive h w owner → is_reference owner = true →
  injected (storage_of w (maps this)) !! owner = None →
  Injection.getInjections h this owner w = (Ok (VRef r), w1) →
  _getInjected this (VRef r) w1 = (Throw e, w2) →
  Injection.getInjected h this owner w = (Throw e, w2) ∧
  injections (storage_of w2 (maps this)) !! owner = Some (VRef r) ∧
  (alive h w2 owner → Injection.getInjections h this owner w2 = (Ok (VRef r), w2)).
Proof.
  intros Hp Hs Ha Hr Hnf Hgi Hfin.
  destruct (Produced_keeps h fuel go k c this Hp Hs) as [_ Hgd].
  destruct (getInjections_ok_inv _ _ _ _ _ _ Hgi) as (_ & _ & Hbag & _).
  assert (injections (storage_of w2 (maps this)) !! owner = Some (VRef r)) as Hbag2.
  { by apply (Hgd (VRef r) w1 _ _ Hfin). }
  split; [| split; [done |]].
  - unfold Injection.getInjected. rewrite guards_pass by done.
    unfold bind at 1. rewrite WeakMap_get_eq, Hr, Hnf. cbn [default truthy negb].
    rewrite (bind_ok _ _ _ _ _ Hgi). by rewrite (bind_throw _ _ _ _ _ Hfin).
  - intros Ha2. by apply getInjections_hit.
Qed.
End Failure.

Section PerOwner.
Context {E : Type} (h : Host E).
Local Abbreviation M := (@M E).

Lemma Object_defineProperty_next o name get (w : World E) res w' :
  Object_defineProperty o name get w = (res, w') → next w' = next w.
Proof.
  unfold Object_defineProperty.
  repeat case_match; by intros [= _ <-].
Qed.

Lemma for_of_next rules owner r (w : World E) res w' :
  for_of rules (fun rule => defineProperty rule owner r) w = (res, w') →
  next w ≤ next w'.
Proof.
  revert w. induction rules as [|rule rules IH]; intros w; cbn.
  - by intros [= _ <-].
  - unfold bind. destruct (defineProperty rule owner r w) as [[u|e] w1] eqn:Hd;
      rewrite defineProperty_eq in Hd; apply Object_defineProperty_next in Hd;
      rewrite alloc_next in Hd.
    + intros H. apply IH in H. lia.
    + intros [= _ <-]. lia.
Qed.

(** The bag that a builder makes is at the next free address, and the
    addresses after it are free no more *)
Lemma builder_injections_fresh gi owner (w : World E) v w' :
  builder_injections h gi → gi owner w = (Ok v, w') →
  v = VRef (next w) ∧ next w < next w'.
Proof.
  intros [a [-> | ->]] H.
  - unfold Builder.getInjections in H.
    rewrite (bind_ok _ _ _ _ _ (new_object_eq w)) in H.
    apply bind_ok_inv in H as (rules & w0 & Hread & H).
    revert Hread. unfold read_array. case_match; [| done]. intros [= <- <-].
    apply bind_ok_inv in H as (u1 & w1 & Hfor & H). apply for_of_next in Hfor.
    apply bind_ok_inv in H as (u2 & w2 & Hfr & H).
    unfold Object_freeze in Hfr.
    assert (next w2 = next w1) as Hn by (destruct (heap w1 !! next w); by injection Hfr as _ <-).
    injection H as <- <-. split; [done |]. cbn in Hfor. lia.
  - unfold Polaris.getInjections in H.
    rewrite (bind_ok _ _ _ _ _ (new_object_eq w)) in H.
    apply bind_ok_inv in H as (rules & w0 & Hread & H).
    revert Hread. unfold read_array. case_match; [| done]. intros [= <- <-].
    apply bind_ok_inv in H as (u1 & w1 & Hfor & H). apply for_of_next in Hfor.
    apply bind_ok_inv in H as (u2 & w2 & Hemit & H). injection Hemit as _ <-.
    apply bind_ok_inv in H as (u3 & w3 & Hhost & H).
    assert (next w3 = next w1) as Hn3.
    { revert Hhost. unfold host. destruct (setScope h _ _ _) as [res e]. by intros [= _ <-]. }
    apply bind_ok_inv in H as (u4 & w4 & Hfr & H). unfold Object_freeze in Hfr.
    assert (next w4 = next w3) as Hn by (destruct (heap w3 !! next w); by injection Hfr as _ <-).
    injection H as <- <-. split; [done |]. cbn in Hfor. lia.
Qed.

(** X14: every owner has a bag of its own.  When a storage of a builder
    has no bag for two different owners and is asked for the bag of one and
    then for the bag of the other, it returns two different objects, and
    holds each for its owner afterwards. *)
Theorem bag_per_owner (this : Storage E) (owner1 owner2 bag1 bag2 : Value)
    (w w1 w2 : World E) :
  builder_injections h (_getInjections this) → owner1 ≠ owner2 →
  injections (storage_of w (maps this)) !! owner1 = None →
  injections (storage_of w (maps this)) !! owner2 = None →
  Injection.getInjections h this owner1 w = (Ok bag1, w1) →
  Injection.getInjections h this owner2 w1 = (Ok bag2, w2) →
  bag1 ≠ bag2 ∧
  injections (storage_of w2 (maps this)) !! owner1 = Some bag1 ∧
  injections (storage_of w2 (maps this)) !! owner2 = Some bag2.
Proof.
  intros Hi Hne Hn1 Hn2 H1 H2.
  destruct (getInjections_ok_inv _ _ _ _ _ _ H1)
    as (_ & Hr1 & Hb1 & [[-> Ht] | (w1' & Hrun1 & Hset1)]); [congruence |].
  destruct (builder_injections_fresh _ _ _ _ _ Hi Hrun1) as [-> Hlt1].
  pose proof (builds_builder_injections h _ owner1 Hi _ _ _ Hrun1) as (_ & _ & Hst1 & _).
  unfold injections_set in Hset1. rewrite Hr1 in Hset1. injection Hset1 as <-.
  assert (injections (storage_of
            (set_storages (<[maps this := {| injected := injected (storage_of w1' (maps this));
                                             injections := <[owner1 := VRef (next w)]>
                                                             (injections (storage_of w1' (maps this))) |}]>
                             (storages w1')) w1') (maps this)) !! owner2 = None) as Hn2'.
  { rewrite storage_of_insert. cbn. rewrite lookup_insert_ne by done.
    by rewrite (storage_of_same w w1'). }
  destruct (getInjections_ok_inv _ _ _ _ _ _ H2)
    as (_ & Hr2 & Hb2 & [[-> Ht] | (w2' & Hrun2 & Hset2)]); [congruence |].
  destruct (builder_injections_fresh _ _ _ _ _ Hi Hrun2) as [-> Hlt2].
  cbn [next set_storages] in *.
  split; [intros [= Heq]; lia |]. split; [| done].
  destruct (getInjections_effect h _ _ _ _ _ Hi H2) as [_ Hkeep].
  by apply Hkeep.
Qed.
End PerOwner.

(** ** The further properties on the example host *)

(** Witness of [untagged_rejected]: the function of [makeConstructor]
    for [f], before [constructorFor] has marked it, in a development build
    and in a production build *)
Lemma untagged_rejected_witness :
  let this := storage_for (Builder.getInjections {| Builder.properties := 0 |})
                          (λ i, Function_bind (VFun 1) i) loaded in
  let args := {| Manager.positional := []; Manager.named := VObj 20 |} in
  (let h := demo true in
   let fn := Injection.makeConstructor h 5 this (getOwner h) (Some "f"%string) in
   Manager.helperFor h fn loaded =
     (Throw (AssertionError "must be an injectable constructor"), loaded) ∧
   Manager.createHelper h (Manager.factory (VObj 0)) fn args loaded =
     (Throw (AssertionError "must be an injectable constructor"), loaded)) ∧
  (let h := demo false in
   let fn := Injection.makeConstructor h 5 this (getOwner h) (Some "f"%string) in
   Manager.helperFor h fn loaded = (Ok (Manager.setHelperManager Manager.factory fn), loaded) ∧
   fst (Manager.createHelper h (Manager.factory (VObj 0)) fn args loaded) =
     Ok {| Manager.fn := VBound 3; Manager.args := args |}).
Proof.
  intros this args. split.
  - intros h fn.
    apply (proj1 (untagged_rejected h fn (Manager.factory (VObj 0)) args loaded eq_refl)).
    reflexivity.
  - intros h fn.
    destruct (proj2 (untagged_rejected h fn (Manager.factory (VObj 0)) args loaded eq_refl)
                eq_refl) as [H1 H2].
    split; [exact H1 |]. rewrite H2. vm_compute; reflexivity.
Defined.

(** Witness of [debug_name]: [builder.into(f)] in a development build and
    in a production build *)
Lemma debug_name_witness :
  Manager.getDebugName
    (Manager.setHelperManager Manager.factory
       (constructor_for (demo true) 5
          (storage_for (Builder.getInjections {| Builder.properties := 0 |})
                       (λ i, Function_bind (VFun 1) i) loaded)
          (getOwner (demo true)) (Some "f"%string))) = "f"%string ∧
  Manager.getDebugName
    (Manager.setHelperManager Manager.factory
       (constructor_for (demo false) 5
          (storage_for (Builder.getInjections {| Builder.properties := 0 |})
                       (λ i, Function_bind (VFun 1) i) loaded)
          (getOwner (demo false)) (Some "f"%string))) = ""%string.
Proof.
  split.
  - apply (proj1 (debug_name (demo true) 5 1) {| Builder.properties := 0 |} loaded _
             (with_storage 1 loaded)).
    left. by apply (into_eq (demo true)).
  - apply (proj1 (debug_name (demo false) 5 1) {| Builder.properties := 0 |} loaded _
             (with_storage 1 loaded)).
    left. by apply (into_eq (demo false)).
Defined.

(** Witness of [guard_messages]: owner 0 in destruction, and destroyed *)
Lemma guard_messages_witness :
  let this := storage_for (Builder.getInjections {| Builder.properties := 0 |})
                          (λ i, Function_bind (VFun 1) i) loaded in
  let w := set_ext [VObj 0] (with_storage 1 loaded) in
  Injection.getInjected demo_destroying this (VObj 0) w =
    (Throw (AssertionError
       "cannot call (unknown function) while the owner is being destroyed"), w) ∧
  Injection.getInjected (demo true) this (VObj 0) w =
    (Throw (AssertionError
       "cannot call (unknown function) after the owner has already been destroyed"), w).
Proof.
  intros this w. split.
  - refine (proj1 (proj2 (proj1 (guard_messages demo_destroying 5 (getOwner demo_destroying)
              (Into (VFun 1)) _ this (VObj 0) w eq_refl _ _) _))).
    + apply (classic_into demo_destroying 5 {| Builder.properties := 0 |} (VFun 1) loaded _
               (with_storage 1 loaded)).
      by apply into_eq.
    + reflexivity.
    + vm_compute; reflexivity.
  - refine (proj1 (proj2 (proj2 (guard_messages (demo true) 5 (getOwner (demo true))
              (Into (VFun 1)) _ this (VObj 0) w eq_refl _ _) _ _))).
    + apply (classic_into (demo true) 5 {| Builder.properties := 0 |} (VFun 1) loaded _
               (with_storage 1 loaded)).
      by apply into_eq.
    + reflexivity.
    + vm_compute; reflexivity.
    + vm_compute; reflexivity.
Defined.

(** Witness of [distinct_names]: [builder.owner().service('config')], and
    a builder that defines [x] twice *)
Lemma distinct_names_witness :
  (∃ w', Builder.getInjections {| Builder.properties := 0 |} (VObj 0)
           (listed [RuleAlias "owner"; RuleService "config" (ByName "config")]) =
         (Ok (VRef 1), w')) ∧
  (∃ w', Builder.getInjections {| Builder.properties := 0 |} (VObj 0)
           (listed [RuleAlias "x"; RuleService "x" (ByName "config")]) =
         (Throw (TypeError "Cannot redefine property"), w')).
Proof.
  split.
  - apply (proj1 (distinct_names (demo true) 0
                    [RuleAlias "owner"; RuleService "config" (ByName "config")] (VObj 0)
                    (listed [RuleAlias "owner"; RuleService "config" (ByName "config")])
                    eq_refl)).
    apply (bool_decide_unpack _). vm_compute. exact I.
  - apply (proj2 (distinct_names (demo true) 0
                    [RuleAlias "x"; RuleService "x" (ByName "config")] (VObj 0)
                    (listed [RuleAlias "x"; RuleService "x" (ByName "config")])
                    eq_refl)).
    intros Hnd. apply (bool_decide_pack _) in Hnd. vm_compute in Hnd. exact Hnd.
Defined.

(** Witness of [classic_bag_reads]: the bag of owner 0 under
    [builder.owner().service('config').property('computedX', ...)] *)
Lemma classic_bag_reads_witness :
  let h := demo true in
  let rules := [RuleAlias "owner"; RuleService "config" (ByName "config");
                RuleProperty "computedX" (VFun 0)] in
  ∃ w', Builder.getInjections {| Builder.properties := 0 |} (VObj 0) (listed rules) =
          (Ok (VRef 1), w') ∧
        get_property h 5 (VRef 1) "owner" w' = (Ok (VObj 0), w') ∧
        get_property h 5 (VRef 1) "toString" w' =
          host (inherited h (VRef 1) "toString") w' ∧
        fst (get_property h 5 (VRef 1) "toString" w') = Ok (VFun 8) ∧
        fst (get_property h 5 (VRef 1) "config" w') = Ok (VObj 1) ∧
        fst (get_property h 5 (VRef 1) "computedX" w') = Ok (VNum 5).
Proof.
  intros h rules.
  destruct (classic_bag_reads h 4 0 rules (VObj 0) (listed rules) eq_refl)
    as (w' & Hb & _ & _ & Ha & Hs & Hp & Hn).
  { apply (bool_decide_unpack _). vm_compute. exact I. }
  exists w'. split; [exact Hb |].
  split; [apply Ha; left |].
  split; [apply Hn; apply (bool_decide_unpack _); vm_compute; exact I |].
  injection Hb as <-. split; [| split]; vm_compute; reflexivity.
Defined.

(** Witness of [polaris_scope_set] *)
Lemma polaris_scope_set_witness :
  let h := demo true in
  let rules := [RuleAlias "scope"; RuleService "svc" (ByFactory (VObj 30))] in
  ∃ w', Polaris.getInjections h {| Polaris.properties := 0 |} (VObj 0) (listed rules) =
          (Ok (VRef 1), w') ∧
        trace w' = [EvSetScope (VRef 1) (VObj 0)] ∧ frozen w' 1.
Proof.
  intros h rules.
  destruct (polaris_scope_set h 0 rules (VObj 0) (listed rules) eq_refl)
    as (w' & Ht & _ & Hb & Hf).
  { apply (bool_decide_unpack _). vm_compute. exact I. }
  exists w'. split; [exact Hb |]. split; [exact Ht | exact Hf].
Defined.

(** Witness of [polaris_bag_reads] *)
Lemma polaris_bag_reads_witness :
  let h := demo true in
  let rules := [RuleAlias "scope"; RuleService "svc" (ByFactory (VObj 30));
                RuleProperty "computedX" (VFun 0)] in
  ∃ w', Polaris.getInjections h {| Polaris.properties := 0 |} (VObj 0) (listed rules) =
          (Ok (VRef 1), w') ∧
        get_property h 5 (VRef 1) "scope" w' = (Ok (VObj 0), w') ∧
        get_property h 5 (VRef 1) "toString" w' =
          host (inherited h (VRef 1) "toString") w' ∧
        fst (get_property h 5 (VRef 1) "svc" w') = Ok (VObj 30).
Proof.
  intros h rules.
  destruct (polaris_bag_reads h 4 0 rules (VObj 0) (listed rules) VUndefined eq_refl)
    as (w' & Hb & Ha & _ & _ & Hn).
  { apply (bool_decide_unpack _). vm_compute. exact I. }
  { reflexivity. }
  exists w'. split; [exact Hb |].
  split; [apply Ha; left |].
  split; [apply Hn; apply (bool_decide_unpack _); vm_compute; exact I |].
  injection Hb as <-. vm_compute; reflexivity.
Defined.

(** Witness of [service_lookup_key]: [builder.owner().service('cfg',
    'config')] *)
Lemma service_lookup_key_witness :
  let h := demo true in
  ∃ b w1 w2,
    Builder.service {| Builder.properties := 0 |} "cfg" (Some "config"%string)
      (listed [RuleAlias "owner"]) = (Ok b, w1) ∧
    Builder.getInjections b (VObj 0) w1 = (Ok (VRef (next w1)), w2) ∧
    fst (get_property h 5 (VRef (next w1)) "cfg" w2) = Ok (VObj 1) ∧
    trace (snd (get_property h 5 (VRef (next w1)) "cfg" w2)) =
      [EvLookup (VObj 0) (ByName "config")].
Proof.
  intros h.
  destruct (service_lookup_key h 4 0 [RuleAlias "owner"] "cfg" (Some "config"%string)
              (VObj 0) (listed [RuleAlias "owner"]) eq_refl)
    as (b & w1 & w2 & cell & Hs & Hb & Hread).
  { apply (bool_decide_unpack _). vm_compute. exact I. }
  { apply (bool_decide_unpack _). vm_compute. exact I. }
  { discriminate. }
  { discriminate. }
  exists b, w1, w2. split; [exact Hs |]. split; [exact Hb |].
  injection Hs as <- <-. injection Hb as <-. split; vm_compute; reflexivity.
Defined.

(** Witness of [into_binds_bag]: [builder.service('config')
    .property('computedX', ...).into(f)], instantiated for owner 0 *)
Lemma into_binds_bag_witness :
  let h := demo true in
  let w0 := listed [RuleService "config" (ByName "config"); RuleProperty "computedX" (VFun 0)] in
  let this := storage_for (Builder.getInjections {| Builder.properties := 0 |})
                          (λ i, Function_bind (VFun 1) i) w0 in
  let c := Manager.setHelperManager Manager.factory
             (constructor_for h 5 this (getOwner h) (Some "f"%string)) in
  let w1 := snd (construct c [VObj 0] (with_storage 1 w0)) in
  ∃ r bag, bounds w1 !! r = Some (VFun 1, bag) ∧
           injections (storage_of w1 (maps this)) !! VObj 0 = Some bag ∧
           call h 5 (VBound r) (VObj 99) [VNum 3] w1 = call h 4 (VFun 1) bag [VNum 3] w1 ∧
           fst (call h 5 (VBound r) (VObj 99) [VNum 3] w1) = Ok (VNum 18).
Proof.
  intros h w0 this c w1.
  destruct (into_binds_bag h 5 (getOwner h) (VFun 1) c this (VObj 0) (with_storage 1 w0) w1
              (VBound 6)) as (r & bag & Hg & Hb & Hbag & Hcall).
  - apply (classic_into h 5 {| Builder.properties := 0 |} (VFun 1) w0 _ (with_storage 1 w0)).
    by apply into_eq.
  - reflexivity.
  - vm_compute; reflexivity.
  - vm_compute; reflexivity.
  - exists r, bag. split; [exact Hb |]. split; [exact Hbag |].
    injection Hg as <-. split; [apply (Hcall 4) |]. vm_compute; reflexivity.
Defined.

(** Witness of [separate_caches]: [builder.into(f)] twice *)
Lemma separate_caches_witness :
  let h := demo true in
  let gi := Builder.getInjections {| Builder.properties := 0 |} in
  let gd := λ i, Function_bind (E := list Value) (VFun 1) i in
  let w1 := with_storage 1 loaded in
  let w3 := with_storage 2 w1 in
  let s1 := storage_for gi gd loaded in
  let s2 := storage_for gi gd w1 in
  let w4 := snd (Injection.getInjected h s1 (VObj 0) w3) in
  let w5 := snd (construct (constructor_for h 5 s2 (getOwner h) (Some "f"%string))
                   [VObj 0] w4) in
  maps s1 ≠ maps s2 ∧
  injected (storage_of w4 (maps s1)) !! VObj 0 = Some (VBound 4) ∧
  injected (storage_of w5 (maps s2)) !! VObj 0 = Some (VBound 7) ∧
  storage_of w5 (maps s1) = storage_of w4 (maps s1).
Proof.
  intros h gi gd w1 w3 s1 s2 w4 w5.
  destruct (separate_caches h 5 gi gd (getOwner h) (Some "f"%string)
              gi gd (getOwner h) (Some "f"%string)
              (constructor_for h 5 s1 (getOwner h) (Some "f"%string))
              (constructor_for h 5 s2 (getOwner h) (Some "f"%string))
              s1 s2 loaded w1 w1 w3) as (Hne & _ & Hsep).
  - apply constructorFor_eq.
  - apply le_n.
  - apply constructorFor_eq.
  - reflexivity.
  - reflexivity.
  - exists 0. left. reflexivity.
  - split; [exact Hne |].
    split; [vm_compute; reflexivity |]. split; [vm_compute; reflexivity |].
    apply (Hsep (VFun 1) eq_refl (VObj 0) w4
             (fst (construct (constructor_for h 5 s2 (getOwner h)
                                (Some "f"%string)) [VObj 0] w4)) w5).
    right. apply surjective_pairing.
Defined.

(** Witness of [helper_value]: the helper of [builder.service('config')
    .property('computedX', ...).into(f)] for owner 0, with one positional
    argument and no named one *)
Lemma helper_value_witness :
  let h := demo true in
  let w0 := listed [RuleService "config" (ByName "config"); RuleProperty "computedX" (VFun 0)] in
  let this := storage_for (Builder.getInjections {| Builder.properties := 0 |})
                          (λ i, Function_bind (VFun 1) i) w0 in
  let c := Manager.setHelperManager Manager.factory
             (constructor_for h 5 this (getOwner h) (Some "f"%string)) in
  let args := {| Manager.positional := [VNum 3]; Manager.named := VObj 20 |} in
  let state := {| Manager.fn := VBound 6; Manager.args := args |} in
  let w1 := snd (Manager.createHelper h (Manager.factory (VObj 0)) c args (with_storage 1 w0)) in
  ∃ bag, injections (storage_of w1 (maps this)) !! VObj 0 = Some bag ∧
         Manager.getValue h 6 state w1 = call h 5 (VFun 1) bag [VNum 3] w1 ∧
         fst (Manager.getValue h 6 state w1) = Ok (VNum 18).
Proof.
  intros h w0 this c args state w1.
  destruct (helper_value h 5 (getOwner h) (VFun 1) c this (VObj 0) args
              (with_storage 1 w0) w1 state) as (bag & Hbag & Hv).
  - apply (classic_into h 5 {| Builder.properties := 0 |} (VFun 1) w0 _ (with_storage 1 w0)).
    by apply into_eq.
  - reflexivity.
  - vm_compute; reflexivity.
  - vm_compute; reflexivity.
  - exists bag. split; [exact Hbag |]. split; [exact Hv |]. vm_compute; reflexivity.
Defined.

(** Witness of [primitive_owner]: [new c(5)] *)
Lemma primitive_owner_witness :
  let h := demo true in
  let this := storage_for (Builder.getInjections {| Builder.properties := 0 |})
                          (λ i, Function_bind (VFun 1) i) loaded in
  let c := Manager.setHelperManager Manager.factory
             (constructor_for h 5 this (getOwner h) (Some "f"%string)) in
  let w0 := with_storage 1 loaded in
  let w1 := snd (_getInjections this (VNum 5) (with_bag w0)) in
  construct c [VNum 5] w0 = (Throw (TypeError "Invalid value used as weak map key"), w1) ∧
  storages w1 = storages w0.
Proof.
  intros h this c w0 w1.
  destruct (primitive_owner h 5 (getOwner h) (Into (VFun 1)) c this (VNum 5) (VRef 3)
              (with_bag w0) w1) as (_ & _ & Hst & Hnew).
  - apply (classic_into h 5 {| Builder.properties := 0 |} (VFun 1) loaded _ w0).
    by apply into_eq.
  - reflexivity.
  - reflexivity.
  - split; vm_compute; reflexivity.
  - vm_compute; reflexivity.
  - split; [by apply Hnew | exact Hst].
Defined.

(** Witness of [bag_survives_failure]: [builder.build(() => { throw
    'boom'; })], resolved for owner 0 *)
Lemma bag_survives_failure_witness :
  let h := demo true in
  let this := storage_for (Builder.getInjections {| Builder.properties := 0 |})
                          (λ i, call h 5 (VFun 2) VUndefined [i]) loaded in
  let w := with_storage 1 loaded in
  let w2 := snd (Injection.getInjected h this (VObj 0) w) in
  Injection.getInjected h this (VObj 0) w = (Throw (Thrown (VStr "boom")), w2) ∧
  injections (storage_of w2 (maps this)) !! VObj 0 = Some (VRef 2) ∧
  Injection.getInjections h this (VObj 0) w2 = (Ok (VRef 2), w2).
Proof.
  intros h this w w2.
  destruct (bag_survives_failure h 5 (getOwner h) (Build (VFun 2))
              (Manager.setHelperManager Manager.factory
                 (constructor_for h 5 this (getOwner h) None))
              this (VObj 0) w (snd (Injection.getInjections h this (VObj 0) w)) w2 2
              (Thrown (VStr "boom"))) as (H1 & H2 & H3).
  - apply (classic_build h 5 {| Builder.properties := 0 |} (VFun 2) loaded _ w).
    by apply build_eq.
  - reflexivity.
  - split; vm_compute; reflexivity.
  - reflexivity.
  - vm_compute; reflexivity.
  - vm_compute; reflexivity.
  - vm_compute; reflexivity.
  - split; [exact H1 |]. split; [exact H2 |]. apply H3. split; vm_compute; reflexivity.
Defined.

(** Witness of [bag_per_owner]: the bags of owner 0 and of owner 5 *)
Lemma bag_per_owner_witness :
  let h := demo true in
  let this := storage_for (Builder.getInjections {| Builder.properties := 0 |})
                          (λ i, Function_bind (VFun 1) i) loaded in
  let w := with_storage 1 loaded in
  let w1 := snd (Injection.getInjections h this (VObj 0) w) in
  let w2 := snd (Injection.getInjections h this (VObj 5) w1) in
  VRef 2 ≠ VRef 3 ∧
  injections (storage_of w2 (maps this)) !! VObj 0 = Some (VRef 2) ∧
  injections (storage_of w2 (maps this)) !! VObj 5 = Some (VRef 3).
Proof.
  intros h this w w1 w2.
  apply (bag_per_owner h this (VObj 0) (VObj 5) (VRef 2) (VRef 3) w w1 w2).
  - exists 0. left. reflexivity.
  - discriminate.
  - vm_compute; reflexivity.
  - vm_compute; reflexivity.
  - vm_compute; reflexivity.
  - vm_compute; reflexivity.
Defined.
